(** * Gym Scheduler: the session scheduling and aggregation engine

    A shallow embedding of [src/app/page.tsx].  The React component keeps the
    session collection in component state and mirrors it into one
    [localStorage] slot; the embedding threads that state explicitly.

    Conventions of the embedding:
    - a [Session] object is a record (an object up to the order of its
      fields); the union types [TrainingFocus], [Intensity] and [DayKey] are
      enumerations;
    - [duration] is a whole number of minutes ([Z]); sums of durations are
      computed in binary64 floating point, as JavaScript does, a duration
      entering them as the number nearest to it;
    - strings are sequences of code units ([string]);
    - [Array.prototype.sort] is the stable sort of ECMAScript 2019, written
      as a stable insertion sort;
    - [String.prototype.localeCompare] is code-unit lexicographic order, with
      which collation agrees on fixed-width zero-padded [HH:MM] strings;
    - [generateId] draws from an explicit random source;
    - [JSON.parse] and [JSON.stringify] are parameters of the persistence
      code; a JSON text codec, proved to round-trip, instantiates them;
    - the completion rate is computed in binary64 floating point, as
      JavaScript does;
    - a [Date] is its time value in milliseconds, and local time is given
      by the [LocalTZA] of ECMAScript. *)

From Stdlib Require Import ZArith List String Ascii Bool Lia.
From Stdlib Require Import Sorted Permutation.
From Stdlib Require Import DecimalString DecimalFacts DecimalPos DecimalZ.
From Stdlib Require Import DecimalNat FinFun.
From Stdlib Require Import Uint63 Floats.
Set Warnings "-register-all".
Import ListNotations.
Open Scope string_scope.
Open Scope Z_scope.

(** ** Data model *)

Inductive TrainingFocus :=
  Strength | Hypertrophy | Conditioning | Mobility | Skill | Recovery.

Inductive Intensity := Low | Medium | High.

Inductive DayKey :=
  Monday | Tuesday | Wednesday | Thursday | Friday | Saturday | Sunday.

Record Session := mkSession {
  id : string;
  name : string;
  focus : TrainingFocus;
  intensity : Intensity;
  day : DayKey;
  start : string;
  duration : Z;
  location : string;
  notes : option string;
  completed : bool
}.

(** [Omit<Session, "id">]: the form's draft.  Every draft the component
    builds carries [notes] as a string ([DEFAULT_SESSION], [handleEdit] and
    the templates all set it). *)
Record Draft := mkDraft {
  draft_name : string;
  draft_focus : TrainingFocus;
  draft_intensity : Intensity;
  draft_day : DayKey;
  draft_start : string;
  draft_duration : Z;
  draft_location : string;
  draft_notes : string;
  draft_completed : bool
}.

Definition TrainingFocus_eqb (a b : TrainingFocus) : bool :=
  match a, b with
  | Strength, Strength | Hypertrophy, Hypertrophy
  | Conditioning, Conditioning | Mobility, Mobility
  | Skill, Skill | Recovery, Recovery => true
  | _, _ => false
  end.

Definition DayKey_eqb (a b : DayKey) : bool :=
  match a, b with
  | Monday, Monday | Tuesday, Tuesday | Wednesday, Wednesday
  | Thursday, Thursday | Friday, Friday | Saturday, Saturday
  | Sunday, Sunday => true
  | _, _ => false
  end.

Definition DAYS : list DayKey :=
  [Monday; Tuesday; Wednesday; Thursday; Friday; Saturday; Sunday].

Definition TRAINING_FOCI : list TrainingFocus :=
  [Strength; Hypertrophy; Conditioning; Mobility; Skill; Recovery].

(** ** Array and string primitives *)

(** [Array.prototype.indexOf]: position of the first match, [-1] if none. *)
Fixpoint indexOf {A : Type} (eqb : A -> A -> bool) (x : A) (l : list A) : Z :=
  match l with
  | [] => -1
  | y :: l' =>
      if eqb y x then 0
      else let i := indexOf eqb x l' in if i <? 0 then -1 else i + 1
  end.

(** [a.localeCompare(b)]: negative, zero or positive. *)
Definition localeCompare (a b : string) : Z :=
  match String.compare a b with
  | Lt => -1
  | Eq => 0
  | Gt => 1
  end.

(** [Array.prototype.sort(cmp)]: [insertSorted] puts [x] in front of the
    first element it does not come after, so elements that compare equal
    keep their order. *)
Section ArraySort.
Context {A : Type} (cmp : A -> A -> Z).

Fixpoint insertSorted (x : A) (l : list A) : list A :=
  match l with
  | [] => [x]
  | y :: l' => if cmp x y <=? 0 then x :: y :: l' else y :: insertSorted x l'
  end.

Fixpoint Array_sort (l : list A) : list A :=
  match l with
  | [] => []
  | x :: l' => insertSorted x (Array_sort l')
  end.
End ArraySort.

(** ** The ordering of the collection (the comparator of [handleSubmit]) *)

Definition dayIndex (d : DayKey) : Z := indexOf DayKey_eqb d DAYS.

Definition compareSessions (a b : Session) : Z :=
  if DayKey_eqb (day a) (day b) then localeCompare (start a) (start b)
  else dayIndex (day a) - dayIndex (day b).

Definition sortSessions (l : list Session) : list Session :=
  Array_sort compareSessions l.

(** [a] may stand before [b]: earlier day, or same day and a start string
    that is lexicographically no later. *)
Definition dayStartLe (a b : Session) : Prop :=
  dayIndex (day a) < dayIndex (day b) \/
  (day a = day b /\ String.leb (start a) (start b) = true).

Definition sortedByDayStart (l : list Session) : Prop :=
  StronglySorted dayStartLe l.

(** ** Identifier Generator

    [generateId] draws from a random source ([crypto.randomUUID] or
    [Math.random]).  The source is an explicit state: [fresh e n] is the
    [n]-th identifier it yields and [drawn e] counts the draws so far. *)

Record Entropy := mkEntropy {
  fresh : nat -> string;
  drawn : nat
}.

(** Computations that may call [generateId]. *)
Definition Gen (A : Type) : Type := Entropy -> A * Entropy.

Definition ret {A : Type} (a : A) : Gen A := fun e => (a, e).

Definition bind {A B : Type} (m : Gen A) (k : A -> Gen B) : Gen B :=
  fun e => let (a, e') := m e in k a e'.

Notation "x <- m ;; k" := (bind m (fun x => k))
  (at level 61, m at next level, right associativity).

Definition generateId : Gen string :=
  fun e => (fresh e (drawn e), mkEntropy (fresh e) (S (drawn e))).

(** [array.map((x, index) => f(x, index))] for an effectful [f]. *)
Fixpoint mapWithIndex {A B : Type} (f : A -> nat -> Gen B) (index : nat)
    (l : list A) : Gen (list B) :=
  match l with
  | [] => ret []
  | x :: l' =>
      y <- f x index ;;
      ys <- mapWithIndex f (S index) l' ;;
      ret (y :: ys)
  end.

(** ** Balance Seeder *)

Record Template := mkTemplate {
  template_name : string;
  template_focus : TrainingFocus;
  template_intensity : Intensity;
  template_duration : Z;
  template_location : string;
  template_notes : string
}.

Definition SESSION_TEMPLATES : list Template := [
  mkTemplate "Lower Body Power" Strength High 75 "Main Weight Room"
    "Hang power cleans, front squats, speed deadlifts, sled pushes. Finish with core anti-rotation.";
  mkTemplate "Upper Body Push-Pull" Hypertrophy Medium 65 "Training Floor"
    "Superset incline bench + chest-supported rows. Giant set shoulders + arms. Finish with accessory chest/back.";
  mkTemplate "Tempo Run + Intervals" Conditioning High 50 "Track / Treadmill"
    "10 min build, 3x8 min @ goal pace with 2 min float, finish with 6x30s hard sprints.";
  mkTemplate "Controlled Mobility Flow" Mobility Low 40 "Studio B"
    "CARS sequence, dynamic hip openers, thoracic rotation work, loaded carries for range control.";
  mkTemplate "Olympic Lifting Technique" Skill Medium 55 "Platform Area"
    "Snatch technical ladder, pause variations, jerk footwork, pulls with tempo focus.";
  mkTemplate "Active Recovery Ride" Recovery Low 35 "Spin Room"
    "Zone 2 spin, breathing drills, finish with light band work and foam rolling."
].

Definition DEFAULT_SESSION : Draft :=
  mkDraft "Untitled Session" Strength Medium Monday "07:00" 60 "Main Floor"
    EmptyString false.

Definition daysSequence : list DayKey :=
  [Monday; Tuesday; Wednesday; Thursday; Friday; Saturday; Sunday].

Definition baseTimes : list string :=
  ["06:30"; "07:00"; "18:00"; "09:00"; "08:30"; "10:00"].

(** [{ id: generateId(), day: ..., start: ..., completed: false,
    ...template }]; the indices [index % length] are always in range. *)
Definition seedSession (template : Template) (index : nat) : Gen Session :=
  newId <- generateId ;;
  ret (mkSession newId
         (template_name template)
         (template_focus template)
         (template_intensity template)
         (nth (Nat.modulo index (List.length daysSequence)) daysSequence Monday)
         (nth (Nat.modulo index (List.length baseTimes)) baseTimes EmptyString)
         (template_duration template)
         (template_location template)
         (Some (template_notes template))
         false).

Definition suggestBalancedWeek : Gen (list Session) :=
  mapWithIndex seedSession 0 (firstn 6 SESSION_TEMPLATES).

(** ** Runtime values and the stored representation

    What [JSON.parse] can return.  Numbers are the integers; an object is
    the list of its own properties in order. *)

Inductive JSON :=
| JNull
| JBool (b : bool)
| JNum (n : Z)
| JStr (s : string)
| JArr (elements : list JSON)
| JObj (fields : list (string * JSON)).

Fixpoint getField (k : string) (fs : list (string * JSON)) : option JSON :=
  match fs with
  | [] => None
  | (k', v) :: fs' => if String.eqb k' k then Some v else getField k fs'
  end.

(** Assignment to a property: an existing key keeps its place. *)
Fixpoint setField (k : string) (v : JSON) (fs : list (string * JSON))
    : list (string * JSON) :=
  match fs with
  | [] => [(k, v)]
  | (k', v') :: fs' =>
      if String.eqb k' k then (k, v) :: fs' else (k', v') :: setField k v fs'
  end.

Definition indexKey (n : nat) : string :=
  DecimalString.NilEmpty.string_of_uint (Nat.to_uint n).

Fixpoint indexed {A : Type} (f : A -> JSON) (n : nat) (l : list A)
    : list (string * JSON) :=
  match l with
  | [] => []
  | x :: l' => (indexKey n, f x) :: indexed f (S n) l'
  end.

(** [{ ...v }]: the own enumerable properties of [v]. *)
Definition spreadProps (v : JSON) : list (string * JSON) :=
  match v with
  | JObj fs => fs
  | JArr l => indexed (fun x => x) 0 l
  | JStr s => indexed (fun c => JStr (String c EmptyString)) 0 (list_ascii_of_string s)
  | JNull | JBool _ | JNum _ => []
  end.

(** [v.id] and [v.completed] for a [v] other than [null]: [None] is
    [undefined].  Arrays, strings, numbers and booleans have neither
    property. *)
Definition getProp (v : JSON) (k : string) : option JSON :=
  match v with
  | JObj fs => getField k fs
  | _ => None
  end.

(** [Boolean(x)]. *)
Definition toBoolean (x : option JSON) : bool :=
  match x with
  | None | Some JNull => false
  | Some (JBool b) => b
  | Some (JNum n) => negb (n =? 0)
  | Some (JStr s) => negb (String.eqb s EmptyString)
  | Some (JArr _) | Some (JObj _) => true
  end.

(** The callback of [parsed.map] in [loadSessions]:
    [{ ...session, id: session.id ?? generateId(),
       completed: Boolean(session.completed) }].
    [None] is the [TypeError] of reading a property of [null]. *)
Definition normaliseSession (session : JSON) : Gen (option JSON) :=
  match session with
  | JNull => ret None
  | _ =>
      newId <- match getProp session "id" with
               | None | Some JNull => s <- generateId ;; ret (JStr s)
               | Some v => ret v
               end ;;
      ret (Some (JObj
        (setField "completed" (JBool (toBoolean (getProp session "completed")))
          (setField "id" newId (spreadProps session)))))
  end.

(** [parsed.map(...)] over an array: stops at the first exception. *)
Fixpoint normaliseAll (l : list JSON) : Gen (option (list JSON)) :=
  match l with
  | [] => ret (Some [])
  | x :: l' =>
      r <- normaliseSession x ;;
      match r with
      | None => ret None
      | Some y =>
          rs <- normaliseAll l' ;;
          ret (match rs with Some ys => Some (y :: ys) | None => None end)
      end
  end.

(** Whether every object in a value has pairwise distinct keys, as every
    object at run time has. *)
Fixpoint distinctStrings (l : list string) : bool :=
  match l with
  | [] => true
  | k :: l' => negb (existsb (String.eqb k) l') && distinctStrings l'
  end.

Fixpoint distinctKeys (v : JSON) : bool :=
  match v with
  | JArr l => forallb distinctKeys l
  | JObj fs =>
      distinctStrings (map fst fs)
      && forallb (fun kv => distinctKeys (snd kv)) fs
  | JNull | JBool _ | JNum _ | JStr _ => true
  end.

(** The number of nodes of a value, counting each element and member. *)
Fixpoint size (v : JSON) : nat :=
  match v with
  | JArr l => S (list_sum (map (fun e => S (size e)) l))
  | JObj fs => S (list_sum (map (fun kv => S (size (snd kv))) fs))
  | JNull | JBool _ | JNum _ | JStr _ => 1
  end.

(** *** Sessions as runtime objects *)

Definition focusName (f : TrainingFocus) : string :=
  match f with
  | Strength => "Strength" | Hypertrophy => "Hypertrophy"
  | Conditioning => "Conditioning" | Mobility => "Mobility"
  | Skill => "Skill" | Recovery => "Recovery"
  end.

Definition intensityName (i : Intensity) : string :=
  match i with Low => "Low" | Medium => "Medium" | High => "High" end.

Definition dayName (d : DayKey) : string :=
  match d with
  | Monday => "Monday" | Tuesday => "Tuesday" | Wednesday => "Wednesday"
  | Thursday => "Thursday" | Friday => "Friday" | Saturday => "Saturday"
  | Sunday => "Sunday"
  end.

Definition findByName {A : Type} (nameOf : A -> string) (all : list A)
    (s : string) : option A :=
  find (fun a => String.eqb (nameOf a) s) all.

Definition INTENSITIES : list Intensity := [Low; Medium; High].

(** The object a [Session] is at run time.  An absent [notes] is an absent
    property. *)
Definition Session_toJSON (s : Session) : JSON :=
  JObj ([ ("id", JStr (id s));
          ("name", JStr (name s));
          ("focus", JStr (focusName (focus s)));
          ("intensity", JStr (intensityName (intensity s)));
          ("day", JStr (dayName (day s)));
          ("start", JStr (start s));
          ("duration", JNum (duration s));
          ("location", JStr (location s)) ]
        ++ match notes s with
           | Some n => [("notes", JStr n)]
           | None => []
           end
        ++ [ ("completed", JBool (completed s)) ]).

Definition asStr (v : option JSON) : option string :=
  match v with Some (JStr s) => Some s | _ => None end.

Definition asNum (v : option JSON) : option Z :=
  match v with Some (JNum n) => Some n | _ => None end.

Definition asBool (v : option JSON) : option bool :=
  match v with Some (JBool b) => Some b | _ => None end.

Definition asOptStr (v : option JSON) : option (option string) :=
  match v with
  | None => Some None
  | Some (JStr s) => Some (Some s)
  | _ => None
  end.

Definition obind {A B : Type} (m : option A) (k : A -> option B) : option B :=
  match m with Some a => k a | None => None end.

Notation "x <-? m ;; k" := (obind m (fun x => k))
  (at level 61, m at next level, right associativity).

(** The reading of a runtime object at type [Session]: defined when every
    property has the type the declaration gives it. *)
Definition Session_ofJSON (v : JSON) : option Session :=
  match v with
  | JObj fs =>
      i <-? asStr (getField "id" fs) ;;
      n <-? asStr (getField "name" fs) ;;
      f <-? obind (asStr (getField "focus" fs))
              (findByName focusName TRAINING_FOCI) ;;
      t <-? obind (asStr (getField "intensity" fs))
              (findByName intensityName INTENSITIES) ;;
      d <-? obind (asStr (getField "day" fs)) (findByName dayName DAYS) ;;
      s <-? asStr (getField "start" fs) ;;
      m <-? asNum (getField "duration" fs) ;;
      l <-? asStr (getField "location" fs) ;;
      o <-? asOptStr (getField "notes" fs) ;;
      c <-? asBool (getField "completed" fs) ;;
      Some (mkSession i n f t d s m l o c)
  | _ => None
  end.

Fixpoint sessionsOfJSON (l : list JSON) : option (list Session) :=
  match l with
  | [] => Some []
  | v :: l' =>
      s <-? Session_ofJSON v ;;
      ss <-? sessionsOfJSON l' ;;
      Some (s :: ss)
  end.

(** ** Persistence Adapter *)

Section Persistence.
(** Whether [window] is defined (false while rendering on the server). *)
Variable hasWindow : bool.
(** [JSON.parse]: [None] is the [SyntaxError]. *)
Variable JSON_parse : string -> option JSON.
Variable JSON_stringify : JSON -> string.

(** [localStorage.getItem(STORAGE_KEY)] is the argument [slot].  The result
    is the array of runtime objects the function returns; the seeded week
    is the objects of its sessions. *)
Definition loadSessions (slot : option string) : Gen (list JSON) :=
  let fallback := ws <- suggestBalancedWeek ;; ret (map Session_toJSON ws) in
  if negb hasWindow then ret []
  else
    match slot with
    | None => fallback
    | Some raw =>
        if String.eqb raw EmptyString then fallback
        else
          match JSON_parse raw with
          | None => fallback
          | Some (JArr parsed) =>
              r <- normaliseAll parsed ;;
              match r with
              | Some sessions => ret sessions
              | None => fallback
              end
          | Some _ => fallback
          end
    end.

(** [localStorage.setItem(STORAGE_KEY, JSON.stringify(sessions))]: the new
    content of the slot. *)
Definition saveSessions (sessions : list Session) (slot : option string)
    : option string :=
  if negb hasWindow then slot
  else Some (JSON_stringify (JArr (map Session_toJSON sessions))).

(** The effect of [Page] that runs when [sessions] changes:
    [localStorage.removeItem(STORAGE_KEY)] when [sessions.length] is 0,
    [saveSessions(sessions)] otherwise. *)
Definition persistEffect (sessions : list Session) (slot : option string)
    : option string :=
  if negb hasWindow then slot
  else if (List.length sessions =? 0)%nat then None
  else saveSessions sessions slot.
End Persistence.

(** ** Session Store: the state updaters of [Page] *)

(** [{ id: ..., ...draft }]. *)
Definition makePayload (newId : string) (draft : Draft) : Session :=
  mkSession newId (draft_name draft) (draft_focus draft)
    (draft_intensity draft) (draft_day draft) (draft_start draft)
    (draft_duration draft) (draft_location draft) (Some (draft_notes draft))
    (draft_completed draft).

(** [{ ...session, ...payload }]: each property [payload] has wins. *)
Definition mergeSession (session payload : Session) : Session :=
  mkSession (id payload) (name payload) (focus payload) (intensity payload)
    (day payload) (start payload) (duration payload) (location payload)
    (match notes payload with Some n => Some n | None => notes session end)
    (completed payload).

(** The updater passed to [setSessions] in [handleSubmit].  The condition
    [editingId ? ... : ...] holds for a non-empty string. *)
Definition submitSessions (editingId : option string) (payload : Session)
    (prev : list Session) : list Session :=
  let next :=
    match editingId with
    | Some target =>
        if negb (String.eqb target EmptyString) then
          map (fun session =>
                 if String.eqb (id session) target
                 then mergeSession session payload else session) prev
        else (prev ++ [payload])%list
    | None => (prev ++ [payload])%list
    end in
  sortSessions next.

(** The updater of [handleDelete]. *)
Definition deleteSession (target : string) (prev : list Session)
    : list Session :=
  filter (fun session => negb (String.eqb (id session) target)) prev.

(** The updater of [toggleCompleted]. *)
Definition toggleSession (target : string) (prev : list Session)
    : list Session :=
  map (fun session =>
         if String.eqb (id session) target
         then mkSession (id session) (name session) (focus session)
                (intensity session) (day session) (start session)
                (duration session) (location session) (notes session)
                (negb (completed session))
         else session) prev.

(** ** Aggregation Engine *)

Record DayGroup := mkDayGroup {
  group_day : DayKey;
  group_sessions : list Session
}.

Definition compareStart (a b : Session) : Z :=
  localeCompare (start a) (start b).

(** [sessions.filter(s => s.day === d).sort(...)]. *)
Definition dayBucket (d : DayKey) (sessions : list Session) : list Session :=
  Array_sort compareStart
    (filter (fun session => DayKey_eqb (day session) d) sessions).

Definition byDay (sessions : list Session) : list DayGroup :=
  map (fun d => mkDayGroup d (dayBucket d sessions)) DAYS.

Definition sortedByStart (l : list Session) : Prop :=
  StronglySorted (fun a b => String.leb (start a) (start b) = true) l.

(** *** Numbers

    A JavaScript number is an IEEE 754 binary64 value ([float]).  A duration
    is a whole number of minutes ([Z] in [Session]); in arithmetic it is the
    number nearest to it (ties to even), which is the whole number itself
    up to [2^53] in magnitude. *)
Definition numberOfZ (z : Z) : float :=
  SF2Prim (binary_normalize prec emax z 0 false).

(** The whole number that a number is, when it is one. *)
Definition integerOf (x : float) : option Z :=
  match Prim2SF x with
  | S754_zero _ => Some 0
  | S754_finite s m e =>
      let n := if s then Z.neg m else Z.pos m in
      if 0 <=? e then Some (n * 2 ^ e)
      else if Z.pos m mod 2 ^ (- e) =? 0 then Some (n / 2 ^ (- e))
      else None
  | _ => None
  end.

(** [l.reduce((sum, session) => sum + session.duration, 0)]: the additions
    are those of binary64, from the left. *)
Definition sumDuration (l : list Session) : float :=
  fold_left
    (fun sum session => (sum + numberOfZ (duration session))%float)
    l 0%float.

Record FocusEntry := mkFocusEntry {
  entry_focus : TrainingFocus;
  entry_total : float;
  entry_completed : float
}.

Definition focusVolume (sessions : list Session) : list FocusEntry :=
  map (fun f =>
         mkFocusEntry f
           (sumDuration
              (filter (fun session => TrainingFocus_eqb (focus session) f)
                 sessions))
           (sumDuration
              (filter (fun session =>
                         TrainingFocus_eqb (focus session) f
                         && completed session) sessions)))
      TRAINING_FOCI.

Definition weeklyMinutes (sessions : list Session) : float :=
  sumDuration sessions.

(** The sums of the specification, in exact arithmetic: of the durations of
    a collection, and of those of one focus category. *)
Definition exactMinutes (l : list Session) : Z :=
  fold_right (fun session sum => duration session + sum) 0 l.

Definition exactTotal (f : TrainingFocus) (sessions : list Session) : Z :=
  exactMinutes
    (filter (fun session => TrainingFocus_eqb (focus session) f) sessions).

Definition exactCompleted (f : TrainingFocus) (sessions : list Session) : Z :=
  exactMinutes
    (filter (fun session =>
               TrainingFocus_eqb (focus session) f && completed session)
       sessions).

(** The sum of a list of numbers, added from the left in binary64. *)
Definition sumNumbers (l : list float) : float :=
  fold_left PrimFloat.add l 0%float.

(** The exponent of the number that holds the whole number [z]. *)
Definition exponentOf (z : Z) : Z := Z.log2 z - 52.

(** The float with mantissa [m] and exponent [e] is the whole number [z]. *)
Definition holds (m : positive) (e : Z) (z : Z) : Prop :=
  Z.pos m * 2 ^ (e - Z.min e 0) = z * 2 ^ (0 - Z.min e 0).

(** *** Completion rate

    The expression in the header card,
    [sessions.length ? Math.round((done / sessions.length) * 100) : 0],
    in IEEE 754 double precision as JavaScript evaluates it. *)

Definition toNumber (n : nat) : float :=
  PrimFloat.of_uint63 (Uint63.of_Z (Z.of_nat n)).

(** [Math.round]: the integer [floor (x + 1/2)], computed exactly from the
    mantissa and exponent of [x].  The operand here is always finite. *)
Definition Math_round (x : float) : Z :=
  match Prim2SF x with
  | S754_finite s m e =>
      let n := if s then Z.neg m else Z.pos m in
      if 0 <=? e then n * 2 ^ e
      else (2 * n + 2 ^ (- e)) / 2 ^ (1 - e)
  | _ => 0
  end.

(** [total ? Math.round((done / total) * 100) : 0]. *)
Definition completionPercent (done total : nat) : Z :=
  if (total =? 0)%nat then 0
  else
    Math_round
      (PrimFloat.mul (PrimFloat.div (toNumber done) (toNumber total))
         (toNumber 100)).

Definition completionRate (sessions : list Session) : Z :=
  completionPercent
    (List.length (filter (fun session => completed session) sessions))
    (List.length sessions).

(** The integers nearest to [100 * done / total]: [r] is one of them when
    it is at most one half away. *)
Definition nearestPercent (done total : nat) (r : Z) : bool :=
  2 * Z.abs (Z.of_nat total * r - 100 * Z.of_nat done) <=? Z.of_nat total.

(** [100 * done / total] rounded to the nearest integer, halves up. *)
Definition roundedPercent (done total : nat) : Z :=
  (2 * (100 * Z.of_nat done) + Z.of_nat total) / (2 * Z.of_nat total).

(** A check of [completionPercent] on every pair [done <= total <= bound]:
    the result lies in [0, 100], is a nearest integer to the exact
    percentage, is 100 when all are done, and is the exact percentage
    rounded half up except on the pairs listed in [ties]. *)
Definition checkPercents (bound : nat) (ties : list (nat * nat)) : bool :=
  forallb (fun total =>
    forallb (fun done =>
      let r := completionPercent done total in
      (0 <=? r) && (r <=? 100)
      && ((total =? 0)%nat || nearestPercent done total r)
      && (negb (done =? total)%nat || (total =? 0)%nat || (r =? 100))
      && ((total =? 0)%nat || (r =? roundedPercent done total)
          || existsb (fun p => (fst p =? done)%nat && (snd p =? total)%nat)
               ties))
      (seq 0 (S total)))
    (seq 0 (S bound)).

(** *** End time

    [dayjs(`2020-01-01T${start}`).add(duration, "minute").format("HH:mm")].
    A date is its time value, milliseconds since the epoch, or [None] for
    an invalid date.  [start] is read when it has the shape [dd:dd] (two
    digits, colon, two digits); other strings are outside the model. *)

Definition digitValue (c : ascii) : option Z :=
  let n := Z.of_N (N_of_ascii c) in
  if (48 <=? n) && (n <=? 57) then Some (n - 48) else None.

Definition parseClock (s : string) : option (Z * Z) :=
  match s with
  | String h1 (String h2 (String c (String m1 (String m2 EmptyString)))) =>
      if Ascii.eqb c ":" then
        a <-? digitValue h1 ;;
        b <-? digitValue h2 ;;
        x <-? digitValue m1 ;;
        y <-? digitValue m2 ;;
        Some (10 * a + b, 10 * x + y)
      else None
  | _ => None
  end.

Definition MS_PER_MINUTE : Z := 60000.
Definition MS_PER_HOUR : Z := 3600000.

(** Milliseconds from 1970-01-01T00:00 to 2020-01-01T00:00 on one clock. *)
Definition MS_TO_2020 : Z := 1577836800000.

(** The largest time value of a [Date]. *)
Definition MAX_TIME_VALUE : Z := 8640000000000000.

Definition TimeClip (t : Z) : option Z :=
  if Z.abs t <=? MAX_TIME_VALUE then Some t else None.

Definition digitChar (d : Z) : ascii := ascii_of_N (Z.to_N (48 + d)).

(** [String(n).padStart(2, "0")] for [0 <= n < 100]. *)
Definition pad2 (n : Z) : string :=
  String (digitChar (n / 10)) (String (digitChar (n mod 10)) EmptyString).

(** The string [HH:MM] of an hour and a minute. *)
Definition clock (h m : Z) : string := pad2 h ++ ":" ++ pad2 m.

(** The local time value of [new Date(2020, 0, 1, h, m)]. *)
Definition startLocal (h m : Z) : Z :=
  MS_TO_2020 + (h * 60 + m) * MS_PER_MINUTE.

Section EndTime.
(** [LocalTZA(t, isUTC)] of ECMAScript: the offset of local time from UTC in
    milliseconds, at the UTC instant [t] when [isUTC] and at the local time
    [t] otherwise. *)
Variable LocalTZA : Z -> bool -> Z.

(** [new Date(2020, 0, 1, h, m)]: the local time converted to UTC. *)
Definition localDate (h m : Z) : option Z :=
  TimeClip (startLocal h m - LocalTZA (startLocal h m) false).

(** [.add(n, "minute")]: a new date from the time value plus [n] minutes. *)
Definition addMinutes (d : option Z) (n : Z) : option Z :=
  t <-? d ;; TimeClip (t + n * MS_PER_MINUTE).

(** [.format("HH:mm")]: the local hour and minute, two digits each. *)
Definition formatHHmm (d : option Z) : string :=
  match d with
  | None => "Invalid Date"
  | Some t =>
      let l := t + LocalTZA t true in
      clock ((l / MS_PER_HOUR) mod 24) ((l / MS_PER_MINUTE) mod 60)
  end.

Definition getEndTime (start : string) (duration : Z) : option string :=
  match parseClock start with
  | Some (h, m) => Some (formatHHmm (addMinutes (localDate h m) duration))
  | None => None
  end.

(** The instant [duration] minutes after the start. *)
Definition endInstant (h m duration : Z) : Z :=
  startLocal h m - LocalTZA (startLocal h m) false + duration * MS_PER_MINUTE.

(** Local time is as far from UTC at the end as at the start (no
    daylight-saving change in between), and within a day of UTC. *)
Definition steadyOffset (h m duration : Z) : Prop :=
  Z.abs (LocalTZA (startLocal h m) false) <= 86400000 /\
  LocalTZA (endInstant h m duration) true = LocalTZA (startLocal h m) false.
End EndTime.

(** Two environments: UTC, and New York in 2020 (UTC-5, and UTC-4 from
    2020-03-08T07:00Z, that is from 02:00 local time). *)
Definition utcZone : Z -> bool -> Z := fun _ _ => 0.

Definition newYork2020 : Z -> bool -> Z :=
  fun t isUTC =>
    if t <? (if isUTC then 1583650800000 else 1583632800000)
    then -18000000 else -14400000.

(** ** The component [Page] as a state machine

    The component state ([sessions], [draft], [editingId]) together with
    the content of the storage slot and the random source. *)

Record AppState := mkAppState {
  sessions : list Session;
  draft : Draft;
  editingId : option string;
  slot : option string;
  entropy : Entropy
}.

(** [handleChange(key, value)]: one constructor per key. *)
Inductive DraftChange :=
| ChangeName (v : string)
| ChangeFocus (v : TrainingFocus)
| ChangeIntensity (v : Intensity)
| ChangeDay (v : DayKey)
| ChangeStart (v : string)
| ChangeDuration (v : Z)
| ChangeLocation (v : string)
| ChangeNotes (v : string)
| ChangeCompleted (v : bool).

Definition applyChange (c : DraftChange) (d : Draft) : Draft :=
  match d with
  | mkDraft n f i dy s m l o b =>
      match c with
      | ChangeName v => mkDraft v f i dy s m l o b
      | ChangeFocus v => mkDraft n v i dy s m l o b
      | ChangeIntensity v => mkDraft n f v dy s m l o b
      | ChangeDay v => mkDraft n f i v s m l o b
      | ChangeStart v => mkDraft n f i dy v m l o b
      | ChangeDuration v => mkDraft n f i dy s v l o b
      | ChangeLocation v => mkDraft n f i dy s m v o b
      | ChangeNotes v => mkDraft n f i dy s m l v b
      | ChangeCompleted v => mkDraft n f i dy s m l o v
      end
  end.

Inductive Action :=
| Mount
| HandleChange (change : DraftChange)
| ResetForm
| ApplyTemplate (template : Template)
| HandleEdit (session : Session)
| HandleSubmit
| HandleDelete (target : string)
| ToggleCompleted (target : string)
| AutoBalance.

Section Page.
Variable hasWindow : bool.
Variable JSON_parse : string -> option JSON.
Variable JSON_stringify : JSON -> string.

(** [setSessions(next)] followed by the persistence effect. *)
Definition setSessions (next : list Session) (st : AppState) : AppState :=
  mkAppState next (draft st) (editingId st)
    (persistEffect hasWindow JSON_stringify next (slot st)) (entropy st).

Definition resetForm (st : AppState) : AppState :=
  mkAppState (sessions st) DEFAULT_SESSION None (slot st) (entropy st).

Definition handleChange (c : DraftChange) (st : AppState) : AppState :=
  mkAppState (sessions st) (applyChange c (draft st)) (editingId st)
    (slot st) (entropy st).

Definition handleSubmit (st : AppState) : AppState :=
  let (newId, e) :=
    match editingId st with
    | Some target => (target, entropy st)
    | None => generateId (entropy st)
    end in
  let payload := makePayload newId (draft st) in
  let next := submitSessions (editingId st) payload (sessions st) in
  resetForm
    (setSessions next
       (mkAppState (sessions st) (draft st) (editingId st) (slot st) e)).

Definition handleEdit (session : Session) (st : AppState) : AppState :=
  mkAppState (sessions st)
    (mkDraft (name session) (focus session) (intensity session)
       (day session) (start session) (duration session) (location session)
       (match notes session with Some n => n | None => EmptyString end)
       (completed session))
    (Some (id session)) (slot st) (entropy st).

Definition handleDelete (target : string) (st : AppState) : AppState :=
  let st' := setSessions (deleteSession target (sessions st)) st in
  match editingId st with
  | Some e => if String.eqb e target then resetForm st' else st'
  | None => st'
  end.

Definition toggleCompleted (target : string) (st : AppState) : AppState :=
  setSessions (toggleSession target (sessions st)) st.

Definition applyTemplate (t : Template) (st : AppState) : AppState :=
  let d := draft st in
  mkAppState (sessions st)
    (mkDraft (template_name t) (template_focus t) (template_intensity t)
       (draft_day d) (draft_start d) (template_duration t)
       (template_location t) (template_notes t) (draft_completed d))
    (editingId st) (slot st) (entropy st).

Definition autoBalance (st : AppState) : AppState :=
  let (week, e) := suggestBalancedWeek (entropy st) in
  resetForm
    (setSessions week
       (mkAppState (sessions st) (draft st) (editingId st) (slot st) e)).

(** Loading the page: the component starts from the empty collection and
    the default draft; the first effect reads the slot, the second runs on
    the still empty collection, and the persistence effect runs again once
    the loaded collection is in place.  [None] when what was loaded is not
    a collection of [Session]s (the typed state cannot hold it). *)
Definition mount (st : AppState) : option AppState :=
  let (loaded, e) := loadSessions hasWindow JSON_parse (slot st) (entropy st) in
  let init :=
    setSessions [] (mkAppState [] DEFAULT_SESSION None (slot st) e) in
  ss <-? sessionsOfJSON loaded ;; Some (setSessions ss init).

Definition step (a : Action) (st : AppState) : option AppState :=
  match a with
  | Mount => mount st
  | HandleChange c => Some (handleChange c st)
  | ResetForm => Some (resetForm st)
  | ApplyTemplate t => Some (applyTemplate t st)
  | HandleEdit s => Some (handleEdit s st)
  | HandleSubmit => Some (handleSubmit st)
  | HandleDelete target => Some (handleDelete target st)
  | ToggleCompleted target => Some (toggleCompleted target st)
  | AutoBalance => Some (autoBalance st)
  end.

Fixpoint run (actions : list Action) (st : AppState) : option AppState :=
  match actions with
  | [] => Some st
  | a :: rest => st' <-? step a st ;; run rest st'
  end.
End Page.

(** ** A JSON text codec

    A printer and a parser for the values above, in the syntax of JSON:
    the literals, integers, strings with their escapes, arrays and objects.
    A string's code units are the characters [0..255].  Numbers with a
    fraction or an exponent are outside the fragment and are rejected.  The
    codec instantiates [JSON.parse] and [JSON.stringify] where the model is
    run on sample texts. *)

Module JSONText.

Definition dquote : ascii := ascii_of_nat 34.
Definition backslash : ascii := ascii_of_nat 92.

(** *** Printing *)

Definition hexChar (n : N) : ascii :=
  if (n <? 10)%N then ascii_of_N (48 + n) else ascii_of_N (87 + n).

Definition escapeChar (c : ascii) : string :=
  let n := N_of_ascii c in
  if (n =? 34)%N then String backslash (String dquote EmptyString)
  else if (n =? 92)%N then String backslash (String backslash EmptyString)
  else if (n =? 8)%N then "\b"
  else if (n =? 9)%N then "\t"
  else if (n =? 10)%N then "\n"
  else if (n =? 12)%N then "\f"
  else if (n =? 13)%N then "\r"
  else if (n <? 32)%N then
    "\u00" ++ String (hexChar (n / 16)) (String (hexChar (n mod 16)) EmptyString)
  else String c EmptyString.

Fixpoint escape (s : string) : string :=
  match s with
  | EmptyString => EmptyString
  | String c s' => escapeChar c ++ escape s'
  end.

Definition quote (s : string) : string :=
  String dquote (escape s ++ String dquote EmptyString).

Definition printNumber (n : Z) : string :=
  NilZero.string_of_int (Z.to_int n).

Fixpoint commaJoin (l : list string) : string :=
  match l with
  | [] => EmptyString
  | x :: l' =>
      match l' with
      | [] => x
      | _ :: _ => x ++ "," ++ commaJoin l'
      end
  end.

Fixpoint stringify (v : JSON) : string :=
  match v with
  | JNull => "null"
  | JBool true => "true"
  | JBool false => "false"
  | JNum n => printNumber n
  | JStr s => quote s
  | JArr l => "[" ++ commaJoin (map stringify l) ++ "]"
  | JObj fs =>
      "{" ++ commaJoin (map (fun kv => quote (fst kv) ++ ":" ++ stringify (snd kv)) fs)
          ++ "}"
  end.

(** *** Parsing *)

Definition isWhitespace (c : ascii) : bool :=
  let n := N_of_ascii c in
  ((n =? 32) || (n =? 9) || (n =? 10) || (n =? 13))%N.

Fixpoint skipWs (s : string) : string :=
  match s with
  | String c s' => if isWhitespace c then skipWs s' else s
  | EmptyString => EmptyString
  end.

Definition hexValue (c : ascii) : option N :=
  let n := N_of_ascii c in
  if ((48 <=? n) && (n <=? 57))%N then Some (n - 48)%N
  else if ((97 <=? n) && (n <=? 102))%N then Some (n - 87)%N
  else if ((65 <=? n) && (n <=? 70))%N then Some (n - 55)%N
  else None.

Definition consChar (c : ascii) (r : option (string * string))
    : option (string * string) :=
  match r with
  | Some (t, rest) => Some (String c t, rest)
  | None => None
  end.

(** The characters of a string after its opening quote, and what follows
    the closing quote. *)
Fixpoint parseStringBody (s : string) : option (string * string) :=
  match s with
  | EmptyString => None
  | String c s1 =>
      let n := N_of_ascii c in
      if (n =? 34)%N then Some (EmptyString, s1)
      else if (n =? 92)%N then
        match s1 with
        | EmptyString => None
        | String e s2 =>
            let m := N_of_ascii e in
            if (m =? 34)%N then consChar dquote (parseStringBody s2)
            else if (m =? 92)%N then consChar backslash (parseStringBody s2)
            else if (m =? 47)%N then consChar "/" (parseStringBody s2)
            else if (m =? 98)%N then consChar (ascii_of_nat 8) (parseStringBody s2)
            else if (m =? 116)%N then consChar (ascii_of_nat 9) (parseStringBody s2)
            else if (m =? 110)%N then consChar (ascii_of_nat 10) (parseStringBody s2)
            else if (m =? 102)%N then consChar (ascii_of_nat 12) (parseStringBody s2)
            else if (m =? 114)%N then consChar (ascii_of_nat 13) (parseStringBody s2)
            else if (m =? 117)%N then
              match s2 with
              | String h1 (String h2 (String h3 (String h4 s3))) =>
                  match hexValue h1, hexValue h2, hexValue h3, hexValue h4 with
                  | Some a, Some b, Some x, Some y =>
                      let code := (((a * 16 + b) * 16 + x) * 16 + y)%N in
                      if (code <? 256)%N
                      then consChar (ascii_of_N code) (parseStringBody s3)
                      else None
                  | _, _, _, _ => None
                  end
              | _ => None
              end
            else None
        end
      else if (n <? 32)%N then None
      else consChar c (parseStringBody s1)
  end.

Definition isDigit (c : ascii) : bool :=
  let n := N_of_ascii c in ((48 <=? n) && (n <=? 57))%N.

Fixpoint takeDigits (s : string) : string * string :=
  match s with
  | String c s' =>
      if isDigit c then let (d, r) := takeDigits s' in (String c d, r)
      else (EmptyString, s)
  | EmptyString => (EmptyString, EmptyString)
  end.

Definition startsFraction (s : string) : bool :=
  match s with
  | String c _ =>
      let n := N_of_ascii c in ((n =? 46) || (n =? 101) || (n =? 69))%N
  | EmptyString => false
  end.

(** An integer: an optional minus sign and digits without a leading
    zero. *)
Definition parseNumber (s : string) : option (Z * string) :=
  let (negative, s1) :=
    match s with
    | String c s' => if Ascii.eqb c "-" then (true, s') else (false, s)
    | EmptyString => (false, s)
    end in
  let (digits, rest) := takeDigits s1 in
  match NilZero.uint_of_string digits with
  | Some u =>
      if Decimal.uint_beq (Decimal.unorm u) u && negb (startsFraction rest)
      then Some (Z.of_int (if negative then Decimal.Neg u else Decimal.Pos u),
                 rest)
      else None
  | None => None
  end.

(** [s] after the characters [word], if it starts with them. *)
Fixpoint expect (word s : string) : option string :=
  match word with
  | EmptyString => Some s
  | String c word' =>
      match s with
      | String c' s' => if Ascii.eqb c c' then expect word' s' else None
      | EmptyString => None
      end
  end.

(** A later member with the same key replaces the earlier value. *)
Definition buildObject (members : list (string * JSON))
    : list (string * JSON) :=
  fold_left (fun acc kv => setField (fst kv) (snd kv) acc) members [].

Fixpoint parseValue (fuel : nat) (s : string) : option (JSON * string) :=
  match fuel with
  | O => None
  | S fuel' =>
      match skipWs s with
      | EmptyString => None
      | String c s1 =>
          let n := N_of_ascii c in
          if (n =? 110)%N then
            r <-? expect "ull" s1 ;; Some (JNull, r)
          else if (n =? 116)%N then
            r <-? expect "rue" s1 ;; Some (JBool true, r)
          else if (n =? 102)%N then
            r <-? expect "alse" s1 ;; Some (JBool false, r)
          else if (n =? 34)%N then
            match parseStringBody s1 with
            | Some (t, r) => Some (JStr t, r)
            | None => None
            end
          else if (n =? 91)%N then
            match skipWs s1 with
            | EmptyString => None
            | String c2 r2 =>
                if (N_of_ascii c2 =? 93)%N then Some (JArr [], r2)
                else
                  match parseElements fuel' s1 with
                  | Some (vs, r) => Some (JArr vs, r)
                  | None => None
                  end
            end
          else if (n =? 123)%N then
            match skipWs s1 with
            | EmptyString => None
            | String c2 r2 =>
                if (N_of_ascii c2 =? 125)%N then Some (JObj [], r2)
                else
                  match parseMembers fuel' s1 with
                  | Some (ms, r) => Some (JObj (buildObject ms), r)
                  | None => None
                  end
            end
          else
            match parseNumber (String c s1) with
            | Some (z, r) => Some (JNum z, r)
            | None => None
            end
      end
  end
with parseElements (fuel : nat) (s : string)
    : option (list JSON * string) :=
  match fuel with
  | O => None
  | S fuel' =>
      match parseValue fuel' s with
      | None => None
      | Some (v, r) =>
          match skipWs r with
          | EmptyString => None
          | String c r1 =>
              if (N_of_ascii c =? 44)%N then
                match parseElements fuel' r1 with
                | Some (vs, r2) => Some (v :: vs, r2)
                | None => None
                end
              else if (N_of_ascii c =? 93)%N then Some ([v], r1)
              else None
          end
      end
  end
with parseMembers (fuel : nat) (s : string)
    : option (list (string * JSON) * string) :=
  match fuel with
  | O => None
  | S fuel' =>
      match skipWs s with
      | EmptyString => None
      | String c s1 =>
          if (N_of_ascii c =? 34)%N then
            match parseStringBody s1 with
            | None => None
            | Some (k, r) =>
                match skipWs r with
                | EmptyString => None
                | String c2 r2 =>
                    if (N_of_ascii c2 =? 58)%N then
                      match parseValue fuel' r2 with
                      | None => None
                      | Some (v, r3) =>
                          match skipWs r3 with
                          | EmptyString => None
                          | String c3 r4 =>
                              if (N_of_ascii c3 =? 44)%N then
                                match parseMembers fuel' r4 with
                                | Some (ms, r5) => Some ((k, v) :: ms, r5)
                                | None => None
                                end
                              else if (N_of_ascii c3 =? 125)%N
                              then Some ([(k, v)], r4)
                              else None
                          end
                      end
                    else None
                end
            end
          else None
      end
  end.

Definition parse (s : string) : option JSON :=
  match parseValue (S (String.length s)) s with
  | Some (v, r) =>
      match skipWs r with
      | EmptyString => Some v
      | String _ _ => None
      end
  | None => None
  end.

(** A JSON text written with apostrophes in place of quotation marks. *)
Fixpoint text (s : string) : string :=
  match s with
  | EmptyString => EmptyString
  | String c s' =>
      String (if (N_of_ascii c =? 39)%N then dquote else c) (text s')
  end.

End JSONText.

(** Whether a number may end in front of [rest]: [rest] does not go on
    with a digit, a fraction or an exponent. *)
Definition numberEnds (rest : string) : bool :=
  match rest with
  | String c _ => negb (JSONText.isDigit c) && negb (JSONText.startsFraction rest)
  | EmptyString => true
  end.

(** The characters a printed value can start with. *)
Definition valueStart (c : ascii) : bool :=
  let n := N_of_ascii c in
  ((n =? 110) || (n =? 116) || (n =? 102) || (n =? 34) || (n =? 91)
   || (n =? 123) || (n =? 45) || JSONText.isDigit c)%N.

(** The text of one member of an object. *)
Definition memberText (kv : string * JSON) : string :=
  JSONText.quote (fst kv) ++ ":" ++ JSONText.stringify (snd kv).

Definition sizeSum (l : list JSON) : nat :=
  list_sum (map (fun e => S (size e)) l).

(** ** Statements about loading and the store *)

(** What [loadSessions] falls back to: the seeded week as runtime objects. *)
Definition defaultWeek : Gen (list JSON) :=
  ws <- suggestBalancedWeek ;; ret (map Session_toJSON ws).

(** [r] is the element [x] of the parsed array after [loadSessions]: an
    object with the properties of [x], except that [id] is [newId] when [x]
    has none (or [null]) and [completed] is [Boolean(x.completed)]. *)
Definition normalisedAs (x : JSON) (newId : string) (r : JSON) : Prop :=
  exists fs,
    r = JObj fs /\
    getField "id" fs =
      Some (match getProp x "id" with
            | None | Some JNull => JStr newId
            | Some v => v
            end) /\
    getField "completed" fs =
      Some (JBool (toBoolean (getProp x "completed"))) /\
    forall k, k <> "id" -> k <> "completed" ->
              getField k fs = getField k (spreadProps x).

(** The slot is clear or holds the serialisation of a sorted collection, as
    it does after every write of [Page]. *)
Definition slotHoldsSorted (JSON_stringify : JSON -> string)
    (slot : option string) : Prop :=
  match slot with
  | None => True
  | Some raw =>
      exists S, sortedByDayStart S /\
                raw = JSON_stringify (JArr (map Session_toJSON S))
  end.

(** The component before its first render, over an empty storage. *)
Definition initialState (e : Entropy) : AppState :=
  mkAppState [] DEFAULT_SESSION None None e.

(** ** Sample data *)

(** A random source that yields [id-0], [id-1], ... *)
Definition countingEntropy : Entropy :=
  mkEntropy (fun n => "id-" ++ indexKey n) 0.

(** [total] sessions with distinct ids, the first [done] of them
    completed. *)
Definition sampleCollection (done total : nat) : list Session :=
  map (fun k =>
         mkSession (indexKey k) "Session" Strength Medium Monday "07:00" 60
           "Main Floor" (Some EmptyString) (k <? done)%nat)
      (seq 0 total).

Definition sampleTuesday : Session :=
  mkSession "a" "Tempo Run" Conditioning High Tuesday "07:00" 50 "Track"
    (Some EmptyString) false.

Definition sampleMonday : Session :=
  mkSession "b" "Mobility Flow" Mobility Low Monday "06:30" 40 "Studio B"
    (Some EmptyString) true.

(** A collection whose durations pass [2^53]: one session of [2^53]
    minutes, then two of one minute. *)
Definition sampleLong : list Session :=
  [ mkSession "c" "Long Haul" Strength High Wednesday "08:00"
      9007199254740992 "Main Floor" (Some EmptyString) false;
    mkSession "d" "Stretch" Mobility Low Thursday "08:00" 1 "Studio B"
      (Some EmptyString) false;
    mkSession "e" "Stretch" Mobility Low Friday "08:00" 1 "Studio B"
      (Some EmptyString) false ].

(** A session with its [id] replaced. *)
Definition setId (newId : string) (s : Session) : Session :=
  mkSession newId (name s) (focus s) (intensity s) (day s) (start s)
    (duration s) (location s) (notes s) (completed s).

(** ** Further parts of the page *)

(** The decimal digits of a whole number, with a minus sign when
    negative. *)
Definition decimalDigits (n : Z) : string :=
  NilZero.string_of_int (Z.to_int n).

(** [String(x)], as a template literal applies it.  A whole number up to
    [2^53] in magnitude is printed as its decimal digits.  [None] stands for
    the numbers whose text this model does not give: fractions, and
    magnitudes above [2^53], which JavaScript prints as the shortest
    digits that read back as the same number (and in exponent notation from
    10^21). *)
Definition Number_toString (x : float) : option string :=
  match Prim2SF x with
  | S754_nan => Some "NaN"
  | S754_infinity s => Some (if s then "-Infinity" else "Infinity")
  | _ =>
      match integerOf x with
      | Some z =>
          if Z.abs z <=? 2 ^ 53 then Some (decimalDigits z) else None
      | None => None
      end
  end.

(** [Math.floor(x)]: a number with a negative exponent is below [2^53] in
    magnitude, and so is its integer part. *)
Definition Math_floor (x : float) : float :=
  match Prim2SF x with
  | S754_finite s m e =>
      if 0 <=? e then x
      else numberOfZ ((if s then Z.neg m else Z.pos m) / 2 ^ (- e))
  | _ => x
  end.

(** [x % d] for a positive whole number [d]: the exact remainder of the
    division that truncates, with the sign of [x].  With
    [k = max 0 (-e)], the magnitude of [x] is [m * 2^(e+k) / 2^k] and the
    remainder is [r / 2^k]. *)
Definition Number_remainder (x : float) (d : Z) : float :=
  match Prim2SF x with
  | S754_finite s m e =>
      let k := Z.max 0 (- e) in
      let r := (Z.pos m * 2 ^ (e + k)) mod (d * 2 ^ k) in
      let v := SF2Prim (binary_normalize prec emax r (- k) false) in
      if s then (- v)%float else v
  | S754_zero _ => x
  | _ => nan
  end.

(** [formatDuration(minutes)].  The quotient [minutes / 60] is that of
    binary64. *)
Definition formatDuration (minutes : float) : option string :=
  if (minutes <? 60)%float
  then
    t <-? Number_toString minutes ;;
    Some (t ++ " min")
  else
    let hrs := Math_floor (minutes / 60) in
    let mins := Number_remainder minutes 60 in
    if (mins =? 0)%float
    then
      h <-? Number_toString hrs ;;
      Some (h ++ " hr" ++ (if (1 <? hrs)%float then "s" else EmptyString))
    else
      h <-? Number_toString hrs ;;
      m <-? Number_toString mins ;;
      Some (h ++ "h " ++ m ++ "m").

(** The text of a whole number of minutes in exact arithmetic: what
    [formatDuration] is meant to show. *)
Definition durationText (minutes : Z) : string :=
  if minutes <? 60 then decimalDigits minutes ++ " min"
  else
    let hrs := minutes / 60 in
    let mins := minutes mod 60 in
    if mins =? 0
    then decimalDigits hrs ++ " hr" ++ (if 1 <? hrs then "s" else EmptyString)
    else decimalDigits hrs ++ "h " ++ decimalDigits mins ++ "m".

(** Reading a formatted duration back, to tell formatted durations
    apart. *)
Definition readDuration (s : string) : option Z :=
  match JSONText.parseNumber s with
  | Some (a, rest) =>
      if String.eqb rest " min" then Some a
      else if String.eqb rest " hr" || String.eqb rest " hrs"
      then Some (a * 60)
      else
        match rest with
        | String c1 (String c2 r) =>
            if Ascii.eqb c1 "h" && Ascii.eqb c2 " " then
              match JSONText.parseNumber r with
              | Some (b, unit) =>
                  if String.eqb unit "m" then Some (a * 60 + b) else None
              | None => None
              end
            else None
        | _ => None
        end
  | None => None
  end.

(** The totals shown in the column headers of the weekly schedule:
    [daySessions.reduce((sum, session) => sum + session.duration, 0)] for
    each group of [byDay]. *)
Definition dayTotals (sessions : list Session) : list float :=
  map (fun g => sumDuration (group_sessions g)) (byDay sessions).

(** Two sessions in the same slot of the week: same day, same start. *)
Definition sameSlot (a b : Session) : bool :=
  DayKey_eqb (day a) (day b) && String.eqb (start a) (start b).

(** In the browser, the slot holds what the persistence effect leaves for
    the collection in memory. *)
Definition mirrored (JSON_stringify : JSON -> string) (st : AppState)
    : Prop :=
  slot st = persistEffect true JSON_stringify (sessions st) None.

(** The session being edited, if any, is in the collection. *)
Definition editingPresent (st : AppState) : Prop :=
  forall target, editingId st = Some target ->
    exists s, In s (sessions st) /\ id s = target.

(** What the rendered page offers: the edit, toggle and delete controls of
    the sessions on display, and the buttons of the catalogued templates. *)
Definition Enabled (a : Action) (st : AppState) : Prop :=
  match a with
  | HandleEdit s => In s (sessions st)
  | HandleDelete target | ToggleCompleted target =>
      exists s, In s (sessions st) /\ id s = target
  | ApplyTemplate t => In t SESSION_TEMPLATES
  | Mount | HandleChange _ | ResetForm | HandleSubmit | AutoBalance => True
  end.

(** A run of the page in which every action is one the page offers. *)
Inductive Trace (hasWindow : bool) (JSON_parse : string -> option JSON)
    (JSON_stringify : JSON -> string)
    : AppState -> list Action -> AppState -> Prop :=
| Trace_done : forall st, Trace hasWindow JSON_parse JSON_stringify st [] st
| Trace_step : forall st a st1 rest st2,
    Enabled a st ->
    step hasWindow JSON_parse JSON_stringify a st = Some st1 ->
    Trace hasWindow JSON_parse JSON_stringify st1 rest st2 ->
    Trace hasWindow JSON_parse JSON_stringify st (a :: rest) st2.

(** An element as [loadSessions] hands it out: an object whose [id] is set
    and not [null] and whose [completed] is a boolean. *)
Definition normalised (r : JSON) : Prop :=
  exists fs v b,
    r = JObj fs /\ getField "id" fs = Some v /\ v <> JNull /\
    getField "completed" fs = Some (JBool b).

(** Every id in the collection is one the random source has yielded. *)
Definition idsDrawn (st : AppState) : Prop :=
  Forall (fun i => exists k, (k < drawn (entropy st))%nat /\
                             i = fresh (entropy st) k)
    (map id (sessions st)).

(** The state of a page whose ids all come from [source]: they are
    pairwise distinct, the session being edited is in the collection, and
    the slot follows the collection. *)
Definition idsInvariant (source : nat -> string)
    (JSON_stringify : JSON -> string) (st : AppState) : Prop :=
  fresh (entropy st) = source /\
  NoDup (map id (sessions st)) /\
  idsDrawn st /\
  editingPresent st /\
  mirrored JSON_stringify st.

(** * Properties *)

(** ** Order on strings and sessions *)

Lemma string_compare_refl (s : string) : String.compare s s = Eq.
Proof.
  induction s as [|c s IH]; simpl; [reflexivity|].
  unfold Ascii.compare. now rewrite N.compare_refl.
Qed.

Lemma string_compare_lt_trans (a b c : string) :
  String.compare a b = Lt -> String.compare b c = Lt ->
  String.compare a c = Lt.
Proof.
  revert b c.
  induction a as [|x a IH]; intros [|y b] [|z c]; simpl; try congruence.
  unfold Ascii.compare.
  destruct (N.compare_spec (N_of_ascii x) (N_of_ascii y)) as [E1|L1|G1];
    try discriminate;
    destruct (N.compare_spec (N_of_ascii y) (N_of_ascii z)) as [E2|L2|G2];
    try discriminate; intros H1 H2.
  - rewrite E1, E2, N.compare_refl. eauto.
  - rewrite E1. now apply N.compare_lt_iff in L2 as ->.
  - rewrite <- E2. now apply N.compare_lt_iff in L1 as ->.
  - assert (L : (N_of_ascii x < N_of_ascii z)%N) by lia.
    now apply N.compare_lt_iff in L as ->.
Qed.

Lemma string_leb_refl (s : string) : String.leb s s = true.
Proof. unfold String.leb. now rewrite string_compare_refl. Qed.

Lemma string_leb_trans (a b c : string) :
  String.leb a b = true -> String.leb b c = true -> String.leb a c = true.
Proof.
  unfold String.leb.
  destruct (String.compare a b) eqn:Hab; try discriminate;
    destruct (String.compare b c) eqn:Hbc; try discriminate; intros _ _.
  - apply String.compare_eq_iff in Hab, Hbc. subst.
    now rewrite string_compare_refl.
  - apply String.compare_eq_iff in Hab. subst. now rewrite Hbc.
  - apply String.compare_eq_iff in Hbc. subst. now rewrite Hab.
  - now rewrite (string_compare_lt_trans _ _ _ Hab Hbc).
Qed.

Lemma localeCompare_le (a b : string) :
  localeCompare a b <= 0 <-> String.leb a b = true.
Proof.
  unfold localeCompare, String.leb.
  destruct (String.compare a b); split; intros; try lia; congruence.
Qed.

Lemma localeCompare_total (a b : string) :
  localeCompare a b <= 0 \/ localeCompare b a <= 0.
Proof.
  rewrite !localeCompare_le. apply String.leb_total.
Qed.

Lemma DayKey_eqb_eq (a b : DayKey) : DayKey_eqb a b = true <-> a = b.
Proof. destruct a, b; simpl; split; congruence. Qed.

Lemma TrainingFocus_eqb_eq (a b : TrainingFocus) :
  TrainingFocus_eqb a b = true <-> a = b.
Proof. destruct a, b; simpl; split; congruence. Qed.

Lemma dayIndex_inj (a b : DayKey) : dayIndex a = dayIndex b -> a = b.
Proof. destruct a, b; vm_compute; congruence. Qed.

Lemma dayIndex_range (d : DayKey) : 0 <= dayIndex d <= 6.
Proof. destruct d; vm_compute; split; congruence. Qed.

(** The comparator of [handleSubmit] puts [a] no later than [b] exactly
    when [a] has the earlier day, or the same day and a start string that
    is lexicographically no later. *)
Lemma compareSessions_le (a b : Session) :
  compareSessions a b <= 0 <-> dayStartLe a b.
Proof.
  unfold compareSessions, dayStartLe.
  destruct (DayKey_eqb (day a) (day b)) eqn:E.
  - apply DayKey_eqb_eq in E. rewrite localeCompare_le, E. split.
    + intros H. right. auto.
    + intros [H|[_ H]]; [lia | exact H].
  - assert (N : day a <> day b).
    { intros H. apply DayKey_eqb_eq in H. congruence. }
    assert (dayIndex (day a) <> dayIndex (day b)).
    { intros H. apply N, dayIndex_inj, H. }
    split.
    + intros H1. left. lia.
    + intros [H1|[H1 _]]; [lia | contradiction].
Qed.

Lemma dayStartLe_total (a b : Session) : dayStartLe a b \/ dayStartLe b a.
Proof.
  unfold dayStartLe.
  destruct (Z.lt_total (dayIndex (day a)) (dayIndex (day b))) as [H|[H|H]];
    auto.
  apply dayIndex_inj in H.
  destruct (String.leb_total (start a) (start b)); auto.
Qed.

Lemma dayStartLe_trans (a b c : Session) :
  dayStartLe a b -> dayStartLe b c -> dayStartLe a c.
Proof.
  unfold dayStartLe. intros [H1|[E1 H1]] [H2|[E2 H2]].
  - left. lia.
  - left. now rewrite <- E2.
  - left. now rewrite E1.
  - right. split; [congruence|]. eapply string_leb_trans; eauto.
Qed.

(** ** The stable sort *)

Section SortFacts.
Context {A : Type} (cmp : A -> A -> Z).

Hypothesis cmp_total : forall a b, cmp a b <= 0 \/ cmp b a <= 0.
Hypothesis cmp_trans :
  forall a b c, cmp a b <= 0 -> cmp b c <= 0 -> cmp a c <= 0.

Lemma insertSorted_perm (x : A) (l : list A) :
  Permutation (insertSorted cmp x l) (x :: l).
Proof.
  induction l as [|y l IH]; simpl; [reflexivity|].
  destruct (cmp x y <=? 0); [reflexivity|].
  rewrite IH. apply perm_swap.
Qed.

Lemma Array_sort_perm (l : list A) : Permutation (Array_sort cmp l) l.
Proof.
  induction l as [|x l IH]; simpl; [reflexivity|].
  rewrite insertSorted_perm. now apply perm_skip.
Qed.

Lemma insertSorted_sorted (x : A) (l : list A) :
  StronglySorted (fun a b => cmp a b <= 0) l -> StronglySorted (fun a b => cmp a b <= 0) (insertSorted cmp x l).
Proof.
  induction 1 as [|y l Hl IH Hy]; simpl.
  - repeat constructor.
  - destruct (Z.leb_spec (cmp x y) 0) as [Hxy|Hxy].
    + constructor; [now constructor|].
      constructor; [exact Hxy|].
      eapply Forall_impl; [|exact Hy].
      intros z Hz. eapply cmp_trans; eauto.
    + constructor; [exact IH|].
      eapply Permutation_Forall;
        [symmetry; apply insertSorted_perm|].
      constructor; [|exact Hy].
      destruct (cmp_total y x); [assumption | lia].
Qed.

Lemma Array_sort_sorted (l : list A) : StronglySorted (fun a b => cmp a b <= 0) (Array_sort cmp l).
Proof.
  induction l as [|x l IH]; simpl; [constructor|].
  now apply insertSorted_sorted.
Qed.

(** Sorting a sorted array changes nothing. *)
Lemma Array_sort_fixed (l : list A) :
  StronglySorted (fun a b => cmp a b <= 0) l -> Array_sort cmp l = l.
Proof.
  induction 1 as [|x l Hl IH Hx]; simpl; [reflexivity|].
  rewrite IH. destruct l as [|y l]; [reflexivity|]. simpl.
  inversion Hx as [|? ? Hxy _]; subst.
  destruct (Z.leb_spec (cmp x y) 0); [reflexivity | lia].
Qed.
End SortFacts.

(** Insertion walks past the elements it comes after, and stops in front
    of those it does not. *)
Lemma insertSorted_app_skip {A : Type} (cmp : A -> A -> Z) (x : A)
    (l1 l2 : list A) :
  Forall (fun y => 0 < cmp x y) l1 ->
  insertSorted cmp x (l1 ++ l2) = (l1 ++ insertSorted cmp x l2)%list.
Proof.
  induction 1 as [|y l1 Hy _ IH]; simpl; [reflexivity|].
  destruct (Z.leb_spec (cmp x y) 0); [lia|]. now rewrite IH.
Qed.

Lemma insertSorted_app_stop {A : Type} (cmp : A -> A -> Z) (x : A)
    (l1 l2 : list A) :
  Forall (fun y => cmp x y <= 0) l2 ->
  insertSorted cmp x (l1 ++ l2) = (insertSorted cmp x l1 ++ l2)%list.
Proof.
  intros H. induction l1 as [|y l1 IH]; simpl.
  - destruct H as [|z l2 Hz _]; simpl; [reflexivity|].
    destruct (Z.leb_spec (cmp x z) 0); [reflexivity | lia].
  - destruct (cmp x y <=? 0); [reflexivity|]. now rewrite IH.
Qed.

Lemma StronglySorted_map_same {A : Type} (R : A -> A -> Prop) (f : A -> A)
    (l : list A) :
  (forall a b, R a b -> R (f a) (f b)) ->
  StronglySorted R l -> StronglySorted R (map f l).
Proof.
  intros Hf. induction 1 as [|x l Hl IH Hx]; simpl; constructor; auto.
  rewrite Forall_map. eapply Forall_impl; [|exact Hx]. auto.
Qed.

Lemma StronglySorted_filter {A : Type} (R : A -> A -> Prop) (p : A -> bool)
    (l : list A) :
  StronglySorted R l -> StronglySorted R (filter p l).
Proof.
  induction 1 as [|x l Hl IH Hx]; simpl; [constructor|].
  destruct (p x); [|exact IH].
  constructor; [exact IH|].
  rewrite Forall_forall in *. intros y Hy.
  apply filter_In in Hy. apply Hx, Hy.
Qed.

Lemma StronglySorted_impl {A : Type} (R R' : A -> A -> Prop) (l : list A) :
  (forall a b, R a b -> R' a b) ->
  StronglySorted R l -> StronglySorted R' l.
Proof.
  intros HR. induction 1 as [|x l Hl IH Hx]; constructor; auto.
  eapply Forall_impl; [|exact Hx]. auto.
Qed.

Lemma sortSessions_sorted (l : list Session) :
  sortedByDayStart (sortSessions l).
Proof.
  unfold sortedByDayStart, sortSessions.
  eapply StronglySorted_impl; [|apply (Array_sort_sorted compareSessions)].
  - intros a b. apply compareSessions_le.
  - intros a b. rewrite !compareSessions_le. apply dayStartLe_total.
  - intros a b c. rewrite !compareSessions_le. apply dayStartLe_trans.
Qed.

Lemma sortSessions_fixed (l : list Session) :
  sortedByDayStart l -> sortSessions l = l.
Proof.
  intros H. apply Array_sort_fixed.
  eapply StronglySorted_impl; [|exact H].
  intros a b. apply compareSessions_le.
Qed.

Lemma sortSessions_perm (l : list Session) : Permutation (sortSessions l) l.
Proof. apply Array_sort_perm. Qed.

(** ** Grouping by day *)

Lemma dayBucket_cons (d : DayKey) (x : Session) (l : list Session) :
  dayBucket d (x :: l) =
  if DayKey_eqb (day x) d then insertSorted compareStart x (dayBucket d l)
  else dayBucket d l.
Proof. unfold dayBucket. simpl. now destruct (DayKey_eqb (day x) d). Qed.

Lemma dayBucket_In (d : DayKey) (l : list Session) (s : Session) :
  In s (dayBucket d l) <-> In s l /\ day s = d.
Proof.
  unfold dayBucket. split; intros H.
  - eapply Permutation_in in H; [|apply Array_sort_perm].
    apply filter_In in H as [H1 H2]. now apply DayKey_eqb_eq in H2.
  - eapply Permutation_in; [symmetry; apply Array_sort_perm|].
    apply filter_In. split; [tauto|]. now apply DayKey_eqb_eq.
Qed.

Lemma dayBucket_sorted (d : DayKey) (l : list Session) :
  sortedByStart (dayBucket d l).
Proof.
  unfold sortedByStart, dayBucket.
  eapply StronglySorted_impl; [|apply (Array_sort_sorted compareStart)].
  - intros a b. apply localeCompare_le.
  - intros a b. apply localeCompare_total.
  - intros a b c. unfold compareStart. rewrite !localeCompare_le.
    apply string_leb_trans.
Qed.

Lemma insertSorted_same_day (x : Session) (l : list Session) :
  Forall (fun y => day y = day x) l ->
  insertSorted compareSessions x l = insertSorted compareStart x l.
Proof.
  induction 1 as [|y l Hy _ IH]; simpl; [reflexivity|].
  rewrite IH. unfold compareSessions at 1.
  assert (E : DayKey_eqb (day x) (day y) = true)
    by now apply DayKey_eqb_eq.
  now rewrite E.
Qed.

Lemma compareSessions_earlier (x y : Session) :
  dayIndex (day x) < dayIndex (day y) -> compareSessions x y < 0.
Proof.
  intros H. unfold compareSessions.
  destruct (DayKey_eqb (day x) (day y)) eqn:E; [|lia].
  apply DayKey_eqb_eq in E. rewrite E in H. lia.
Qed.

Lemma compareSessions_later (x y : Session) :
  dayIndex (day y) < dayIndex (day x) -> 0 < compareSessions x y.
Proof.
  intros H. unfold compareSessions.
  destruct (DayKey_eqb (day x) (day y)) eqn:E; [|lia].
  apply DayKey_eqb_eq in E. rewrite E in H. lia.
Qed.

Lemma buckets_days (ds : list DayKey) (l : list Session) :
  Forall (fun y => In (day y) ds) (List.concat (map (fun d => dayBucket d l) ds)).
Proof.
  rewrite Forall_forall. intros y Hy.
  apply in_concat in Hy as (b & Hb & Hy).
  apply in_map_iff in Hb as (d & <- & Hd).
  apply dayBucket_In in Hy as [_ ->]. exact Hd.
Qed.

(** Adding a session to the input inserts it into the concatenation of the
    buckets of any increasing run of days that contains its day. *)
Lemma buckets_cons (x : Session) (l : list Session) (ds : list DayKey) :
  StronglySorted (fun a b => dayIndex a < dayIndex b) ds ->
  List.concat (map (fun d => dayBucket d (x :: l)) ds) =
  if existsb (DayKey_eqb (day x)) ds
  then insertSorted compareSessions x
         (List.concat (map (fun d => dayBucket d l) ds))
  else List.concat (map (fun d => dayBucket d l) ds).
Proof.
  induction 1 as [|d ds Hds IH Hd]; simpl; [reflexivity|].
  rewrite dayBucket_cons, IH.
  pose proof (buckets_days ds l) as Hrest.
  destruct (DayKey_eqb (day x) d) eqn:E; simpl.
  - apply DayKey_eqb_eq in E. subst d.
    assert (N : existsb (DayKey_eqb (day x)) ds = false).
    { apply not_true_is_false. intros H.
      apply existsb_exists in H as (d' & Hin & Heq).
      apply DayKey_eqb_eq in Heq. subst d'.
      rewrite Forall_forall in Hd. specialize (Hd _ Hin). lia. }
    rewrite N, insertSorted_app_stop.
    + f_equal. symmetry. apply insertSorted_same_day.
      rewrite Forall_forall. intros y Hy. now apply dayBucket_In in Hy.
    + eapply Forall_impl; [|exact Hrest]. intros y Hy. simpl in Hy.
      rewrite Forall_forall in Hd. specialize (Hd _ Hy).
      apply Z.lt_le_incl. now apply compareSessions_earlier.
  - destruct (existsb (DayKey_eqb (day x)) ds) eqn:X; [|reflexivity].
    rewrite insertSorted_app_skip; [reflexivity|].
    apply existsb_exists in X as (d' & Hin & Heq).
    apply DayKey_eqb_eq in Heq. subst d'.
    rewrite Forall_forall in Hd. specialize (Hd _ Hin).
    rewrite Forall_forall. intros y Hy.
    apply dayBucket_In in Hy as [_ Hy].
    apply compareSessions_later. now rewrite Hy.
Qed.

Lemma DAYS_increasing :
  StronglySorted (fun a b => dayIndex a < dayIndex b) DAYS.
Proof. repeat constructor; vm_compute; reflexivity. Qed.

Lemma DAYS_complete (d : DayKey) : existsb (DayKey_eqb d) DAYS = true.
Proof. now destruct d. Qed.

Lemma buckets_concat (l : list Session) :
  List.concat (map (fun d => dayBucket d l) DAYS) = sortSessions l.
Proof.
  induction l as [|x l IH]; [reflexivity|].
  rewrite (buckets_cons x l DAYS DAYS_increasing), DAYS_complete, IH.
  reflexivity.
Qed.

(** C5.  [byDay] returns seven groups, one per weekday from Monday to
    Sunday; each group holds exactly the sessions of its day, sorted by
    start string; every session of the input lies in exactly one group; and
    the groups concatenated in order are the input sorted by
    (day, start), the order [handleSubmit] establishes. *)
Theorem byDay_partitions_and_sorts (sessions : list Session) :
  map group_day (byDay sessions) = DAYS /\
  List.length (byDay sessions) = 7%nat /\
  (forall g, In g (byDay sessions) ->
     sortedByStart (group_sessions g) /\
     forall s, In s (group_sessions g) <->
               In s sessions /\ day s = group_day g) /\
  (forall s, In s sessions ->
     exists g, In g (byDay sessions) /\ In s (group_sessions g) /\
       forall g', In g' (byDay sessions) -> In s (group_sessions g') ->
                  g' = g) /\
  List.concat (map group_sessions (byDay sessions)) = sortSessions sessions /\
  Permutation (List.concat (map group_sessions (byDay sessions))) sessions /\
  sortedByDayStart (List.concat (map group_sessions (byDay sessions))).
Proof.
  assert (C : List.concat (map group_sessions (byDay sessions)) =
              sortSessions sessions).
  { unfold byDay. rewrite map_map. simpl. apply buckets_concat. }
  assert (G : forall g, In g (byDay sessions) ->
                g = mkDayGroup (group_day g)
                      (dayBucket (group_day g) sessions)).
  { intros g Hg. apply in_map_iff in Hg as (d & <- & _). reflexivity. }
  split; [|split; [|split; [|split; [|split; [|split]]]]].
  - reflexivity.
  - reflexivity.
  - intros g Hg. rewrite (G g Hg). simpl. split.
    + apply dayBucket_sorted.
    + intros s. apply dayBucket_In.
  - intros s Hs. exists (mkDayGroup (day s) (dayBucket (day s) sessions)).
    split; [|split].
    + apply in_map_iff. exists (day s). split; [reflexivity|].
      destruct (day s); simpl; tauto.
    + simpl. apply dayBucket_In. auto.
    + intros g' Hg' Hin. rewrite (G g' Hg') in Hin |- *. simpl in *.
      apply dayBucket_In in Hin as [_ ->]. reflexivity.
  - exact C.
  - rewrite C. apply sortSessions_perm.
  - rewrite C. apply sortSessions_sorted.
Qed.

(** ** Whole numbers in binary64

    Up to [2^53], a whole number is a binary64 number, and sums that stay
    within that range are exact. *)

Lemma digits2_pos_size (p : positive) : digits2_pos p = Pos.size p.
Proof. induction p; cbn; congruence. Qed.

Lemma digits2_pos_bounds (p : positive) :
  2 ^ (Z.pos (digits2_pos p) - 1) <= Z.pos p < 2 ^ Z.pos (digits2_pos p).
Proof.
  rewrite digits2_pos_size. split.
  - pose proof (Pos.size_le p) as H.
    assert (Z.pos (2 ^ Pos.size p) <= Z.pos p~0)%Z by exact H.
    rewrite Pos2Z.inj_pow in H0.
    replace (Z.pos (Pos.size p)) with (Z.succ (Z.pos (Pos.size p) - 1)) in H0 by lia.
    rewrite Z.pow_succ_r in H0 by lia. lia.
  - pose proof (Pos.size_gt p) as H.
    assert (Z.pos p < Z.pos (2 ^ Pos.size p))%Z by exact H.
    now rewrite Pos2Z.inj_pow in H0.
Qed.

Lemma digits2_pos_unique (p : positive) (d : Z) :
  2 ^ (d - 1) <= Z.pos p < 2 ^ d -> Z.pos (digits2_pos p) = d.
Proof.
  intros [L U]. pose proof (digits2_pos_bounds p) as [L' U'].
  set (k := Z.pos (digits2_pos p)) in *.
  assert (0 < k) by (subst k; lia).
  destruct (Z.lt_trichotomy k d) as [C|[C|C]]; [exfalso|exact C|exfalso].
  - assert (2 ^ k <= 2 ^ (d - 1)) by (apply Z.pow_le_mono_r; lia). lia.
  - assert (0 <= d \/ d < 0) as [D|D] by lia.
    + assert (2 ^ d <= 2 ^ (k - 1)) by (apply Z.pow_le_mono_r; lia). lia.
    + rewrite (Z.pow_neg_r 2 d) in U by lia. lia.
Qed.

Lemma iter_xO_pow (m : positive) (p : positive) :
  Z.pos (Pos.iter xO m p) = Z.pos m * 2 ^ Z.pos p.
Proof.
  pose proof (shift_pos_correct p m) as H. unfold shift_pos in H.
  rewrite H. rewrite Zpower_pos_nat, Zpower_nat_Z, positive_nat_Z. lia.
Qed.

Lemma iter_pos_nat {A : Type} (f : A -> A) (p : positive) (x : A) :
  iter_pos f p x = Nat.iter (Pos.to_nat p) f x.
Proof.
  revert x. induction p as [p IH|p IH|]; intros x; cbn [iter_pos].
  - rewrite !IH. rewrite Pos2Nat.inj_xI.
    replace (S (2 * Pos.to_nat p)) with (Pos.to_nat p + (Pos.to_nat p + 1))%nat by lia.
    rewrite !Nat.iter_add. reflexivity.
  - rewrite !IH. rewrite Pos2Nat.inj_xO.
    replace (2 * Pos.to_nat p)%nat with (Pos.to_nat p + Pos.to_nat p)%nat by lia.
    rewrite Nat.iter_add. reflexivity.
  - reflexivity.
Qed.

Lemma shr_exact (m : positive) (p : positive) :
  iter_pos shr_1 p (Build_shr_record (Z.pos (Pos.iter xO m p)) false false) =
  Build_shr_record (Z.pos m) false false.
Proof.
  rewrite iter_pos_nat, Pos2Nat.inj_iter.
  induction (Pos.to_nat p) as [|n IH]; [reflexivity|].
  rewrite Nat.iter_succ_r. cbn [Nat.iter shr_1 orb]. exact IH.
Qed.

(** [binary_round] keeps a value that fits. *)
Lemma binary_round_exact (s : bool) (M m' : positive) (e e' : Z) :
  e' = fexp prec emax (Z.pos (digits2_pos M) + e) ->
  e' <= emax - prec ->
  Z.pos M * 2 ^ (e - Z.min e e') = Z.pos m' * 2 ^ (e' - Z.min e e') ->
  binary_round prec emax s M e = S754_finite s m' e' /\
  valid_binary (S754_finite s m' e') = true.
Proof.
  intros He' Hmax Hval.
  pose proof (digits2_pos_bounds M) as [LM UM].
  set (d := Z.pos (digits2_pos M)) in *.
  assert (Hd' : Z.pos (digits2_pos m') + e' = d + e).
  { destruct (Z.le_ge_cases e e') as [C|C].
    - rewrite Z.min_l, Z.sub_diag, Z.mul_1_r in Hval by lia.
      enough (Z.pos (digits2_pos m') = d - (e' - e)) by lia.
      apply digits2_pos_unique.
      assert (0 < 2 ^ (e' - e)) by (apply Z.pow_pos_nonneg; lia).
      assert (d - (e' - e) <= 0 \/ 0 < d - (e' - e)) as [N|N] by lia.
      + exfalso.
        assert (2 ^ d <= 2 ^ (e' - e)) by (apply Z.pow_le_mono_r; lia).
        nia.
      + replace d with ((d - (e' - e)) + (e' - e)) in UM by lia.
        rewrite Z.pow_add_r in UM by lia.
        replace (d - 1) with ((d - (e' - e) - 1) + (e' - e)) in LM by lia.
        rewrite Z.pow_add_r in LM by lia.
        split; nia.
    - rewrite Z.min_r, Z.sub_diag, Z.mul_1_r in Hval by lia.
      enough (Z.pos (digits2_pos m') = d + (e - e')) by lia.
      apply digits2_pos_unique. rewrite <- Hval.
      replace (d + (e - e') - 1) with ((d - 1) + (e - e')) by lia.
      assert (0 < d) by (subst d; lia).
      rewrite !Z.pow_add_r by lia.
      assert (0 < 2 ^ (e - e')) by (apply Z.pow_pos_nonneg; lia).
      split; nia. }
  assert (Hshift : forall l,
    shr_fexp prec emax (Z.pos m') e' l = (shr_record_of_loc (Z.pos m') l, e')).
  { intros l. unfold shr_fexp. cbn [Zdigits2]. rewrite Hd', <- He', Z.sub_diag.
    reflexivity. }
  assert (Haux : binary_round_aux prec emax s (Z.pos m') e' loc_Exact =
                 S754_finite s m' e').
  { unfold binary_round_aux. rewrite Hshift.
    cbn [shr_record_of_loc shr_m loc_of_shr_record round_nearest_even].
    rewrite Hshift. cbn [shr_record_of_loc shr_m].
    apply Z.leb_le in Hmax. now rewrite Hmax. }
  split.
  - unfold binary_round. fold d. rewrite <- He'. unfold shl_align.
    destruct (e' - e) as [|p|p] eqn:Ep.
    + assert (Heq : e' = e) by lia. rewrite Heq in Hval, Haux |- *.
      rewrite Z.min_id, Z.sub_diag, !Z.mul_1_r in Hval.
      injection Hval as ->. exact Haux.
    + rewrite Z.min_l, Z.sub_diag, Z.mul_1_r, Ep in Hval by lia.
      rewrite <- iter_xO_pow in Hval. injection Hval as ->.
      unfold binary_round_aux at 1.
      unfold shr_fexp at 1. cbn [Zdigits2].
      assert (Z.pos (digits2_pos (Pos.iter xO m' p)) = d) as -> by reflexivity.
      rewrite <- He', Ep. cbn [shr shr_record_of_loc].
      rewrite shr_exact.
      cbn [shr_m loc_of_shr_record round_nearest_even].
      replace (e + Z.pos p) with e' by lia.
      rewrite Hshift. cbn [shr_record_of_loc shr_m].
      apply Z.leb_le in Hmax. now rewrite Hmax.
    + rewrite Z.min_r, Z.sub_diag, Z.mul_1_r in Hval by lia.
      replace (e - e') with (Z.pos p) in Hval by lia.
      rewrite <- iter_xO_pow in Hval. injection Hval as <-. exact Haux.
  - cbn [valid_binary]. unfold bounded, canonical_mantissa.
    rewrite Hd', <- He', Z.eqb_refl. cbn [andb]. now apply Z.leb_le.
Qed.

Lemma digits2_pos_log2 (p : positive) :
  Z.pos (digits2_pos p) = Z.log2 (Z.pos p) + 1.
Proof.
  apply digits2_pos_unique.
  pose proof (Z.log2_spec (Z.pos p) ltac:(lia)) as H.
  replace (Z.log2 (Z.pos p) + 1 - 1) with (Z.log2 (Z.pos p)) by lia.
  replace (Z.log2 (Z.pos p) + 1) with (Z.succ (Z.log2 (Z.pos p))) by lia.
  exact H.
Qed.

Lemma fexp_whole (d : Z) : 0 < d -> fexp prec emax d = d - 53.
Proof. intros H. unfold fexp, SpecFloat.emin, prec, emax. lia. Qed.

Lemma log2_safe (z : Z) : 0 < z <= 2 ^ 53 -> 0 <= Z.log2 z <= 53.
Proof.
  intros H. split; [apply Z.log2_nonneg|].
  replace 53 with (Z.log2 (2 ^ 53)) at 1 by (now rewrite Z.log2_pow2).
  apply Z.log2_le_mono. lia.
Qed.

Lemma SF_of_whole (z : Z) :
  0 < z <= 2 ^ 53 ->
  exists m,
    binary_normalize prec emax z 0 false =
      S754_finite false m (exponentOf z) /\
    valid_binary (S754_finite false m (exponentOf z)) = true /\
    holds m (exponentOf z) z.
Proof.
  intros Hz. pose proof (log2_safe z Hz) as HL.
  pose proof (Z.log2_spec z ltac:(lia)) as [L U].
  destruct z as [|p|p]; try lia. cbn [binary_normalize].
  unfold exponentOf, holds. set (E := Z.log2 (Z.pos p) - 52) in *.
  assert (exists m, Z.pos m * 2 ^ (E - Z.min E 0) =
                    Z.pos p * 2 ^ (0 - Z.min E 0)) as [m Hm].
  { destruct (Z.le_gt_cases E 0) as [C|C].
    - assert (0 < Z.pos p * 2 ^ (0 - E))
        by (apply Z.mul_pos_pos; [lia|apply Z.pow_pos_nonneg; lia]).
      exists (Z.to_pos (Z.pos p * 2 ^ (0 - E))).
      rewrite Z.min_l, Z.sub_diag, Z.pow_0_r, Z.mul_1_r by lia.
      now rewrite Z2Pos.id.
    - assert (E = 1) by lia.
      assert (Z.log2 (Z.pos p) = 53) as L53 by lia.
      rewrite L53 in L. assert (Z.pos p = 2 ^ 53) as -> by lia.
      exists (Z.to_pos (2 ^ 52)). rewrite H. reflexivity. }
  exists m.
  destruct (binary_round_exact false p m 0 E) as [R V].
  - rewrite Z.add_0_r, digits2_pos_log2, fexp_whole by lia. subst E. lia.
  - unfold emax, prec. lia.
  - rewrite (Z.min_comm 0 E). rewrite <- Hm. reflexivity.
  - auto.
Qed.

Lemma shl_align_fst (m : positive) (e e' : Z) :
  e' <= e -> Z.pos (fst (shl_align m e e')) = Z.pos m * 2 ^ (e - e').
Proof.
  intros H. unfold shl_align. destruct (e' - e) as [|p|p] eqn:E; try lia.
  - replace (e - e') with 0 by lia. cbn [fst]. lia.
  - cbn [fst]. rewrite iter_xO_pow. f_equal. f_equal. lia.
Qed.

Lemma holds_below (m : positive) (e z : Z) :
  e <= 0 -> holds m e z -> Z.pos m = z * 2 ^ (- e).
Proof.
  unfold holds. intros H. rewrite Z.min_l, Z.sub_diag, Z.pow_0_r by lia.
  rewrite Z.mul_1_r. now replace (0 - e) with (- e) by lia.
Qed.

Lemma SFadd_whole (a b : Z) :
  0 < a -> 0 < b -> a + b <= 2 ^ 53 ->
  SFadd prec emax (binary_normalize prec emax a 0 false)
    (binary_normalize prec emax b 0 false) =
  binary_normalize prec emax (a + b) 0 false.
Proof.
  intros Ha Hb Hab.
  destruct (SF_of_whole a ltac:(lia)) as (ma & -> & _ & Va).
  destruct (SF_of_whole b ltac:(lia)) as (mb & -> & _ & Vb).
  destruct (SF_of_whole (a + b) ltac:(lia)) as (mc & -> & _ & Vc).
  pose proof (log2_safe a ltac:(lia)) as La.
  pose proof (log2_safe b ltac:(lia)) as Lb.
  pose proof (log2_safe (a + b) ltac:(lia)) as Lc.
  assert (La' : Z.log2 a <= 52).
  { assert (Z.log2 a < 53); [|lia]. apply Z.log2_lt_pow2; lia. }
  assert (Lb' : Z.log2 b <= 52).
  { assert (Z.log2 b < 53); [|lia]. apply Z.log2_lt_pow2; lia. }
  pose proof (Z.log2_le_mono a (a + b) ltac:(lia)) as Mab.
  pose proof (Z.log2_le_mono b (a + b) ltac:(lia)) as Mbb.
  unfold exponentOf in *.
  set (Ea := Z.log2 a - 52) in *. set (Eb := Z.log2 b - 52) in *.
  set (Ec := Z.log2 (a + b) - 52) in *.
  apply holds_below in Va; [|lia]. apply holds_below in Vb; [|lia].
  cbn [SFadd cond_Zopp]. set (ez := Z.min Ea Eb).
  assert (Hez : ez <= Ea /\ ez <= Eb /\ ez <= Ec /\ ez <= 0) by lia.
  pose proof (shl_align_fst ma Ea ez ltac:(lia)) as Sa.
  pose proof (shl_align_fst mb Eb ez ltac:(lia)) as Sb.
  set (A := fst (shl_align ma Ea ez)) in *.
  set (B := fst (shl_align mb Eb ez)) in *.
  assert (SA : Z.pos A = a * 2 ^ (- ez)).
  { rewrite Sa, Va, <- Z.mul_assoc, <- Z.pow_add_r by lia.
    f_equal. f_equal. lia. }
  assert (SB : Z.pos B = b * 2 ^ (- ez)).
  { rewrite Sb, Vb, <- Z.mul_assoc, <- Z.pow_add_r by lia.
    f_equal. f_equal. lia. }
  change (Z.pos A + Z.pos B) with (Z.pos (A + B)). cbn [binary_normalize].
  assert (SC : Z.pos (A + B) = (a + b) * 2 ^ (- ez))
    by (rewrite Pos2Z.inj_add, SA, SB; ring).
  apply binary_round_exact.
  - rewrite digits2_pos_log2, SC, Z.log2_mul_pow2 by lia.
    rewrite fexp_whole by lia. subst Ec. lia.
  - unfold emax, prec. lia.
  - rewrite Z.min_l, Z.sub_diag, Z.pow_0_r, Z.mul_1_r, SC by lia.
    unfold holds in Vc.
    destruct (Z.le_gt_cases Ec 0) as [C|C].
    + rewrite Z.min_l, Z.sub_diag, Z.pow_0_r, Z.mul_1_r in Vc by lia.
      rewrite Vc, <- Z.mul_assoc, <- Z.pow_add_r by lia.
      f_equal. f_equal. lia.
    + rewrite Z.min_r in Vc by lia.
      replace (0 - 0) with 0 in Vc by lia.
      rewrite Z.pow_0_r, Z.mul_1_r, Z.sub_0_r in Vc.
      rewrite <- Vc, <- Z.mul_assoc, <- Z.pow_add_r by lia.
      reflexivity.
Qed.

Lemma Prim2SF_numberOfZ (z : Z) :
  0 <= z <= 2 ^ 53 ->
  Prim2SF (numberOfZ z) = binary_normalize prec emax z 0 false.
Proof.
  intros H. unfold numberOfZ. apply Prim2SF_SF2Prim.
  destruct (Z.eq_dec z 0) as [->|N]; [reflexivity|].
  destruct (SF_of_whole z ltac:(lia)) as (m & -> & V & _). exact V.
Qed.

Lemma numberOfZ_add (a b : Z) :
  0 <= a -> 0 <= b -> a + b <= 2 ^ 53 ->
  (numberOfZ a + numberOfZ b)%float = numberOfZ (a + b).
Proof.
  intros Ha Hb Hab. apply Prim2SF_inj.
  rewrite add_spec, !Prim2SF_numberOfZ by lia. unfold SF64add.
  destruct (Z.eq_dec a 0) as [->|Na].
  - cbn [binary_normalize Z.add].
    destruct (Z.eq_dec b 0) as [->|Nb]; [reflexivity|].
    destruct (SF_of_whole b ltac:(lia)) as (m & -> & _). reflexivity.
  - destruct (Z.eq_dec b 0) as [->|Nb].
    + rewrite Z.add_0_r.
      destruct (SF_of_whole a ltac:(lia)) as (m & -> & _). reflexivity.
    + apply SFadd_whole; lia.
Qed.

Lemma integerOf_numberOfZ (z : Z) :
  0 <= z <= 2 ^ 53 -> integerOf (numberOfZ z) = Some z.
Proof.
  intros H. unfold integerOf. rewrite Prim2SF_numberOfZ by exact H.
  destruct (Z.eq_dec z 0) as [->|N]; [reflexivity|].
  destruct (SF_of_whole z ltac:(lia)) as (m & -> & _ & V).
  unfold holds in V. destruct (Z.leb_spec 0 (exponentOf z)) as [C|C].
  - rewrite Z.min_r, Z.sub_0_r, Z.sub_diag, Z.pow_0_r, Z.mul_1_r in V by lia.
    now rewrite V.
  - rewrite Z.min_l, Z.sub_diag, Z.pow_0_r, Z.mul_1_r in V by lia.
    replace (0 - exponentOf z) with (- exponentOf z) in V by lia.
    assert (0 < 2 ^ (- exponentOf z)) by (apply Z.pow_pos_nonneg; lia).
    rewrite V, Z.mod_mul, Z.eqb_refl, Z.div_mul by lia. reflexivity.
Qed.

Lemma numberOfZ_injective (a b : Z) :
  0 <= a <= 2 ^ 53 -> 0 <= b <= 2 ^ 53 ->
  numberOfZ a = numberOfZ b -> a = b.
Proof.
  intros Ha Hb H. apply (f_equal integerOf) in H.
  rewrite !integerOf_numberOfZ in H by assumption. congruence.
Qed.

Lemma SFcompare_whole (a b : Z) :
  0 <= a <= 2 ^ 53 -> 0 <= b <= 2 ^ 53 ->
  SFcompare (Prim2SF (numberOfZ a)) (Prim2SF (numberOfZ b)) = Some (a ?= b).
Proof.
  intros Ha Hb. rewrite !Prim2SF_numberOfZ by assumption.
  destruct (Z.eq_dec a 0) as [->|Na]; destruct (Z.eq_dec b 0) as [->|Nb].
  - reflexivity.
  - destruct (SF_of_whole b ltac:(lia)) as (m & -> & _).
    cbn [binary_normalize SFcompare]. f_equal. symmetry.
    apply Z.compare_lt_iff. lia.
  - destruct (SF_of_whole a ltac:(lia)) as (m & -> & _).
    cbn [binary_normalize SFcompare]. f_equal. symmetry.
    apply Z.compare_gt_iff. lia.
  - destruct (SF_of_whole a ltac:(lia)) as (ma & -> & _ & Va).
    destruct (SF_of_whole b ltac:(lia)) as (mb & -> & _ & Vb).
    cbn [SFcompare]. f_equal. unfold exponentOf in *.
    destruct (Z.compare_spec (Z.log2 a - 52) (Z.log2 b - 52)) as [E|E|E].
    + unfold holds in Va, Vb. rewrite <- E in Vb.
      set (k := 2 ^ (Z.log2 a - 52 - Z.min (Z.log2 a - 52) 0)) in *.
      set (j := 2 ^ (0 - Z.min (Z.log2 a - 52) 0)) in *.
      assert (0 < k) by (apply Z.pow_pos_nonneg; lia).
      assert (0 < j) by (apply Z.pow_pos_nonneg; lia).
      change (Pos.compare_cont Eq ma mb) with (Z.pos ma ?= Z.pos mb).
      destruct (Z.compare_spec (Z.pos ma) (Z.pos mb)) as [C|C|C];
        symmetry; [apply Z.compare_eq_iff|apply Z.compare_lt_iff
                  |apply Z.compare_gt_iff]; nia.
    + symmetry. apply Z.compare_lt_iff.
      apply Z.log2_lt_cancel. lia.
    + symmetry. apply Z.compare_gt_iff.
      apply Z.log2_lt_cancel. lia.
Qed.

Lemma numberOfZ_ltb (a b : Z) :
  0 <= a <= 2 ^ 53 -> 0 <= b <= 2 ^ 53 ->
  (numberOfZ a <? numberOfZ b)%float = (a <? b).
Proof.
  intros Ha Hb. rewrite ltb_spec. unfold SFltb.
  rewrite SFcompare_whole by assumption. unfold Z.ltb.
  now destruct (a ?= b).
Qed.

Lemma numberOfZ_leb (a b : Z) :
  0 <= a <= 2 ^ 53 -> 0 <= b <= 2 ^ 53 ->
  (numberOfZ a <=? numberOfZ b)%float = (a <=? b).
Proof.
  intros Ha Hb. rewrite leb_spec. unfold SFleb.
  rewrite SFcompare_whole by assumption. unfold Z.leb.
  now destruct (a ?= b).
Qed.

Lemma numberOfZ_eqb (a b : Z) :
  0 <= a <= 2 ^ 53 -> 0 <= b <= 2 ^ 53 ->
  (numberOfZ a =? numberOfZ b)%float = (a =? b).
Proof.
  intros Ha Hb. rewrite eqb_spec. unfold SFeqb.
  rewrite SFcompare_whole by assumption.
  destruct (Z.eqb_spec a b) as [->|N].
  - now rewrite Z.compare_refl.
  - destruct (a ?= b) eqn:C; try reflexivity.
    apply Z.compare_eq_iff in C. contradiction.
Qed.

Lemma shr_1_pos (m : Z) (r s : bool) :
  0 < m ->
  shr_1 (Build_shr_record m r s) =
  Build_shr_record (m / 2) (Z.odd m) (r || s).
Proof.
  intros H. rewrite <- Z.div2_div.
  destruct m as [|[p|p|]|]; try lia; reflexivity.
Qed.

Lemma Zdigits2_bounds (q d : Z) :
  0 < d -> 2 ^ (d - 1) <= q < 2 ^ d -> Zdigits2 q = d.
Proof.
  intros Hd H. assert (0 < 2 ^ (d - 1)) by (apply Z.pow_pos_nonneg; lia).
  destruct q as [|p|p]; try lia. cbn [Zdigits2].
  now apply digits2_pos_unique.
Qed.

Lemma fexp_normal (k : Z) : -1021 <= k -> fexp prec emax k = k - 53.
Proof. intros H. unfold fexp, SpecFloat.emin, prec, emax. lia. Qed.

Lemma shr_fexp_by (q e n : Z) (l : SpecFloat.location) :
  0 <= n -> 2 ^ (52 + n) <= q < 2 ^ (53 + n) -> -1000 <= e ->
  shr_fexp prec emax q e l = shr (shr_record_of_loc q l) e n.
Proof.
  intros Hn Hq He. unfold shr_fexp.
  rewrite (Zdigits2_bounds q (53 + n)).
  - rewrite fexp_normal by lia. f_equal. lia.
  - lia.
  - now replace (53 + n - 1) with (52 + n) by lia.
Qed.

Lemma round_settles (Q0 e1 : Z) :
  2 ^ 52 <= Q0 <= 2 ^ 53 -> -1000 <= e1 <= 950 ->
  exists (Qf : positive) (Ef : Z),
    (let '(mrs, e2) := shr_fexp prec emax Q0 e1 loc_Exact in
     match shr_m mrs with
     | Z0 => S754_zero false
     | Z.pos m =>
         if e2 <=? emax - prec then S754_finite false m e2
         else S754_infinity false
     | Z.neg _ => S754_nan
     end) = S754_finite false Qf Ef /\
    e1 <= Ef <= e1 + 1 /\ Z.pos Qf * 2 ^ (Ef - e1) = Q0.
Proof.
  intros HQ He.
  destruct (Z.eq_dec Q0 (2 ^ 53)) as [->|N].
  - rewrite (shr_fexp_by (2 ^ 53) e1 1) by (cbn; lia).
    cbn [shr iter_pos shr_record_of_loc]. rewrite shr_1_pos by reflexivity.
    cbn [shr_m]. change (2 ^ 53 / 2) with (Z.pos (Z.to_pos (2 ^ 52))).
    cbv iota beta.
    assert ((e1 + 1 <=? emax - prec) = true) as ->
      by (apply Z.leb_le; unfold emax, prec; lia).
    exists (Z.to_pos (2 ^ 52)), (e1 + 1). split; [reflexivity|].
    split; [lia|]. replace (e1 + 1 - e1) with 1 by lia. reflexivity.
  - rewrite (shr_fexp_by Q0 e1 0) by (cbn; lia).
    cbn [shr shr_record_of_loc shr_m].
    destruct Q0 as [|p|p]; try lia.
    assert ((e1 <=? emax - prec) = true) as ->
      by (apply Z.leb_le; unfold emax, prec; lia).
    exists p, e1. split; [reflexivity|]. split; [lia|].
    rewrite Z.sub_diag. lia.
Qed.

Lemma binary_round_aux_near (q r D e : Z) :
  2 ^ 52 <= q < 2 ^ 54 -> 0 <= r < D -> Z.even D = true ->
  -1000 <= e <= 900 ->
  exists (Qf : positive) (Ef n Q0 : Z),
    binary_round_aux prec emax false q e (new_location D r) =
      S754_finite false Qf Ef /\
    0 <= n <= 1 /\ e + n <= Ef <= e + n + 1 /\
    Z.pos Qf * 2 ^ (Ef - (e + n)) = Q0 /\
    2 * Z.abs (Q0 * 2 ^ n * D - (q * D + r)) <= 2 ^ n * D.
Proof.
  intros Hq Hr HD He.
  unfold new_location. rewrite HD. unfold new_location_even.
  unfold binary_round_aux.
  destruct (Z.lt_ge_cases q (2 ^ 53)) as [C|C].
  - rewrite (shr_fexp_by q e 0) by (cbn; lia). cbn [shr].
    set (l := if r =? 0 then loc_Exact else loc_Inexact (2 * r ?= D)).
    assert (L : loc_of_shr_record (shr_record_of_loc q l) = l)
      by (destruct l as [|[]]; reflexivity).
    assert (M : shr_m (shr_record_of_loc q l) = q)
      by (destruct l as [|[]]; reflexivity).
    rewrite L, M.
    set (Q0 := round_nearest_even q l).
    assert (B : 2 ^ 52 <= Q0 <= 2 ^ 53 /\
                2 * Z.abs (Q0 * D - (q * D + r)) <= D).
    { subst Q0 l. destruct (Z.eqb_spec r 0) as [->|Nr].
      - cbn [round_nearest_even]. split; [lia|]. lia.
      - destruct (Z.compare_spec (2 * r) D) as [E|E|E];
          cbn [round_nearest_even].
        + destruct (Z.even q); split; lia.
        + split; lia.
        + split; lia. }
    destruct B as [B1 B2].
    destruct (round_settles Q0 e B1 ltac:(lia)) as (Qf & Ef & R & E1 & E2).
    exists Qf, Ef, 0, Q0. rewrite R, Z.add_0_r.
    split; [reflexivity|]. split; [lia|]. split; [lia|].
    split; [exact E2|]. change (2 ^ 0) with 1. lia.
  - rewrite (shr_fexp_by q e 1) by (cbn; lia). cbn [shr iter_pos].
    pose proof (Z.div2_odd q) as Hodd. rewrite Z.div2_div in Hodd.
    set (l := if r =? 0 then loc_Exact else loc_Inexact (2 * r ?= D)).
    assert (S1 : shr_1 (shr_record_of_loc q l) =
                 Build_shr_record (q / 2) (Z.odd q) (negb (r =? 0))).
    { subst l. destruct (r =? 0).
      - cbn [shr_record_of_loc]. now rewrite shr_1_pos by lia.
      - destruct (2 * r ?= D); cbn [shr_record_of_loc];
          now rewrite shr_1_pos by lia. }
    rewrite S1. cbn [shr_m].
    set (l1 := loc_of_shr_record
                 (Build_shr_record (q / 2) (Z.odd q) (negb (r =? 0)))).
    set (Q0 := round_nearest_even (q / 2) l1).
    assert (B : 2 ^ 52 <= Q0 <= 2 ^ 53 /\
                2 * Z.abs (Q0 * 2 * D - (q * D + r)) <= 2 * D).
    { subst Q0 l1. destruct (Z.odd q); cbn [Z.b2z] in Hodd;
        destruct (Z.eqb_spec r 0) as [->|Nr];
        cbn [negb loc_of_shr_record round_nearest_even].
      - destruct (Z.even (q / 2)); split; nia.
      - split; nia.
      - split; nia.
      - split; nia. }
    destruct B as [B1 B2].
    destruct (round_settles Q0 (e + 1) B1 ltac:(lia))
      as (Qf & Ef & R & E1 & E2).
    exists Qf, Ef, 1, Q0. rewrite R.
    split; [reflexivity|]. split; [lia|]. split; [lia|].
    split; [exact E2|]. change (2 ^ 1) with 2. lia.
Qed.

Lemma SFdiv_core_shift (m1 e1 m2 e2 : Z) (k : positive) :
  e1 - e2 -
    Z.min (fexp prec emax (Zdigits2 m1 + e1 - (Zdigits2 m2 + e2))) (e1 - e2)
  = Z.pos k ->
  SFdiv_core_binary prec emax m1 e1 m2 e2 =
  (m1 * 2 ^ Z.pos k / m2, e1 - e2 - Z.pos k,
   new_location m2 ((m1 * 2 ^ Z.pos k) mod m2)).
Proof.
  intros H. unfold SFdiv_core_binary. cbv zeta. rewrite H.
  rewrite Z.shiftl_mul_pow2 by lia. unfold Z.div, Z.modulo.
  destruct (Z.div_eucl (m1 * 2 ^ Z.pos k) m2) as [q r]. cbn [fst snd].
  f_equal. f_equal. lia.
Qed.

(** The quotient of a whole number by 60, rounded to binary64, has the
    same integer part as the exact quotient. *)
Lemma SFdiv_60 (a : Z) :
  0 < a < 2 ^ 53 ->
  exists (Qf : positive) (Ef : Z),
    SFdiv prec emax (binary_normalize prec emax a 0 false)
      (S754_finite false 8444249301319680 (-47)) =
      S754_finite false Qf Ef /\
    -60 <= Ef < 0 /\ Z.pos Qf / 2 ^ (- Ef) = a / 60.
Proof.
  intros Ha.
  destruct (SF_of_whole a ltac:(lia)) as (m & -> & _ & V).
  pose proof (log2_safe a ltac:(lia)) as L.
  assert (L' : Z.log2 a <= 52).
  { assert (Z.log2 a < 53); [|lia]. apply Z.log2_lt_pow2; lia. }
  unfold exponentOf in *. set (E := Z.log2 a - 52) in *.
  apply holds_below in V; [|lia].
  assert (Dm : Z.pos (digits2_pos m) = 53).
  { rewrite digits2_pos_log2, V, Z.log2_mul_pow2 by lia. lia. }
  pose proof (digits2_pos_bounds m) as Bm. rewrite Dm in Bm.
  cbn [SFdiv xorb].
  rewrite (SFdiv_core_shift _ _ _ _ 53).
  2:{ cbn [Zdigits2]. rewrite Dm.
      change (Z.pos (digits2_pos 8444249301319680)) with 53.
      rewrite fexp_normal by lia. lia. }
  set (D := 8444249301319680).
  set (q := Z.pos m * 2 ^ 53 / D). set (r := (Z.pos m * 2 ^ 53) mod D).
  pose proof (Z.div_mod (Z.pos m * 2 ^ 53) D ltac:(subst D; lia)) as QR.
  pose proof (Z.mod_pos_bound (Z.pos m * 2 ^ 53) D ltac:(subst D; lia)) as RB.
  fold q r in QR, RB.
  assert (Hq : 2 ^ 52 <= q < 2 ^ 54).
  { change (2 ^ 53) with 9007199254740992 in QR.
    change (2 ^ 52) with 4503599627370496 in *.
    change (2 ^ 53) with 9007199254740992 in *.
    change (2 ^ 54) with 18014398509481984.
    subst D. lia. }
  replace (E - -47 - 53) with (E - 6) by lia.
  destruct (binary_round_aux_near q r D (E - 6) Hq RB eq_refl ltac:(lia))
    as (Qf & Ef & n & Q0 & R & Hn & HE & HQ & Err).
  exists Qf, Ef. split; [exact R|]. split; [lia|].
  set (T := 2 ^ (6 - E - n)).
  assert (HT : 32 <= T).
  { subst T. change 32 with (2 ^ 5). apply Z.pow_le_mono_r; lia. }
  assert (Hdiv : Z.pos Qf / 2 ^ (- Ef) = Q0 / T).
  { rewrite <- HQ. subst T.
    replace (6 - E - n) with (- Ef + (Ef - (E - 6 + n))) by lia.
    rewrite Z.pow_add_r by lia.
    rewrite Z.div_mul_cancel_r; [reflexivity| |];
      apply Z.pow_nonzero; lia. }
  rewrite Hdiv.
  assert (HP : q * D + r = a * T * (2 ^ n * 2 ^ 47)).
  { rewrite Z.mul_comm, <- QR, V. subst T.
    rewrite <- !Z.mul_assoc. f_equal.
    rewrite <- !Z.pow_add_r by lia. f_equal. lia. }
  rewrite HP in Err.
  pose proof (Z.div_mod a 60 ltac:(lia)) as DA.
  pose proof (Z.mod_pos_bound a 60 ltac:(lia)) as RA.
  set (h := a / 60) in *. set (rho := a mod 60) in *.
  assert (HX : a * T = 60 * (h * T) + rho * T) by (rewrite DA; ring).
  assert (HY : 0 <= rho * T <= 59 * T) by nia.
  set (X := h * T) in *. set (Y := rho * T) in *. set (P := a * T) in *.
  assert (Near : X <= Q0 < X + T).
  { subst D. change (2 ^ 47) with 140737488355328 in Err.
    assert (n = 0 \/ n = 1) as [->| ->] by lia.
    - change (2 ^ 0) with 1 in Err. lia.
    - change (2 ^ 1) with 2 in Err. lia. }
  symmetry. apply Z.div_unique with (r := Q0 - X); [lia|].
  subst X. lia.
Qed.

(** ** Volume per focus *)

Lemma exactMinutes_cons (x : Session) (l : list Session) :
  exactMinutes (x :: l) = duration x + exactMinutes l.
Proof. reflexivity. Qed.

Lemma exactMinutes_app (l1 l2 : list Session) :
  exactMinutes (l1 ++ l2)%list = exactMinutes l1 + exactMinutes l2.
Proof.
  induction l1 as [|x l1 IH]; [reflexivity|].
  cbn [app]. rewrite !exactMinutes_cons. lia.
Qed.

Lemma exactMinutes_perm (l1 l2 : list Session) :
  Permutation l1 l2 -> exactMinutes l1 = exactMinutes l2.
Proof.
  induction 1; rewrite ?exactMinutes_cons; lia.
Qed.

Lemma exactMinutes_nonneg (l : list Session) :
  Forall (fun s => 0 <= duration s) l -> 0 <= exactMinutes l.
Proof.
  induction 1 as [|x l Hx _ IH]; [cbn; lia|].
  rewrite exactMinutes_cons. lia.
Qed.

Lemma filter_nonneg (p : Session -> bool) (l : list Session) :
  Forall (fun s => 0 <= duration s) l ->
  Forall (fun s => 0 <= duration s) (filter p l).
Proof.
  rewrite !Forall_forall. intros H s Hs. apply H.
  now apply filter_In in Hs.
Qed.

Lemma exactMinutes_filter_le (p q : Session -> bool) (l : list Session) :
  Forall (fun s => 0 <= duration s) l ->
  (forall s, q s = true -> p s = true) ->
  exactMinutes (filter q l) <= exactMinutes (filter p l) <= exactMinutes l.
Proof.
  intros H Hpq. induction H as [|x l Hx _ IH]; cbn [filter]; [cbn; lia|].
  destruct (q x) eqn:Q.
  - rewrite (Hpq x Q), !exactMinutes_cons. lia.
  - destruct (p x); rewrite ?exactMinutes_cons; lia.
Qed.

Lemma sumDuration_from (l : list Session) (acc : Z) :
  Forall (fun s => 0 <= duration s) l ->
  0 <= acc -> acc + exactMinutes l <= 2 ^ 53 ->
  fold_left
    (fun sum session => (sum + numberOfZ (duration session))%float)
    l (numberOfZ acc) =
  numberOfZ (acc + exactMinutes l).
Proof.
  intros H. revert acc.
  induction H as [|x l Hx Hl IH]; intros acc Hacc Hle.
  - cbn. f_equal. lia.
  - pose proof (exactMinutes_nonneg l Hl).
    rewrite exactMinutes_cons in *. cbn [fold_left].
    rewrite numberOfZ_add by lia. rewrite IH by lia. f_equal. lia.
Qed.

(** Within [2^53], the sum the code computes is the exact sum. *)
Lemma sumDuration_exact (l : list Session) :
  Forall (fun s => 0 <= duration s) l ->
  exactMinutes l <= 2 ^ 53 ->
  sumDuration l = numberOfZ (exactMinutes l).
Proof.
  intros H B. unfold sumDuration.
  change 0%float with (numberOfZ 0).
  now rewrite sumDuration_from by (assumption || lia).
Qed.

Lemma sumNumbers_from (zs : list Z) (acc : Z) :
  Forall (fun z => 0 <= z) zs ->
  0 <= acc -> acc + fold_right Z.add 0 zs <= 2 ^ 53 ->
  fold_left PrimFloat.add (map numberOfZ zs) (numberOfZ acc) =
  numberOfZ (acc + fold_right Z.add 0 zs).
Proof.
  intros H. revert acc.
  induction H as [|z zs Hz Hzs IH]; intros acc Hacc Hle.
  - cbn. f_equal. lia.
  - assert (0 <= fold_right Z.add 0 zs).
    { clear - Hzs. induction Hzs; cbn; lia. }
    cbn [map fold_left fold_right] in *.
    rewrite numberOfZ_add by lia. rewrite IH by lia. f_equal. lia.
Qed.

Lemma sumNumbers_exact (zs : list Z) :
  Forall (fun z => 0 <= z) zs ->
  fold_right Z.add 0 zs <= 2 ^ 53 ->
  sumNumbers (map numberOfZ zs) = numberOfZ (fold_right Z.add 0 zs).
Proof.
  intros H B. unfold sumNumbers.
  change 0%float with (numberOfZ 0).
  now rewrite sumNumbers_from by (assumption || lia).
Qed.

Lemma sumDuration_none (p : Session -> bool) (l : list Session) :
  (forall s, In s l -> p s = false) -> sumDuration (filter p l) = 0%float.
Proof.
  intros H. replace (filter p l) with (@nil Session); [reflexivity|].
  induction l as [|x l IH]; [reflexivity|].
  cbn [filter]. rewrite (H x (or_introl eq_refl)). apply IH.
  intros s Hs. apply H. now right.
Qed.

Lemma exactTotal_sum (sessions : list Session) :
  fold_right Z.add 0 (map (fun f => exactTotal f sessions) TRAINING_FOCI) =
  exactMinutes sessions.
Proof.
  unfold TRAINING_FOCI, exactTotal. cbn [map fold_right].
  induction sessions as [|x l IH]; [reflexivity|].
  cbn [filter]. rewrite exactMinutes_cons.
  destruct (focus x); cbn [TrainingFocus_eqb];
    rewrite ?exactMinutes_cons; lia.
Qed.

Lemma exactTotal_bounds (f : TrainingFocus) (sessions : list Session) :
  Forall (fun s => 0 <= duration s) sessions ->
  0 <= exactCompleted f sessions <= exactTotal f sessions /\
  exactTotal f sessions <= exactMinutes sessions.
Proof.
  intros H. unfold exactCompleted, exactTotal.
  pose proof (exactMinutes_filter_le
    (fun session => TrainingFocus_eqb (focus session) f)
    (fun session => TrainingFocus_eqb (focus session) f && completed session)
    sessions H) as B.
  pose proof (exactMinutes_nonneg _
    (filter_nonneg
       (fun session =>
          TrainingFocus_eqb (focus session) f && completed session)
       sessions H)).
  assert (forall s : Session,
    TrainingFocus_eqb (focus s) f && completed s = true ->
    TrainingFocus_eqb (focus s) f = true) as I
    by (intros s Hs; now apply andb_true_iff in Hs).
  specialize (B I). lia.
Qed.

Lemma focusVolume_exact (sessions : list Session) :
  Forall (fun s => 0 <= duration s) sessions ->
  exactMinutes sessions <= 2 ^ 53 ->
  map entry_total (focusVolume sessions) =
    map (fun f => numberOfZ (exactTotal f sessions)) TRAINING_FOCI /\
  map entry_completed (focusVolume sessions) =
    map (fun f => numberOfZ (exactCompleted f sessions)) TRAINING_FOCI.
Proof.
  intros H B. unfold focusVolume. rewrite !map_map. cbn [entry_total entry_completed].
  split; apply map_ext; intros f;
    pose proof (exactTotal_bounds f sessions H);
    unfold exactTotal, exactCompleted in *;
    apply sumDuration_exact; try lia; now apply filter_nonneg.
Qed.

(** C6, as stated, fails: the code adds in binary64.  With one session of
    [2^53] minutes followed by two of one minute, each of the two single
    minutes is lost in [weeklyMinutes] ([2^53 + 1] rounds back to [2^53]),
    while the total of their own category is 2: the six totals add up to
    [2^53 + 2], two more than [weeklyMinutes]. *)
Lemma focusVolume_totals_exceed_weeklyMinutes :
  Forall (fun s => 0 < duration s) sampleLong /\
  integerOf (weeklyMinutes sampleLong) = Some 9007199254740992 /\
  map (fun e => integerOf (entry_total e)) (focusVolume sampleLong) =
    [Some 9007199254740992; Some 0; Some 0; Some 2; Some 0; Some 0] /\
  integerOf (sumNumbers (map entry_total (focusVolume sampleLong))) =
    Some 9007199254740994 /\
  sumNumbers (map entry_total (focusVolume sampleLong)) <>
    weeklyMinutes sampleLong.
Proof.
  split; [repeat constructor|].
  split; [vm_compute; reflexivity|].
  split; [vm_compute; reflexivity|].
  split; [vm_compute; reflexivity|].
  intros H. apply (f_equal integerOf) in H. vm_compute in H. discriminate H.
Qed.

(** C6, amended.  [focusVolume] has one entry per focus category, in the
    order of [TRAINING_FOCI], with totals 0 for a category without sessions,
    and [weeklyMinutes] is 0 for the empty collection.  When the durations
    are non-negative whole numbers whose sum is at most [2^53], every total
    is exactly the sum of the durations of its category, [weeklyMinutes] is
    exactly the sum of all durations, and the six totals add up to
    [weeklyMinutes], in exact arithmetic and in that of the code alike. *)
Theorem focusVolume_totals_sum_to_weeklyMinutes (sessions : list Session) :
  map entry_focus (focusVolume sessions) = TRAINING_FOCI /\
  List.length (focusVolume sessions) = 6%nat /\
  (forall e, In e (focusVolume sessions) ->
     (forall s, In s sessions -> focus s <> entry_focus e) ->
     entry_total e = 0%float /\ entry_completed e = 0%float) /\
  weeklyMinutes [] = 0%float /\
  (Forall (fun s => 0 <= duration s) sessions ->
   exactMinutes sessions <= 2 ^ 53 ->
   map entry_total (focusVolume sessions) =
     map (fun f => numberOfZ (exactTotal f sessions)) TRAINING_FOCI /\
   weeklyMinutes sessions = numberOfZ (exactMinutes sessions) /\
   fold_right Z.add 0 (map (fun f => exactTotal f sessions) TRAINING_FOCI) =
     exactMinutes sessions /\
   sumNumbers (map entry_total (focusVolume sessions)) =
     weeklyMinutes sessions).
Proof.
  split; [reflexivity|]. split; [reflexivity|].
  split; [|split; [reflexivity|]].
  - intros e He Hnone.
    apply in_map_iff in He as (f & <- & _). cbn [entry_total entry_completed entry_focus] in *.
    split; apply sumDuration_none; intros s Hs.
    + apply not_true_is_false. rewrite TrainingFocus_eqb_eq.
      now apply Hnone.
    + apply andb_false_intro1, not_true_is_false.
      rewrite TrainingFocus_eqb_eq. now apply Hnone.
  - intros H B.
    destruct (focusVolume_exact sessions H B) as [T _].
    pose proof (exactTotal_sum sessions) as S.
    assert (W : weeklyMinutes sessions = numberOfZ (exactMinutes sessions))
      by (now apply sumDuration_exact).
    split; [exact T|]. split; [exact W|]. split; [exact S|].
    rewrite T, W, <- S, <- (map_map (fun f => exactTotal f sessions) numberOfZ).
    apply sumNumbers_exact.
    + rewrite Forall_map, Forall_forall. intros f _.
      pose proof (exactTotal_bounds f sessions H). lia.
    + rewrite S. exact B.
Qed.

Lemma focusVolume_totals_sum_to_weeklyMinutes_witness :
  Forall (fun s => 0 <= duration s) [sampleMonday; sampleTuesday] /\
  exactMinutes [sampleMonday; sampleTuesday] <= 2 ^ 53 /\
  map entry_total (focusVolume [sampleMonday; sampleTuesday]) =
    map (fun f => numberOfZ (exactTotal f [sampleMonday; sampleTuesday]))
      TRAINING_FOCI /\
  weeklyMinutes [sampleMonday; sampleTuesday] = numberOfZ 90 /\
  sumNumbers (map entry_total (focusVolume [sampleMonday; sampleTuesday])) =
    weeklyMinutes [sampleMonday; sampleTuesday].
Proof.
  assert (N : Forall (fun s => 0 <= duration s) [sampleMonday; sampleTuesday])
    by (repeat constructor; discriminate).
  assert (B : exactMinutes [sampleMonday; sampleTuesday] <= 2 ^ 53)
    by (vm_compute; discriminate).
  destruct (focusVolume_totals_sum_to_weeklyMinutes
              [sampleMonday; sampleTuesday]) as (_ & _ & _ & _ & E).
  destruct (E N B) as (T & W & _ & S).
  split; [exact N|]. split; [exact B|]. split; [exact T|].
  split; [exact W|exact S].
Defined.

(** ** Persistence: saving *)

(** C3.  In the browser, persisting the empty collection removes the stored
    key, whatever the slot held; persisting a non-empty collection writes
    its serialisation.  The removal is the effect's own branch:
    [saveSessions], which would write the text of the empty array, is not
    called on the empty collection. *)
Theorem persistEffect_empty_clears_slot
    (JSON_stringify : JSON -> string) (slot : option string) :
  persistEffect true JSON_stringify [] slot = None /\
  (forall x l,
     persistEffect true JSON_stringify (x :: l) slot =
     saveSessions true JSON_stringify (x :: l) slot /\
     saveSessions true JSON_stringify (x :: l) slot =
     Some (JSON_stringify (JArr (map Session_toJSON (x :: l))))) /\
  saveSessions true JSON_stringify [] slot =
    Some (JSON_stringify (JArr [])).
Proof. repeat split. Qed.

(** ** The seeded week *)

(** C4, as stated, fails: two calls in a row draw different identifiers,
    so the two weeks differ. *)
Lemma suggestBalancedWeek_twice_differs :
  let (first, e) := suggestBalancedWeek countingEntropy in
  let (second, _) := suggestBalancedWeek e in
  first <> second.
Proof. vm_compute. discriminate. Qed.

(** C4, amended.  Any two calls return the same six sessions up to their
    ids: same names, foci, intensities, days (Monday to Saturday), start
    times, durations, locations, notes and [completed = false].  The ids are
    the next six draws from the random source. *)
Theorem suggestBalancedWeek_same_up_to_ids (e1 e2 : Entropy) :
  map (setId EmptyString) (fst (suggestBalancedWeek e1)) =
  map (setId EmptyString) (fst (suggestBalancedWeek e2)) /\
  List.length (fst (suggestBalancedWeek e1)) = 6%nat /\
  map day (fst (suggestBalancedWeek e1)) = firstn 6 DAYS /\
  map start (fst (suggestBalancedWeek e1)) = baseTimes /\
  map completed (fst (suggestBalancedWeek e1)) = repeat false 6 /\
  map id (fst (suggestBalancedWeek e1)) =
    map (fun k => fresh e1 (drawn e1 + k)) (seq 0 6) /\
  snd (suggestBalancedWeek e1) = mkEntropy (fresh e1) (drawn e1 + 6).
Proof.
  destruct e1 as [f1 n1], e2 as [f2 n2].
  cbv [suggestBalancedWeek mapWithIndex seedSession bind ret generateId
       firstn SESSION_TEMPLATES fst snd fresh drawn].
  simpl.
  replace (n1 + 0)%nat with n1 by lia.
  replace (n1 + 1)%nat with (S n1) by lia.
  replace (n1 + 2)%nat with (S (S n1)) by lia.
  replace (n1 + 3)%nat with (S (S (S n1))) by lia.
  replace (n1 + 4)%nat with (S (S (S (S n1)))) by lia.
  replace (n1 + 5)%nat with (S (S (S (S (S n1))))) by lia.
  replace (n1 + 6)%nat with (S (S (S (S (S (S n1)))))) by lia.
  repeat split; reflexivity.
Qed.

(** ** Mutating with an unknown id *)

Lemma map_unchanged {A : Type} (f : A -> A) (l : list A) :
  (forall a, In a l -> f a = a) -> map f l = l.
Proof.
  intros H. induction l as [|x l IH]; [reflexivity|]. simpl.
  rewrite H by now left. rewrite IH; [reflexivity|].
  intros a Ha. apply H. now right.
Qed.

Lemma filter_unchanged {A : Type} (p : A -> bool) (l : list A) :
  (forall a, In a l -> p a = true) -> filter p l = l.
Proof.
  intros H. induction l as [|x l IH]; [reflexivity|]. simpl.
  rewrite H by now left. rewrite IH; [reflexivity|].
  intros a Ha. apply H. now right.
Qed.

Lemma id_absent_eqb (target : string) (prev : list Session) :
  (forall s, In s prev -> id s <> target) ->
  forall s, In s prev -> String.eqb (id s) target = false.
Proof. intros H s Hs. apply String.eqb_neq. now apply H. Qed.

(** C9, as stated, fails for [handleSubmit]: with an unknown editing id the
    collection comes back sorted, which changes a collection that was not;
    and the empty string, though a string, counts as "not editing", so the
    draft is appended. *)
Lemma update_unknown_id_changes_collection :
  (forall s, In s [sampleTuesday; sampleMonday] -> id s <> "zzz") /\
  submitSessions (Some "zzz") (makePayload "zzz" DEFAULT_SESSION)
    [sampleTuesday; sampleMonday] <> [sampleTuesday; sampleMonday] /\
  (forall s, In s (@nil Session) -> id s <> EmptyString) /\
  submitSessions (Some EmptyString) (makePayload EmptyString DEFAULT_SESSION)
    [] <> [].
Proof.
  split; [|split; [|split]].
  - intros s [<-|[<-|[]]]; discriminate.
  - vm_compute. discriminate.
  - intros s [].
  - vm_compute. discriminate.
Qed.

(** C9, amended.  For an id that no session of the collection has,
    [handleDelete] and [toggleCompleted] return the collection unchanged;
    [handleSubmit] with that id as the (non-empty) editing id returns the
    collection sorted by (day, start), which is the collection itself when
    it was sorted. *)
Theorem unknown_id_is_noop (target : string) (payload : Session)
    (prev : list Session) :
  (forall s, In s prev -> id s <> target) ->
  deleteSession target prev = prev /\
  toggleSession target prev = prev /\
  (target <> EmptyString ->
   submitSessions (Some target) payload prev = sortSessions prev) /\
  (target <> EmptyString -> sortedByDayStart prev ->
   submitSessions (Some target) payload prev = prev).
Proof.
  intros H. pose proof (id_absent_eqb target prev H) as E.
  assert (S : target <> EmptyString ->
              submitSessions (Some target) payload prev = sortSessions prev).
  { intros N. unfold submitSessions.
    apply String.eqb_neq in N. rewrite N. simpl. f_equal.
    apply map_unchanged. intros s Hs. now rewrite (E s Hs). }
  split; [|split; [|split]].
  - apply filter_unchanged. intros s Hs. now rewrite (E s Hs).
  - apply map_unchanged. intros s Hs. now rewrite (E s Hs).
  - exact S.
  - intros N Hsorted. rewrite (S N). now apply sortSessions_fixed.
Qed.

Lemma unknown_id_is_noop_witness :
  deleteSession "zzz" [sampleMonday; sampleTuesday] =
    [sampleMonday; sampleTuesday] /\
  toggleSession "zzz" [sampleMonday; sampleTuesday] =
    [sampleMonday; sampleTuesday] /\
  ("zzz" <> EmptyString ->
   submitSessions (Some "zzz") (makePayload "zzz" DEFAULT_SESSION)
     [sampleMonday; sampleTuesday] =
   sortSessions [sampleMonday; sampleTuesday]) /\
  ("zzz" <> EmptyString -> sortedByDayStart [sampleMonday; sampleTuesday] ->
   submitSessions (Some "zzz") (makePayload "zzz" DEFAULT_SESSION)
     [sampleMonday; sampleTuesday] =
   [sampleMonday; sampleTuesday]).
Proof.
  apply (unknown_id_is_noop "zzz" (makePayload "zzz" DEFAULT_SESSION)
           [sampleMonday; sampleTuesday]).
  intros s [<-|[<-|[]]]; discriminate.
Defined.

(** ** End time *)

Lemma digitValue_digitChar (d : Z) :
  0 <= d <= 9 -> digitValue (digitChar d) = Some d.
Proof.
  intros H.
  assert (C : d = 0 \/ d = 1 \/ d = 2 \/ d = 3 \/ d = 4 \/ d = 5 \/
              d = 6 \/ d = 7 \/ d = 8 \/ d = 9) by lia.
  repeat (destruct C as [->|C]; [reflexivity|]). now subst.
Qed.

Lemma parseClock_clock (h m : Z) :
  0 <= h < 100 -> 0 <= m < 100 -> parseClock (clock h m) = Some (h, m).
Proof.
  intros Hh Hm. unfold clock, pad2, parseClock.
  cbn [append Ascii.eqb Bool.eqb].
  rewrite !digitValue_digitChar.
  - cbn [obind]. f_equal. f_equal.
    + pose proof (Z.div_mod h 10 ltac:(lia)). lia.
    + pose proof (Z.div_mod m 10 ltac:(lia)). lia.
  - pose proof (Z.mod_pos_bound m 10 ltac:(lia)). lia.
  - pose proof (Z.div_pos m 10 ltac:(lia) ltac:(lia)).
    pose proof (Z.div_lt_upper_bound m 10 10 ltac:(lia) ltac:(lia)). lia.
  - pose proof (Z.mod_pos_bound h 10 ltac:(lia)). lia.
  - pose proof (Z.div_pos h 10 ltac:(lia) ltac:(lia)).
    pose proof (Z.div_lt_upper_bound h 10 10 ltac:(lia) ltac:(lia)). lia.
Qed.

Lemma wall_clock_fields (total : Z) :
  0 <= total ->
  ((MS_TO_2020 + total * MS_PER_MINUTE) / MS_PER_HOUR) mod 24 =
    (total mod 1440) / 60 /\
  ((MS_TO_2020 + total * MS_PER_MINUTE) / MS_PER_MINUTE) mod 60 =
    (total mod 1440) mod 60.
Proof.
  intros H. unfold MS_TO_2020, MS_PER_MINUTE, MS_PER_HOUR.
  replace (1577836800000 + total * 60000)
    with ((26297280 + total) * 60000) by lia.
  replace 3600000 with (60000 * 60) by reflexivity.
  rewrite <- Z.div_div by lia.
  rewrite Z.div_mul by lia.
  split.
  - replace (26297280 + total) with (total + 438288 * 60) by lia.
    rewrite Z.div_add by lia.
    replace (total / 60 + 438288) with (total / 60 + 18262 * 24) by lia.
    rewrite Z.mod_add by lia.
    pose proof (Z.div_mod total 1440 ltac:(lia)).
    pose proof (Z.mod_pos_bound total 1440 ltac:(lia)).
    pose proof (Z.div_mod total 60 ltac:(lia)).
    pose proof (Z.mod_pos_bound total 60 ltac:(lia)).
    pose proof (Z.div_mod (total / 60) 24 ltac:(lia)).
    pose proof (Z.mod_pos_bound (total / 60) 24 ltac:(lia)).
    pose proof (Z.div_mod (total mod 1440) 60 ltac:(lia)).
    pose proof (Z.mod_pos_bound (total mod 1440) 60 ltac:(lia)).
    lia.
  - replace (26297280 + total) with (total + 438288 * 60) by lia.
    rewrite Z.mod_add by lia.
    pose proof (Z.div_mod total 1440 ltac:(lia)).
    pose proof (Z.mod_pos_bound total 1440 ltac:(lia)).
    pose proof (Z.div_mod total 60 ltac:(lia)).
    pose proof (Z.mod_pos_bound total 60 ltac:(lia)).
    pose proof (Z.div_mod (total mod 1440) 60 ltac:(lia)).
    pose proof (Z.mod_pos_bound (total mod 1440) 60 ltac:(lia)).
    lia.
Qed.

(** C8, as stated, fails: a duration that carries the date past the
    largest time value of a [Date] yields an invalid date, which formats as
    ["Invalid Date"] and not as a time of day; and where daylight saving
    begins between start and end, the end time is an hour off the sum
    modulo 1440. *)
Lemma getEndTime_not_always_wall_clock :
  (0 <= 1000000000000 /\
   getEndTime utcZone "00:00" 1000000000000 = Some "Invalid Date" /\
   clock ((1000000000000 mod 1440) / 60) ((1000000000000 mod 1440) mod 60)
     = "10:40") /\
  (0 <= 100000 /\
   getEndTime newYork2020 "23:30" 100000 = Some "11:10" /\
   clock (((23 * 60 + 30 + 100000) mod 1440) / 60)
         (((23 * 60 + 30 + 100000) mod 1440) mod 60) = "10:10").
Proof.
  split; (split; [lia|split; reflexivity]).
Qed.

(** C8, amended.  For a start [HH:MM] with [0 <= HH < 24] and
    [0 <= MM < 60] and a non-negative whole number of minutes, [getEndTime]
    never raises, whatever the time zone: it returns a time of day or
    ["Invalid Date"].  Where local time is as far from UTC at the end as at
    the start, it returns the time of day [duration] minutes later, modulo
    1440, as long as the end lies within the range of [Date] (as it does
    for durations up to 10^11 minutes), and ["Invalid Date"] beyond it.  In
    particular [getEndTime("23:30", 90)] is ["01:00"]. *)
Theorem getEndTime_wall_clock (LocalTZA : Z -> bool -> Z)
    (h m duration : Z) :
  0 <= h < 24 -> 0 <= m < 60 -> 0 <= duration ->
  (exists r,
     getEndTime LocalTZA (clock h m) duration = Some r /\
     (r = "Invalid Date" \/
      exists hh mm, 0 <= hh < 24 /\ 0 <= mm < 60 /\ r = clock hh mm)) /\
  (steadyOffset LocalTZA h m duration ->
   getEndTime LocalTZA (clock h m) duration =
     Some (if endInstant LocalTZA h m duration <=? MAX_TIME_VALUE
           then clock (((h * 60 + m + duration) mod 1440) / 60)
                      (((h * 60 + m + duration) mod 1440) mod 60)
           else "Invalid Date") /\
   (duration <= 100000000000 ->
    getEndTime LocalTZA (clock h m) duration =
      Some (clock (((h * 60 + m + duration) mod 1440) / 60)
                  (((h * 60 + m + duration) mod 1440) mod 60)))) /\
  (steadyOffset LocalTZA 23 30 90 ->
   getEndTime LocalTZA "23:30" 90 = Some "01:00").
Proof.
  intros Hh Hm Hd.
  assert (G : forall h m d, steadyOffset LocalTZA h m d ->
    0 <= h < 24 -> 0 <= m < 60 -> 0 <= d ->
    getEndTime LocalTZA (clock h m) d =
    Some (if endInstant LocalTZA h m d <=? MAX_TIME_VALUE
          then clock (((h * 60 + m + d) mod 1440) / 60)
                     (((h * 60 + m + d) mod 1440) mod 60)
          else "Invalid Date")).
  { clear h m duration Hh Hm Hd. intros h m d [Hz Hs] Hh Hm Hd.
    unfold getEndTime. rewrite parseClock_clock by lia.
    unfold localDate, addMinutes, TimeClip.
    unfold endInstant in *. set (z := LocalTZA (startLocal h m) false) in *.
    assert (L : startLocal h m = 1577836800000 + (h * 60 + m) * 60000)
      by reflexivity.
    unfold MAX_TIME_VALUE, MS_PER_MINUTE in *.
    destruct (Z.leb_spec (Z.abs (startLocal h m - z)) 8640000000000000)
      as [_|B]; [|lia].
    cbn [obind].
    destruct (Z.leb_spec (startLocal h m - z + d * 60000) 8640000000000000)
      as [B|B].
    - destruct (Z.leb_spec (Z.abs (startLocal h m - z + d * 60000))
                  8640000000000000) as [_|B']; [|lia].
      unfold formatHHmm. rewrite Hs. f_equal.
      replace (startLocal h m - z + d * 60000 + z)
        with (MS_TO_2020 + (h * 60 + m + d) * MS_PER_MINUTE)
        by (unfold MS_TO_2020, MS_PER_MINUTE; lia).
      destruct (wall_clock_fields (h * 60 + m + d)) as [-> ->]; [lia|].
      reflexivity.
    - destruct (Z.leb_spec (Z.abs (startLocal h m - z + d * 60000))
                  8640000000000000) as [B'|_]; [lia|].
      reflexivity. }
  assert (R : forall h m d, steadyOffset LocalTZA h m d ->
    0 <= h < 24 -> 0 <= m < 60 -> 0 <= d <= 100000000000 ->
    (endInstant LocalTZA h m d <=? MAX_TIME_VALUE) = true).
  { clear. intros h m d [Hz _] Hh Hm Hd. apply Z.leb_le.
    unfold endInstant, startLocal, MS_TO_2020, MS_PER_MINUTE, MAX_TIME_VALUE
      in *. lia. }
  split; [|split].
  - unfold getEndTime. rewrite parseClock_clock by lia.
    eexists. split; [reflexivity|].
    destruct (addMinutes (localDate LocalTZA h m) duration) as [t|];
      [right|left; reflexivity].
    cbn [formatHHmm]. do 2 eexists. split; [|split; [|reflexivity]].
    + apply Z.mod_pos_bound. lia.
    + apply Z.mod_pos_bound. lia.
  - intros Hz. split.
    + apply G; assumption.
    + intros Hle. rewrite G, R by (assumption || lia). reflexivity.
  - intros H23. change "23:30" with (clock 23 30).
    rewrite G, R by (assumption || lia). reflexivity.
Qed.

Lemma getEndTime_wall_clock_witness :
  (exists r,
     getEndTime newYork2020 (clock 23 30) 100000 = Some r /\
     (r = "Invalid Date" \/
      exists hh mm, 0 <= hh < 24 /\ 0 <= mm < 60 /\ r = clock hh mm)) /\
  steadyOffset utcZone 23 30 90 /\
  getEndTime utcZone (clock 23 30) 90 =
    Some (if endInstant utcZone 23 30 90 <=? MAX_TIME_VALUE
          then clock (((23 * 60 + 30 + 90) mod 1440) / 60)
                     (((23 * 60 + 30 + 90) mod 1440) mod 60)
          else "Invalid Date") /\
  getEndTime utcZone "23:30" 90 = Some "01:00".
Proof.
  assert (S : steadyOffset utcZone 23 30 90)
    by (split; [simpl; lia | reflexivity]).
  destruct (getEndTime_wall_clock newYork2020 23 30 100000
              ltac:(lia) ltac:(lia) ltac:(lia)) as (A & _ & _).
  destruct (getEndTime_wall_clock utcZone 23 30 90
              ltac:(lia) ltac:(lia) ltac:(lia)) as (_ & B & C).
  split; [exact A|]. split; [exact S|].
  split; [exact (proj1 (B S))|exact (C S)].
Defined.

(** ** The JSON text codec round-trips *)

Lemma append_assoc (a b c : string) : ((a ++ b) ++ c = a ++ (b ++ c))%string.
Proof. induction a as [|x a IH]; simpl; [reflexivity|now rewrite IH]. Qed.

Lemma length_append (a b : string) :
  String.length (a ++ b) = (String.length a + String.length b)%nat.
Proof. induction a as [|x a IH]; simpl; [reflexivity|now rewrite IH]. Qed.

Lemma parseStringBody_escapeChar (c : ascii) (t : string) :
  JSONText.parseStringBody (JSONText.escapeChar c ++ t) =
  JSONText.consChar c (JSONText.parseStringBody t).
Proof.
  destruct c as [[|] [|] [|] [|] [|] [|] [|] [|]]; reflexivity.
Qed.

Lemma parseStringBody_escape (s rest : string) :
  JSONText.parseStringBody
    (JSONText.escape s ++ String JSONText.dquote rest) = Some (s, rest).
Proof.
  induction s as [|c s IH]; [reflexivity|].
  cbn [JSONText.escape]. rewrite append_assoc, parseStringBody_escapeChar, IH.
  reflexivity.
Qed.

Lemma takeDigits_stop (rest : string) :
  numberEnds rest = true -> JSONText.takeDigits rest = (EmptyString, rest).
Proof.
  destruct rest as [|c rest]; [reflexivity|]. simpl.
  destruct (JSONText.isDigit c); [discriminate|reflexivity].
Qed.

Lemma takeDigits_uint (u : Decimal.uint) (rest : string) :
  numberEnds rest = true ->
  JSONText.takeDigits (NilEmpty.string_of_uint u ++ rest) =
  (NilEmpty.string_of_uint u, rest).
Proof.
  intros H. induction u; simpl; rewrite ?IHu; auto using takeDigits_stop.
Qed.

Lemma numberEnds_fraction (rest : string) :
  numberEnds rest = true -> JSONText.startsFraction rest = false.
Proof.
  destruct rest as [|c rest]; [reflexivity|]. unfold numberEnds.
  destruct (JSONText.startsFraction (String c rest)); [|reflexivity].
  now rewrite andb_false_r.
Qed.

Lemma to_uint_normal (p : positive) :
  Decimal.unorm (Pos.to_uint p) = Pos.to_uint p.
Proof.
  rewrite <- DecimalPos.Unsigned.to_of, DecimalPos.Unsigned.of_to.
  reflexivity.
Qed.

Lemma string_of_uint_head (u : Decimal.uint) :
  u <> Decimal.Nil ->
  exists c t, NilEmpty.string_of_uint u = String c t /\
              JSONText.isDigit c = true.
Proof.
  intros H. destruct u; [congruence| |  | | | | | | | | ];
    simpl; eexists; eexists; split; reflexivity.
Qed.

(** Reading back the digits of a positive number. *)
Lemma parseNumber_digits (negative : bool) (p : positive) (rest : string) :
  numberEnds rest = true ->
  let digits := NilEmpty.string_of_uint (Pos.to_uint p) in
  JSONText.parseNumber
    ((if negative then String "-" digits else digits) ++ rest) =
  Some ((if negative then Z.neg p else Z.pos p), rest).
Proof.
  intros H digits.
  pose proof (DecimalPos.Unsigned.to_uint_nonnil p) as Hnil.
  destruct (string_of_uint_head _ Hnil) as (c & t & Hc & Hd).
  assert (P : forall b : bool,
    (let (ds, r) := JSONText.takeDigits (digits ++ rest) in
     match NilZero.uint_of_string ds with
     | Some u =>
         if Decimal.uint_beq (Decimal.unorm u) u
            && negb (JSONText.startsFraction r)
         then Some (Z.of_int (if b then Decimal.Neg u else Decimal.Pos u), r)
         else None
     | None => None
     end) = Some ((if b then Z.neg p else Z.pos p), rest)).
  { intros b. subst digits. rewrite takeDigits_uint by exact H.
    change (NilEmpty.string_of_uint (Pos.to_uint p))
      with (NilEmpty.string_of_uint (Pos.to_uint p)).
    replace (NilZero.uint_of_string
               (NilEmpty.string_of_uint (Pos.to_uint p)))
      with (Some (Pos.to_uint p)).
    - rewrite to_uint_normal, Decimal.internal_uint_dec_lb by reflexivity.
      rewrite numberEnds_fraction by exact H. simpl.
      destruct b.
      + f_equal. f_equal. exact (DecimalZ.of_to (Z.neg p)).
      + f_equal. f_equal. exact (DecimalZ.of_to (Z.pos p)).
    - symmetry. rewrite <- (NilZero.usu _ Hnil).
      unfold NilZero.string_of_uint.
      destruct (Pos.to_uint p); [congruence|reflexivity..]. }
  unfold JSONText.parseNumber. destruct negative.
  - cbn [append]. rewrite Ascii.eqb_refl. apply (P true).
  - assert (N : Ascii.eqb c "-" = false).
    { apply Ascii.eqb_neq. intros ->. discriminate. }
    pose proof (P false) as Q. subst digits.
    rewrite Hc in Q |- *. cbn [append] in Q |- *. rewrite N. exact Q.
Qed.

Lemma parseNumber_printNumber (z : Z) (rest : string) :
  numberEnds rest = true ->
  JSONText.parseNumber (JSONText.printNumber z ++ rest) = Some (z, rest).
Proof.
  intros H. destruct z as [|p|p].
  - unfold JSONText.parseNumber, JSONText.printNumber. simpl.
    rewrite takeDigits_stop by exact H. simpl.
    now rewrite numberEnds_fraction by exact H.
  - pose proof (parseNumber_digits false p rest H) as E. simpl in E.
    rewrite <- E. unfold JSONText.printNumber. simpl.
    unfold NilZero.string_of_uint.
    pose proof (DecimalPos.Unsigned.to_uint_nonnil p).
    destruct (Pos.to_uint p); [congruence|reflexivity..].
  - pose proof (parseNumber_digits true p rest H) as E. simpl in E.
    rewrite <- E. unfold JSONText.printNumber. simpl.
    unfold NilZero.string_of_uint.
    pose proof (DecimalPos.Unsigned.to_uint_nonnil p).
    destruct (Pos.to_uint p); [congruence|reflexivity..].
Qed.

Lemma append_nil_r (a : string) : (a ++ EmptyString)%string = a.
Proof. induction a as [|x a IH]; simpl; [reflexivity|now rewrite IH]. Qed.

(** The defining equations of the parser, one step at a time. *)
Lemma parseElements_eq (fuel : nat) (s : string) :
  JSONText.parseElements (S fuel) s =
  match JSONText.parseValue fuel s with
  | None => None
  | Some (v, r) =>
      match JSONText.skipWs r with
      | EmptyString => None
      | String c r1 =>
          if (N_of_ascii c =? 44)%N then
            match JSONText.parseElements fuel r1 with
            | Some (vs, r2) => Some (v :: vs, r2)
            | None => None
            end
          else if (N_of_ascii c =? 93)%N then Some ([v], r1)
          else None
      end
  end.
Proof. reflexivity. Qed.

Lemma parseMembers_eq (fuel : nat) (k : string) (s : string) :
  JSONText.parseMembers (S fuel)
    (JSONText.quote k ++ String ":" s) =
  match JSONText.parseValue fuel s with
  | None => None
  | Some (v, r3) =>
      match JSONText.skipWs r3 with
      | EmptyString => None
      | String c3 r4 =>
          if (N_of_ascii c3 =? 44)%N then
            match JSONText.parseMembers fuel r4 with
            | Some (ms, r5) => Some ((k, v) :: ms, r5)
            | None => None
            end
          else if (N_of_ascii c3 =? 125)%N then Some ([(k, v)], r4)
          else None
      end
  end.
Proof.
  unfold JSONText.quote. cbn [append]. rewrite append_assoc. cbn [append].
  cbn [JSONText.parseMembers JSONText.skipWs].
  change (JSONText.isWhitespace JSONText.dquote) with false.
  change (N_of_ascii JSONText.dquote =? 34)%N with true. cbv iota.
  rewrite parseStringBody_escape. reflexivity.
Qed.

Lemma parseValue_string (fuel : nat) (s rest : string) :
  JSONText.parseValue (S fuel) (JSONText.quote s ++ rest) =
  Some (JStr s, rest).
Proof.
  unfold JSONText.quote. cbn [append]. rewrite append_assoc. cbn [append].
  cbn [JSONText.parseValue JSONText.skipWs].
  change (JSONText.isWhitespace JSONText.dquote) with false. cbv iota.
  change (N_of_ascii JSONText.dquote) with 34%N.
  change (34 =? 110)%N with false. change (34 =? 116)%N with false.
  change (34 =? 102)%N with false. change (34 =? 34)%N with true.
  cbv iota.
  rewrite parseStringBody_escape. reflexivity.
Qed.

Lemma parseValue_number_head (fuel : nat) (c : ascii) (t : string) :
  JSONText.isDigit c || Ascii.eqb c "-" = true ->
  JSONText.parseValue (S fuel) (String c t) =
  match JSONText.parseNumber (String c t) with
  | Some (z, r) => Some (JNum z, r)
  | None => None
  end.
Proof.
  destruct c as [[|] [|] [|] [|] [|] [|] [|] [|]];
    intros H; try discriminate H; reflexivity.
Qed.

Lemma parseValue_array_head (fuel : nat) (c : ascii) (t : string) :
  valueStart c = true ->
  JSONText.parseValue (S fuel) (String "[" (String c t)) =
  match JSONText.parseElements fuel (String c t) with
  | Some (vs, r) => Some (JArr vs, r)
  | None => None
  end.
Proof.
  destruct c as [[|] [|] [|] [|] [|] [|] [|] [|]];
    intros H; try discriminate H; reflexivity.
Qed.

Lemma parseValue_object_head (fuel : nat) (t : string) :
  JSONText.parseValue (S fuel) (String "{" (String JSONText.dquote t)) =
  match JSONText.parseMembers fuel (String JSONText.dquote t) with
  | Some (ms, r) => Some (JObj (JSONText.buildObject ms), r)
  | None => None
  end.
Proof. reflexivity. Qed.

Lemma printNumber_head (z : Z) :
  exists c t, JSONText.printNumber z = String c t /\
              JSONText.isDigit c || Ascii.eqb c "-" = true.
Proof.
  destruct z as [|p|p].
  - eexists; eexists; split; reflexivity.
  - unfold JSONText.printNumber. simpl.
    pose proof (DecimalPos.Unsigned.to_uint_nonnil p) as Hnil.
    destruct (string_of_uint_head _ Hnil) as (c & t & Hc & Hd).
    exists c, t. rewrite Hd. split; [|reflexivity].
    rewrite <- Hc. unfold NilZero.string_of_uint.
    destruct (Pos.to_uint p); [congruence|reflexivity..].
  - eexists; eexists; split; reflexivity.
Qed.

Lemma stringify_head (v : JSON) :
  exists c t, JSONText.stringify v = String c t /\ valueStart c = true.
Proof.
  destruct v as [|[|]|z|s|l|fs];
    try (eexists; eexists; split; reflexivity).
  destruct (printNumber_head z) as (c & t & Hc & Hd).
  exists c, t. split; [exact Hc|].
  unfold valueStart.
  apply orb_true_iff in Hd as [Hd|Hd].
  - rewrite Hd. now rewrite !orb_true_r.
  - apply Ascii.eqb_eq in Hd. now subst c.
Qed.

Lemma numberEnds_comma (rest : string) : numberEnds (String "," rest) = true.
Proof. reflexivity. Qed.

Lemma numberEnds_bracket (rest : string) :
  numberEnds (String "]" rest) = true.
Proof. reflexivity. Qed.

Lemma numberEnds_brace (rest : string) : numberEnds (String "}" rest) = true.
Proof. reflexivity. Qed.

Lemma stringify_arr (l : list JSON) :
  JSONText.stringify (JArr l) =
  String "[" (JSONText.commaJoin (map JSONText.stringify l) ++ "]").
Proof. reflexivity. Qed.

Lemma stringify_obj (fs : list (string * JSON)) :
  JSONText.stringify (JObj fs) =
  String "{" (JSONText.commaJoin (map memberText fs) ++ "}").
Proof. reflexivity. Qed.

Lemma size_arr (l : list JSON) : size (JArr l) = S (sizeSum l).
Proof. reflexivity. Qed.

Lemma size_obj (fs : list (string * JSON)) :
  size (JObj fs) = S (sizeSum (map snd fs)).
Proof. unfold sizeSum. rewrite map_map. reflexivity. Qed.

Lemma size_positive (v : JSON) : (1 <= size v)%nat.
Proof. destruct v; simpl; lia. Qed.

(** With distinct keys, building the object keeps the members as read. *)
Lemma setField_fresh (k : string) (v : JSON) (acc : list (string * JSON)) :
  existsb (String.eqb k) (map fst acc) = false ->
  setField k v acc = (acc ++ [(k, v)])%list.
Proof.
  induction acc as [|[k' v'] acc IH]; simpl; [reflexivity|].
  intros H. apply orb_false_iff in H as [H1 H2].
  rewrite String.eqb_sym, H1, IH by exact H2. reflexivity.
Qed.

Lemma buildObject_distinct (ms acc : list (string * JSON)) :
  distinctStrings (map fst (acc ++ ms)) = true ->
  fold_left (fun a kv => setField (fst kv) (snd kv) a) ms acc =
  (acc ++ ms)%list.
Proof.
  revert acc. induction ms as [|[k v] ms IH]; intros acc H; simpl.
  - now rewrite List.app_nil_r.
  - assert (F : existsb (String.eqb k) (map fst acc) = false).
    { clear IH. induction acc as [|[k' v'] acc IHa]; [reflexivity|].
      simpl in H |- *. apply andb_true_iff in H as [H1 H2].
      rewrite (IHa H2), orb_false_r.
      apply negb_true_iff in H1.
      rewrite map_app, existsb_app in H1.
      apply orb_false_iff in H1 as [_ H1]. simpl in H1.
      apply orb_false_iff in H1 as [H1 _].
      now rewrite String.eqb_sym. }
    rewrite setField_fresh by exact F.
    rewrite IH; rewrite <- List.app_assoc; [reflexivity|exact H].
Qed.

Lemma sizeSum_cons (x : JSON) (l : list JSON) :
  sizeSum (x :: l) = (S (size x) + sizeSum l)%nat.
Proof. reflexivity. Qed.

Lemma commaJoin_one (a : string) : JSONText.commaJoin [a] = a.
Proof. reflexivity. Qed.

Lemma commaJoin_more (a b : string) (l : list string) :
  JSONText.commaJoin (a :: b :: l) =
  (a ++ String "," (JSONText.commaJoin (b :: l)))%string.
Proof. reflexivity. Qed.

Lemma commaJoin_stringify_head (x : JSON) (l : list JSON) (rest : string) :
  exists c t,
    (JSONText.commaJoin (map JSONText.stringify (x :: l)) ++ rest)%string =
      String c t /\
    valueStart c = true.
Proof.
  destruct (stringify_head x) as (c & t & Hc & Hs).
  destruct l as [|y l]; cbn [map].
  - rewrite commaJoin_one, Hc. cbn [append]. eauto.
  - rewrite commaJoin_more, Hc. cbn [append]. eauto.
Qed.

Lemma commaJoin_memberText_head (kv : string * JSON)
    (ms : list (string * JSON)) (rest : string) :
  exists t,
    (JSONText.commaJoin (map memberText (kv :: ms)) ++ rest)%string =
    String JSONText.dquote t.
Proof.
  destruct ms as [|kv' ms]; cbn [map].
  - rewrite commaJoin_one. unfold memberText, JSONText.quote.
    cbn [append]. eauto.
  - rewrite commaJoin_more. unfold memberText at 1, JSONText.quote.
    cbn [append]. eauto.
Qed.

(** Parsing a printed value, a printed run of elements and a printed run
    of members gives them back, with fuel for every node. *)
Lemma parse_print_mutual (n : nat) :
  (forall v rest,
     (size v <= n)%nat -> distinctKeys v = true -> numberEnds rest = true ->
     JSONText.parseValue n (JSONText.stringify v ++ rest) = Some (v, rest)) /\
  (forall x l rest,
     (sizeSum (x :: l) <= n)%nat -> forallb distinctKeys (x :: l) = true ->
     JSONText.parseElements n
       (JSONText.commaJoin (map JSONText.stringify (x :: l))
        ++ String "]" rest) = Some (x :: l, rest)) /\
  (forall kv ms rest,
     (sizeSum (map snd (kv :: ms)) <= n)%nat ->
     forallb (fun m => distinctKeys (snd m)) (kv :: ms) = true ->
     JSONText.parseMembers n
       (JSONText.commaJoin (map memberText (kv :: ms))
        ++ String "}" rest) = Some (kv :: ms, rest)).
Proof.
  induction n as [|n (IHv & IHe & IHm)].
  - split; [|split].
    + intros v rest H. pose proof (size_positive v). lia.
    + intros x l rest H. rewrite sizeSum_cons in H. lia.
    + intros kv ms rest H. cbn [map] in H. rewrite sizeSum_cons in H. lia.
  - split; [|split].
    + intros v rest Hs Hd Hr. destruct v as [|[|]|z|s|l|fs].
      * reflexivity.
      * reflexivity.
      * reflexivity.
      * cbn [JSONText.stringify].
        destruct (printNumber_head z) as (c & t & Hc & Hh).
        pose proof (parseNumber_printNumber z rest Hr) as P.
        rewrite Hc in P |- *. cbn [append] in P |- *.
        rewrite parseValue_number_head by exact Hh. now rewrite P.
      * apply parseValue_string.
      * rewrite stringify_arr. cbn [append]. destruct l as [|x l].
        { reflexivity. }
        rewrite append_assoc. cbn [append].
        destruct (commaJoin_stringify_head x l (String "]" rest))
          as (c & t & E & Hc).
        rewrite E, parseValue_array_head by exact Hc. rewrite <- E.
        rewrite size_arr in Hs.
        rewrite IHe; [reflexivity | lia | exact Hd].
      * rewrite stringify_obj. cbn [append]. destruct fs as [|kv ms].
        { reflexivity. }
        rewrite append_assoc. cbn [append].
        destruct (commaJoin_memberText_head kv ms (String "}" rest))
          as (t & E).
        rewrite E, parseValue_object_head. rewrite <- E.
        rewrite size_obj in Hs.
        cbn [distinctKeys] in Hd. apply andb_true_iff in Hd as [Hk Hd].
        rewrite IHm; [| lia | exact Hd].
        unfold JSONText.buildObject.
        rewrite buildObject_distinct by exact Hk. reflexivity.
    + intros x l rest Hs Hd. rewrite parseElements_eq.
      rewrite sizeSum_cons in Hs.
      cbn [forallb] in Hd. apply andb_true_iff in Hd as [Hx Hl].
      destruct l as [|y l]; cbn [map].
      * rewrite commaJoin_one.
        rewrite IHv; [reflexivity | lia | exact Hx | reflexivity].
      * rewrite commaJoin_more, append_assoc. cbn [append].
        rewrite IHv; [| lia | exact Hx | reflexivity].
        cbn [JSONText.skipWs].
        change (JSONText.isWhitespace ",") with false. cbv iota.
        change (N_of_ascii "," =? 44)%N with true. cbv iota.
        change (JSONText.stringify y :: map JSONText.stringify l)
          with (map JSONText.stringify (y :: l)).
        rewrite IHe; [reflexivity | lia | exact Hl].
    + intros [k v] ms rest Hs Hd.
      cbn [map snd] in Hs. rewrite sizeSum_cons in Hs.
      cbn [forallb snd] in Hd. apply andb_true_iff in Hd as [Hx Hl].
      destruct ms as [|kv' ms]; cbn [map].
      * rewrite commaJoin_one. unfold memberText. cbn [fst snd].
        rewrite !append_assoc. cbn [append].
        rewrite parseMembers_eq.
        rewrite IHv; [reflexivity | lia | exact Hx | reflexivity].
      * rewrite commaJoin_more. unfold memberText at 1. cbn [fst snd].
        rewrite !append_assoc. cbn [append].
        rewrite parseMembers_eq.
        rewrite IHv; [| lia | exact Hx | reflexivity].
        cbn [JSONText.skipWs].
        change (JSONText.isWhitespace ",") with false. cbv iota.
        change (N_of_ascii "," =? 44)%N with true. cbv iota.
        change (memberText kv' :: map memberText ms)
          with (map memberText (kv' :: ms)).
        rewrite IHm; [reflexivity | cbn [map snd] in Hs |- *; lia | exact Hl].
Qed.

Lemma commaJoin_length {A : Type} (f : A -> string) (g : A -> nat)
    (l : list A) :
  (forall a, In a l -> (g a <= String.length (f a))%nat) ->
  (list_sum (map (fun a => S (g a)) l)
   <= String.length (JSONText.commaJoin (map f l)) + 1)%nat.
Proof.
  induction l as [|x l IH]; intros H; [simpl; lia|].
  assert (Hx : (g x <= String.length (f x))%nat) by (apply H; now left).
  assert (Hl : forall a, In a l -> (g a <= String.length (f a))%nat)
    by (intros a Ha; apply H; now right).
  specialize (IH Hl).
  destruct l as [|y l]; cbn [map].
  - rewrite commaJoin_one. simpl. lia.
  - rewrite commaJoin_more, length_append.
    cbn [map list_sum fold_right] in IH |- *. cbn [String.length]. lia.
Qed.

Lemma sizeSum_In (e : JSON) (l : list JSON) :
  In e l -> (S (size e) <= sizeSum l)%nat.
Proof.
  induction l as [|x l IH]; [intros []|].
  rewrite sizeSum_cons. intros [->|H]; [lia|]. specialize (IH H). lia.
Qed.

Lemma size_le_length (v : JSON) :
  (size v <= String.length (JSONText.stringify v))%nat.
Proof.
  assert (G : forall n v, (size v <= n)%nat ->
                (size v <= String.length (JSONText.stringify v))%nat);
    [|now apply (G (size v))].
  clear v. induction n as [|n IH]; intros v H.
  { pose proof (size_positive v). lia. }
  destruct v as [|[|]|z|s|l|fs]; try (simpl; lia).
  - destruct (printNumber_head z) as (c & t & Hc & _).
    cbn [JSONText.stringify size]. rewrite Hc. simpl. lia.
  - rewrite stringify_arr, size_arr in *.
    cbn [String.length]. rewrite length_append. cbn [String.length].
    pose proof (commaJoin_length JSONText.stringify size l) as C.
    unfold sizeSum in *.
    assert (forall a, In a l ->
              (size a <= String.length (JSONText.stringify a))%nat).
    { intros a Ha. apply IH. pose proof (sizeSum_In a l Ha) as S1.
      unfold sizeSum in S1. lia. }
    specialize (C H0). lia.
  - rewrite stringify_obj, size_obj in *.
    cbn [String.length]. rewrite length_append. cbn [String.length].
    pose proof (commaJoin_length memberText (fun kv => size (snd kv)) fs)
      as C.
    unfold sizeSum in *. rewrite map_map in H |- *.
    assert (forall a, In a fs ->
              (size (snd a) <= String.length (memberText a))%nat).
    { intros a Ha. unfold memberText. rewrite !length_append.
      assert (S (size (snd a)) <= sizeSum (map snd fs))%nat.
      { apply sizeSum_In. now apply in_map. }
      unfold sizeSum in H0. rewrite map_map in H0.
      assert (size (snd a) <= String.length (JSONText.stringify (snd a)))%nat
        by (apply IH; lia).
      lia. }
    specialize (C H0). lia.
Qed.

(** The codec is lawful: parsing the text of a value whose objects have
    distinct keys gives the value back. *)
Lemma JSONText_parse_stringify (v : JSON) :
  distinctKeys v = true ->
  JSONText.parse (JSONText.stringify v) = Some v.
Proof.
  intros Hd. unfold JSONText.parse.
  destruct (parse_print_mutual (S (String.length (JSONText.stringify v))))
    as (P & _ & _).
  specialize (P v EmptyString).
  rewrite append_nil_r in P. rewrite P; [reflexivity| |exact Hd|reflexivity].
  pose proof (size_le_length v). lia.
Qed.

Lemma JSONText_stringify_array_nonempty (l : list JSON) :
  JSONText.stringify (JArr l) <> EmptyString.
Proof. rewrite stringify_arr. discriminate. Qed.

(** ** Sessions as stored objects *)

Lemma Session_toJSON_distinct (s : Session) :
  distinctKeys (Session_toJSON s) = true.
Proof. destruct s as [i n f t d st m l [o|] c]; reflexivity. Qed.

Lemma sessions_toJSON_distinct (S : list Session) :
  distinctKeys (JArr (map Session_toJSON S)) = true.
Proof.
  simpl. induction S as [|s S IH]; [reflexivity|].
  cbn [map forallb]. now rewrite Session_toJSON_distinct, IH.
Qed.

Lemma Session_ofJSON_toJSON (s : Session) :
  Session_ofJSON (Session_toJSON s) = Some s.
Proof.
  destruct s as [i n f t d st m l [o|] c]; destruct f, t, d; reflexivity.
Qed.

Lemma sessionsOfJSON_toJSON (S : list Session) :
  sessionsOfJSON (map Session_toJSON S) = Some S.
Proof.
  induction S as [|s S IH]; [reflexivity|].
  cbn [map sessionsOfJSON]. now rewrite Session_ofJSON_toJSON, IH.
Qed.

(** A stored session already has a string [id] and a boolean [completed]:
    normalising it draws no identifier and changes nothing. *)
Lemma normaliseSession_toJSON (s : Session) (e : Entropy) :
  normaliseSession (Session_toJSON s) e = (Some (Session_toJSON s), e).
Proof. destruct s as [i n f t d st m l [o|] [|]]; reflexivity. Qed.

Lemma normaliseAll_toJSON (S : list Session) (e : Entropy) :
  normaliseAll (map Session_toJSON S) e = (Some (map Session_toJSON S), e).
Proof.
  induction S as [|s S IH]; [reflexivity|].
  cbn [map normaliseAll]. unfold bind at 1.
  rewrite normaliseSession_toJSON. unfold bind. rewrite IH. reflexivity.
Qed.

(** ** Loading *)

Lemma getField_setField_same (k : string) (v : JSON)
    (fs : list (string * JSON)) :
  getField k (setField k v fs) = Some v.
Proof.
  induction fs as [|[k' v'] fs IH]; simpl.
  - now rewrite String.eqb_refl.
  - destruct (String.eqb k' k) eqn:E; simpl.
    + now rewrite String.eqb_refl.
    + now rewrite E.
Qed.

Lemma getField_setField_other (k k' : string) (v : JSON)
    (fs : list (string * JSON)) :
  k <> k' -> getField k' (setField k v fs) = getField k' fs.
Proof.
  intros N. induction fs as [|[k0 v0] fs IH]; simpl.
  - apply String.eqb_neq in N. now rewrite N.
  - destruct (String.eqb k0 k) eqn:E; simpl.
    + apply String.eqb_eq in E. subst k0.
      apply String.eqb_neq in N. now rewrite N.
    + now rewrite IH.
Qed.

Lemma normaliseSession_spec (x : JSON) (e : Entropy) :
  x <> JNull ->
  exists newId r e',
    normaliseSession x e = (Some r, e') /\ normalisedAs x newId r.
Proof.
  intros N.
  assert (G :
    normaliseSession x e =
    bind (match getProp x "id" with
          | None | Some JNull => s <- generateId ;; ret (JStr s)
          | Some v => ret v
          end)
      (fun newId => ret (Some (JObj
         (setField "completed"
            (JBool (toBoolean (getProp x "completed")))
            (setField "id" newId (spreadProps x)))))) e).
  { destruct x; [congruence|reflexivity..]. }
  rewrite G. clear G.
  assert (F : forall newId v,
    v = match getProp x "id" with
        | None | Some JNull => JStr newId
        | Some w => w
        end ->
    normalisedAs x newId
      (JObj (setField "completed"
               (JBool (toBoolean (getProp x "completed")))
               (setField "id" v (spreadProps x))))).
  { intros newId v Hv. eexists. split; [reflexivity|]. split; [|split].
    all: try rewrite <- Hv.
    - rewrite getField_setField_other by discriminate.
      apply getField_setField_same.
    - apply getField_setField_same.
    - intros k K1 K2.
      rewrite !getField_setField_other by congruence. reflexivity. }
  destruct (getProp x "id") as [[| | | | |]|] eqn:E;
    unfold bind, ret, generateId;
    first
      [ exists EmptyString; eexists; eexists;
        split; [reflexivity | apply F; reflexivity]
      | exists (fresh e (drawn e)); eexists; eexists;
        split; [reflexivity | apply F; reflexivity] ].
Qed.

Lemma normaliseAll_spec (l : list JSON) (e : Entropy) :
  ~ In JNull l ->
  exists rs e',
    normaliseAll l e = (Some rs, e') /\
    Forall2 (fun x r => exists newId, normalisedAs x newId r) l rs.
Proof.
  revert e. induction l as [|x l IH]; intros e N.
  - exists [], e. split; [reflexivity|constructor].
  - assert (Nx : x <> JNull) by (intros ->; apply N; now left).
    assert (Nl : ~ In JNull l) by (intros H; apply N; now right).
    destruct (normaliseSession_spec x e Nx) as (newId & r & e1 & E1 & H1).
    destruct (IH e1 Nl) as (rs & e2 & E2 & H2).
    exists (r :: rs), e2. split.
    + cbn [normaliseAll]. unfold bind at 1. rewrite E1.
      unfold bind. rewrite E2. reflexivity.
    + constructor; eauto.
Qed.

Lemma normaliseAll_null (l : list JSON) (e : Entropy) :
  In JNull l -> exists e', normaliseAll l e = (None, e').
Proof.
  revert e. induction l as [|x l IH]; intros e H; [destruct H|].
  cbn [normaliseAll]. unfold bind at 1.
  destruct (normaliseSession x e) as [[r|] e1] eqn:E1.
  - assert (Hl : In JNull l).
    { destruct H as [->|H]; [|exact H]. discriminate E1. }
    destruct (IH e1 Hl) as (e2 & E2).
    exists e2. unfold bind. now rewrite E2.
  - exists e1. reflexivity.
Qed.

(** C10, as stated, fails: a text that parses to something other than an
    array, or to an array with a [null] element, also loads as the seeded
    week, although the slot is set, the text is not empty and parsing did
    not throw. *)
Lemma loadSessions_falls_back_after_successful_parse :
  JSONText.parse "{}" = Some (JObj []) /\
  loadSessions true JSONText.parse (Some "{}") countingEntropy =
    defaultWeek countingEntropy /\
  JSONText.parse "[null]" = Some (JArr [JNull]) /\
  loadSessions true JSONText.parse (Some "[null]") countingEntropy =
    defaultWeek countingEntropy /\
  defaultWeek countingEntropy <> ([], countingEntropy).
Proof. repeat split; try reflexivity. discriminate. Qed.

(** C10, amended.  In the browser [loadSessions] returns without raising.
    It returns the seeded week when the slot is unset or holds the empty
    string, when parsing throws, and also when the parsed value is not an
    array or is an array with a [null] element (the exception is caught);
    a text that parses to the empty array loads as the empty collection;
    and an array without [null] elements is returned element by element,
    each with a missing or [null] id back-filled, [completed] coerced to a
    boolean and its other properties kept. *)
Theorem loadSessions_outcomes (JSON_parse : string -> option JSON)
    (raw : string) (e : Entropy) :
  raw <> EmptyString ->
  loadSessions true JSON_parse None e = defaultWeek e /\
  loadSessions true JSON_parse (Some EmptyString) e = defaultWeek e /\
  (JSON_parse raw = None ->
   loadSessions true JSON_parse (Some raw) e = defaultWeek e) /\
  (forall v, JSON_parse raw = Some v -> (forall l, v <> JArr l) ->
   loadSessions true JSON_parse (Some raw) e = defaultWeek e) /\
  (forall l, JSON_parse raw = Some (JArr l) -> In JNull l ->
   exists e', loadSessions true JSON_parse (Some raw) e = defaultWeek e') /\
  (forall l, JSON_parse raw = Some (JArr l) -> ~ In JNull l ->
   Forall2 (fun x r => exists newId, normalisedAs x newId r) l
     (fst (loadSessions true JSON_parse (Some raw) e))) /\
  (JSON_parse raw = Some (JArr []) ->
   loadSessions true JSON_parse (Some raw) e = ([], e)).
Proof.
  intros N. apply String.eqb_neq in N.
  split; [reflexivity|]. split; [reflexivity|].
  unfold loadSessions. cbn [negb]. rewrite N.
  split; [|split; [|split; [|split]]].
  - intros ->. reflexivity.
  - intros v -> Hv. destruct v; try reflexivity. now elim (Hv elements).
  - intros l -> Hl. destruct (normaliseAll_null l e Hl) as (e' & E).
    exists e'. unfold bind at 1. now rewrite E.
  - intros l -> Hl. destruct (normaliseAll_spec l e Hl) as (rs & e' & E & F).
    unfold bind at 1. now rewrite E.
  - intros ->. reflexivity.
Qed.

Lemma loadSessions_outcomes_witness :
  loadSessions true JSONText.parse None countingEntropy =
    defaultWeek countingEntropy /\
  loadSessions true JSONText.parse (Some EmptyString) countingEntropy =
    defaultWeek countingEntropy /\
  (JSONText.parse "[]" = None ->
   loadSessions true JSONText.parse (Some "[]") countingEntropy =
     defaultWeek countingEntropy) /\
  (forall v, JSONText.parse "[]" = Some v -> (forall l, v <> JArr l) ->
   loadSessions true JSONText.parse (Some "[]") countingEntropy =
     defaultWeek countingEntropy) /\
  (forall l, JSONText.parse "[]" = Some (JArr l) -> In JNull l ->
   exists e', loadSessions true JSONText.parse (Some "[]") countingEntropy =
              defaultWeek e') /\
  (forall l, JSONText.parse "[]" = Some (JArr l) -> ~ In JNull l ->
   Forall2 (fun x r => exists newId, normalisedAs x newId r) l
     (fst (loadSessions true JSONText.parse (Some "[]") countingEntropy))) /\
  (JSONText.parse "[]" = Some (JArr []) ->
   loadSessions true JSONText.parse (Some "[]") countingEntropy =
     ([], countingEntropy)).
Proof.
  apply (loadSessions_outcomes JSONText.parse "[]" countingEntropy).
  discriminate.
Defined.

(** ** The store and its slot *)

Lemma suggestBalancedWeek_sorted (e : Entropy) :
  sortedByDayStart (fst (suggestBalancedWeek e)).
Proof.
  destruct e as [f n].
  cbv [suggestBalancedWeek mapWithIndex seedSession bind ret generateId
       firstn SESSION_TEMPLATES fst snd fresh drawn].
  simpl.
  repeat (constructor; [|repeat (constructor; [left; reflexivity|]);
                         constructor]).
  constructor.
Qed.

Lemma suggestBalancedWeek_nonempty (e : Entropy) :
  fst (suggestBalancedWeek e) <> [].
Proof. destruct e. discriminate. Qed.

Lemma toggleSession_sorted (target : string) (l : list Session) :
  sortedByDayStart l -> sortedByDayStart (toggleSession target l).
Proof.
  apply StronglySorted_map_same. intros a b H.
  destruct (String.eqb (id a) target), (String.eqb (id b) target);
    exact H.
Qed.

Lemma deleteSession_sorted (target : string) (l : list Session) :
  sortedByDayStart l -> sortedByDayStart (deleteSession target l).
Proof. apply StronglySorted_filter. Qed.

Lemma submitSessions_sorted (editing : option string) (payload : Session)
    (l : list Session) :
  sortedByDayStart (submitSessions editing payload l).
Proof. apply sortSessions_sorted. Qed.

Section StoreFacts.
Variable hasWindow : bool.
Variable JSON_parse : string -> option JSON.
Variable JSON_stringify : JSON -> string.

(** What the embedding asks of [JSON.parse] and [JSON.stringify]. *)
Hypothesis parse_stringify :
  forall v, distinctKeys v = true -> JSON_parse (JSON_stringify v) = Some v.
Hypothesis stringify_array :
  forall l, JSON_stringify (JArr l) <> EmptyString.

Lemma loadSessions_stored (S : list Session) (e : Entropy) :
  loadSessions true JSON_parse
    (Some (JSON_stringify (JArr (map Session_toJSON S)))) e =
  (map Session_toJSON S, e).
Proof.
  unfold loadSessions. cbn [negb].
  pose proof (stringify_array (map Session_toJSON S)) as N.
  apply String.eqb_neq in N. rewrite N.
  rewrite parse_stringify by apply sessions_toJSON_distinct.
  unfold bind at 1. rewrite normaliseAll_toJSON. reflexivity.
Qed.

(** C2.  Persisting a non-empty collection and loading it again gives
    the same sessions: the loaded objects are those of the collection, and
    read at type [Session] they are the collection.  Persisting the empty
    collection clears the slot, and loading then gives the seeded week,
    which is not empty. *)
Theorem load_after_persist (x : Session) (S : list Session)
    (slot : option string) (e : Entropy) :
  (loadSessions true JSON_parse
     (persistEffect true JSON_stringify (x :: S) slot) e =
   (map Session_toJSON (x :: S), e) /\
   sessionsOfJSON
     (fst (loadSessions true JSON_parse
             (persistEffect true JSON_stringify (x :: S) slot) e)) =
   Some (x :: S)) /\
  (persistEffect true JSON_stringify [] slot = None /\
   loadSessions true JSON_parse
     (persistEffect true JSON_stringify [] slot) e = defaultWeek e /\
   sessionsOfJSON (fst (defaultWeek e)) =
     Some (fst (suggestBalancedWeek e)) /\
   fst (suggestBalancedWeek e) <> []).
Proof.
  split; [|split; [|split; [|split]]].
  - change (persistEffect true JSON_stringify (x :: S) slot)
      with (Some (JSON_stringify (JArr (map Session_toJSON (x :: S))))).
    rewrite loadSessions_stored. split; [reflexivity|].
    apply sessionsOfJSON_toJSON.
  - reflexivity.
  - reflexivity.
  - unfold defaultWeek, bind, ret.
    destruct (suggestBalancedWeek e) as [ws e']. apply sessionsOfJSON_toJSON.
  - apply suggestBalancedWeek_nonempty.
Qed.

Lemma persistEffect_holds (next : list Session) (slot : option string) :
  sortedByDayStart next ->
  slotHoldsSorted JSON_stringify slot ->
  slotHoldsSorted JSON_stringify
    (persistEffect hasWindow JSON_stringify next slot).
Proof.
  intros Hn Hs. unfold persistEffect, saveSessions.
  destruct hasWindow; cbn [negb]; [|exact Hs].
  destruct (List.length next =? 0)%nat; [exact I|].
  exists next. auto.
Qed.

(** Loading what the page itself stored gives back a sorted
    collection. *)
Lemma loadSessions_sorted (slot : option string) (e : Entropy) :
  slotHoldsSorted JSON_stringify slot ->
  exists S, sessionsOfJSON
              (fst (loadSessions hasWindow JSON_parse slot e)) = Some S /\
            sortedByDayStart S.
Proof.
  intros Hs.
  assert (D : exists S,
    sessionsOfJSON (fst (defaultWeek e)) = Some S /\ sortedByDayStart S).
  { exists (fst (suggestBalancedWeek e)). split.
    - unfold defaultWeek, bind, ret.
      destruct (suggestBalancedWeek e) as [ws e'].
      apply sessionsOfJSON_toJSON.
    - apply suggestBalancedWeek_sorted. }
  destruct hasWindow eqn:W.
  - destruct slot as [raw|]; [|exact D].
    destruct Hs as (S & HS & ->). rewrite loadSessions_stored.
    exists S. split; [apply sessionsOfJSON_toJSON|exact HS].
  - exists []. split; [reflexivity|constructor].
Qed.

Lemma step_keeps_sorted (a : Action) (st : AppState) :
  sortedByDayStart (sessions st) ->
  slotHoldsSorted JSON_stringify (slot st) ->
  exists st',
    step hasWindow JSON_parse JSON_stringify a st = Some st' /\
    sortedByDayStart (sessions st') /\
    slotHoldsSorted JSON_stringify (slot st').
Proof.
  intros Hs Hl.
  destruct a as [|c| |t|s| |target|target|]; cbn [step];
    try (eexists; split; [reflexivity|]; split; assumption).
  - unfold mount.
    destruct (loadSessions_sorted (slot st) (entropy st) Hl)
      as (S & ES & HS).
    destruct (loadSessions hasWindow JSON_parse (slot st) (entropy st))
      as [loaded e']. cbn [fst] in ES. rewrite ES. cbn [obind].
    eexists. split; [reflexivity|]. split; [exact HS|].
    cbn [setSessions slot]. apply persistEffect_holds; [exact HS|].
    apply persistEffect_holds; [constructor|exact Hl].
  - eexists. split; [reflexivity|].
    unfold handleSubmit.
    destruct (match editingId st with
              | Some target => (target, entropy st)
              | None => generateId (entropy st)
              end) as [newId e'].
    cbn [resetForm setSessions sessions slot]. split.
    + apply submitSessions_sorted.
    + apply persistEffect_holds;
        [apply submitSessions_sorted|exact Hl].
  - eexists. split; [reflexivity|].
    assert (sortedByDayStart (deleteSession target (sessions st)))
      by now apply deleteSession_sorted.
    unfold handleDelete.
    destruct (editingId st) as [ed|];
      [destruct (String.eqb ed target)|];
      cbn [resetForm setSessions sessions slot];
      (split; [assumption | now apply persistEffect_holds]).
  - eexists. split; [reflexivity|].
    assert (sortedByDayStart (toggleSession target (sessions st)))
      by now apply toggleSession_sorted.
    cbn [toggleCompleted setSessions sessions slot].
    split; [assumption | now apply persistEffect_holds].
  - eexists. split; [reflexivity|].
    unfold autoBalance.
    pose proof (suggestBalancedWeek_sorted (entropy st)) as Hw.
    destruct (suggestBalancedWeek (entropy st)) as [week e'].
    cbn [fst] in Hw.
    cbn [resetForm setSessions sessions slot].
    split; [assumption | now apply persistEffect_holds].
Qed.

(** C1, amended.  From a state whose collection is sorted and whose slot
    is clear or holds what the page stored (the serialisation of a sorted
    collection), every sequence of actions of the page runs to a state of
    the same kind: after mounting (loading), submitting a new or an edited
    session, deleting, toggling and auto-balancing, in any order, the
    collection is sorted by day from Monday to Sunday and, within a day,
    by the start string in lexicographic order. *)
Theorem store_keeps_sorted (actions : list Action) (st : AppState) :
  sortedByDayStart (sessions st) ->
  slotHoldsSorted JSON_stringify (slot st) ->
  exists st',
    run hasWindow JSON_parse JSON_stringify actions st = Some st' /\
    sortedByDayStart (sessions st') /\
    slotHoldsSorted JSON_stringify (slot st').
Proof.
  revert st. induction actions as [|a actions IH]; intros st Hs Hl.
  - exists st. auto.
  - destruct (step_keeps_sorted a st Hs Hl) as (st1 & E1 & Hs1 & Hl1).
    destruct (IH st1 Hs1 Hl1) as (st2 & E2 & H2).
    exists st2. split; [|exact H2].
    cbn [run]. rewrite E1. exact E2.
Qed.
End StoreFacts.

Lemma load_after_persist_witness :
  (loadSessions true JSONText.parse
     (persistEffect true JSONText.stringify [sampleMonday; sampleTuesday]
        None) countingEntropy =
   (map Session_toJSON [sampleMonday; sampleTuesday], countingEntropy) /\
   sessionsOfJSON
     (fst (loadSessions true JSONText.parse
             (persistEffect true JSONText.stringify
                [sampleMonday; sampleTuesday] None) countingEntropy)) =
   Some [sampleMonday; sampleTuesday]) /\
  (persistEffect true JSONText.stringify [] None = None /\
   loadSessions true JSONText.parse
     (persistEffect true JSONText.stringify [] None) countingEntropy =
     defaultWeek countingEntropy /\
   sessionsOfJSON (fst (defaultWeek countingEntropy)) =
     Some (fst (suggestBalancedWeek countingEntropy)) /\
   fst (suggestBalancedWeek countingEntropy) <> []).
Proof.
  apply (load_after_persist JSONText.parse JSONText.stringify
           JSONText_parse_stringify JSONText_stringify_array_nonempty
           sampleMonday [sampleTuesday] None countingEntropy).
Defined.

(** C1, as stated, fails: [loadSessions] returns the stored array in the
    stored order.  Over a slot that holds a Tuesday session in front of a
    Monday session, mounting the page leaves the collection in that
    order. *)
Lemma mount_keeps_stored_order :
  exists st',
    run true JSONText.parse JSONText.stringify [Mount]
      (mkAppState [] DEFAULT_SESSION None
         (Some (JSONText.stringify
                  (JArr (map Session_toJSON [sampleTuesday; sampleMonday]))))
         countingEntropy) = Some st' /\
    sessions st' = [sampleTuesday; sampleMonday] /\
    ~ sortedByDayStart (sessions st').
Proof.
  eexists. split; [vm_compute; reflexivity|]. split; [reflexivity|].
  cbn [sessions]. intros H. inversion H as [|? ? _ F]; subst.
  inversion F as [|? ? L _]; subst.
  destruct L as [L|[L _]]; vm_compute in L; discriminate L.
Qed.

Lemma store_keeps_sorted_witness :
  exists st',
    run true JSONText.parse JSONText.stringify
      [Mount; HandleChange (ChangeDay Monday); HandleChange (ChangeStart "05:00");
       HandleSubmit; ToggleCompleted "id-2"; HandleDelete "id-0"]
      (initialState countingEntropy) = Some st' /\
    sortedByDayStart (sessions st') /\
    slotHoldsSorted JSONText.stringify (slot st').
Proof.
  apply (store_keeps_sorted true JSONText.parse JSONText.stringify
           JSONText_parse_stringify JSONText_stringify_array_nonempty).
  - constructor.
  - exact I.
Defined.

(** ** Completion rate *)

(** Closed facts about the percentage, by evaluation. *)
Ltac evaluate_each :=
  repeat match goal with |- _ /\ _ => split end; vm_compute; reflexivity.

(** C7: the code returns 57 for 23 completed sessions out of 40, whereas
    [100 * 23 / 40] is 57.5, which rounds to 58.  In double precision
    [23 / 40] is slightly below 0.575 and its product with 100 slightly
    below 57.5. *)
Theorem completionRate_23_of_40 :
  List.length (sampleCollection 23 40) = 40%nat /\
  List.length (filter (fun s => completed s) (sampleCollection 23 40))
    = 23%nat /\
  completionRate (sampleCollection 23 40) = 57 /\
  roundedPercent 23 40 = 58 /\
  2 * (100 * 23) = (2 * 57 + 1) * 40.
Proof. evaluate_each. Qed.

Lemma completionRate_empty : completionRate [] = 0.
Proof. reflexivity. Qed.

(** Up to 200 sessions the rate is always within [0, 100], always an
    integer nearest to the exact percentage, 100 when every session is
    completed, and equal to the exact percentage rounded half up except at
    eight exact halves (23 of 40, 29 of 200, ...), where it is one less. *)
Lemma completionPercent_up_to_200 :
  checkPercents 200
    [(23, 40); (46, 80); (69, 120); (92, 160); (29, 200); (57, 200);
     (113, 200); (115, 200)]%nat = true /\
  completionPercent 46 80 = 57 /\ roundedPercent 46 80 = 58 /\
  completionPercent 69 120 = 57 /\ roundedPercent 69 120 = 58.
Proof. evaluate_each. Qed.


(** * Further properties of the page *)

(** ** Formatting durations *)

Lemma Number_toString_whole (z : Z) :
  0 <= z <= 2 ^ 53 ->
  Number_toString (numberOfZ z) = Some (decimalDigits z).
Proof.
  intros H. unfold Number_toString.
  rewrite integerOf_numberOfZ by exact H.
  assert ((Z.abs z <=? 2 ^ 53) = true) as -> by (apply Z.leb_le; lia).
  rewrite Prim2SF_numberOfZ by exact H.
  destruct (Z.eq_dec z 0) as [->|N]; [reflexivity|].
  destruct (SF_of_whole z ltac:(lia)) as (m & -> & _). reflexivity.
Qed.

Lemma Math_floor_div_60 (a : Z) :
  0 <= a <= 2 ^ 53 ->
  Math_floor (numberOfZ a / 60) = numberOfZ (a / 60).
Proof.
  intros H.
  destruct (Z.eq_dec a 0) as [->|N0]; [vm_compute; reflexivity|].
  destruct (Z.eq_dec a (2 ^ 53)) as [->|N1]; [vm_compute; reflexivity|].
  unfold Math_floor. rewrite div_spec, Prim2SF_numberOfZ by exact H.
  change (Prim2SF 60) with (S754_finite false 8444249301319680 (-47)).
  unfold SF64div.
  destruct (SFdiv_60 a ltac:(lia)) as (Qf & Ef & -> & B & Q).
  destruct (Z.leb_spec 0 Ef); [lia|]. now rewrite Q.
Qed.

Lemma binary_normalize_scaled (z k : Z) :
  0 <= z <= 2 ^ 53 -> 0 <= k ->
  binary_normalize prec emax (z * 2 ^ k) (- k) false =
  binary_normalize prec emax z 0 false.
Proof.
  intros Hz Hk.
  destruct (Z.eq_dec z 0) as [->|N]; [reflexivity|].
  destruct (SF_of_whole z ltac:(lia)) as (m & -> & _ & V).
  pose proof (log2_safe z ltac:(lia)) as L.
  unfold exponentOf in *. set (E := Z.log2 z - 52) in *.
  assert (0 < 2 ^ k) by (apply Z.pow_pos_nonneg; lia).
  assert (P : 0 < z * 2 ^ k) by nia.
  destruct (z * 2 ^ k) as [|p|p] eqn:Ep; try lia. cbn [binary_normalize].
  apply binary_round_exact.
  - rewrite digits2_pos_log2, <- Ep, Z.log2_mul_pow2 by lia.
    rewrite fexp_whole by lia. subst E. lia.
  - unfold emax, prec. lia.
  - rewrite <- Ep. unfold holds in V.
    destruct (Z.le_gt_cases E 0) as [C|C].
    + rewrite Z.min_l, Z.sub_diag, Z.pow_0_r, Z.mul_1_r in V by lia.
      rewrite V. destruct (Z.le_gt_cases (- k) E) as [C'|C'].
      * rewrite Z.min_l, Z.sub_diag, Z.pow_0_r, Z.mul_1_r by lia.
        rewrite <- Z.mul_assoc, <- Z.pow_add_r by lia.
        f_equal. f_equal. lia.
      * rewrite Z.min_r, Z.sub_diag, Z.pow_0_r, Z.mul_1_r by lia.
        rewrite <- Z.mul_assoc, <- Z.pow_add_r by lia.
        f_equal. f_equal. lia.
    + rewrite Z.min_r in V by lia.
      replace (0 - 0) with 0 in V by lia.
      rewrite Z.pow_0_r, Z.mul_1_r, Z.sub_0_r in V.
      rewrite Z.min_l, Z.sub_diag, Z.pow_0_r, Z.mul_1_r by lia.
      rewrite <- V, <- Z.mul_assoc, <- Z.pow_add_r by lia.
      f_equal. f_equal. lia.
Qed.

Lemma Number_remainder_60 (a : Z) :
  0 <= a <= 2 ^ 53 ->
  Number_remainder (numberOfZ a) 60 = numberOfZ (a mod 60).
Proof.
  intros H. unfold Number_remainder.
  rewrite Prim2SF_numberOfZ by exact H.
  destruct (Z.eq_dec a 0) as [->|N]; [reflexivity|].
  destruct (SF_of_whole a ltac:(lia)) as (m & -> & _ & V).
  pose proof (Z.mod_pos_bound a 60 ltac:(lia)) as RB.
  unfold holds in V. set (E := exponentOf a) in *.
  cbv zeta. unfold numberOfZ. f_equal.
  destruct (Z.le_gt_cases 0 E) as [C|C].
  - rewrite Z.min_r, Z.sub_0_r, Z.sub_diag, Z.pow_0_r, Z.mul_1_r in V by lia.
    rewrite Z.max_l, Z.add_0_r, V by lia.
    rewrite Z.pow_0_r, Z.mul_1_r. reflexivity.
  - rewrite Z.min_l, Z.sub_diag, Z.pow_0_r, Z.mul_1_r in V by lia.
    rewrite Z.max_r by lia.
    replace (E + - E) with 0 by lia. rewrite Z.pow_0_r, Z.mul_1_r, V.
    replace (0 - E) with (- E) by lia.
    assert (0 < 2 ^ (- E)) by (apply Z.pow_pos_nonneg; lia).
    rewrite Z.mul_mod_distr_r by lia.
    apply binary_normalize_scaled; [|lia].
    change (2 ^ 53) with 9007199254740992. lia.
Qed.

Lemma formatDuration_whole (a : Z) :
  0 <= a <= 2 ^ 53 ->
  formatDuration (numberOfZ a) = Some (durationText a).
Proof.
  intros H. unfold formatDuration, durationText.
  assert (S53 : 60 <= 2 ^ 53) by (change (2 ^ 53) with 9007199254740992; lia).
  change 60%float with (numberOfZ 60).
  rewrite numberOfZ_ltb by lia.
  destruct (Z.ltb_spec a 60) as [L|L].
  - now rewrite Number_toString_whole.
  - change (numberOfZ 60) with 60%float. cbv zeta.
    pose proof (Z.div_mod a 60 ltac:(lia)) as D.
    pose proof (Z.mod_pos_bound a 60 ltac:(lia)) as B.
    assert (0 <= a / 60 <= 2 ^ 53).
    { split; [apply Z.div_pos; lia|].
      apply Z.le_trans with a; [|lia]. apply Z.div_le_upper_bound; lia. }
    rewrite Math_floor_div_60, Number_remainder_60 by exact H.
    change 0%float with (numberOfZ 0). change 1%float with (numberOfZ 1).
    rewrite numberOfZ_eqb, numberOfZ_ltb by lia.
    rewrite !Number_toString_whole by lia.
    destruct (a mod 60 =? 0); reflexivity.
Qed.

Lemma readDuration_durationText (minutes : Z) :
  readDuration (durationText minutes) = Some minutes.
Proof.
  unfold durationText, readDuration.
  change decimalDigits with JSONText.printNumber.
  destruct (Z.ltb_spec minutes 60) as [L|L].
  - rewrite parseNumber_printNumber by reflexivity. reflexivity.
  - pose proof (Z.div_mod minutes 60 ltac:(lia)) as D.
    pose proof (Z.mod_pos_bound minutes 60 ltac:(lia)) as B.
    destruct (Z.eqb_spec (minutes mod 60) 0) as [E|E].
    + destruct (1 <? minutes / 60);
        (rewrite parseNumber_printNumber by reflexivity);
        cbn; f_equal; lia.
    + rewrite parseNumber_printNumber by reflexivity.
      cbn [append String.eqb Ascii.eqb Bool.eqb orb andb].
      rewrite parseNumber_printNumber by reflexivity.
      cbn. f_equal. lia.
Qed.

(** Past [2^53] the quotient by 60 is no longer exact:
    [67553994410557496 / 60] is [1125899906842624.93...], which binary64
    rounds up to [1125899906842625], and that is the number of hours
    shown. *)
Lemma formatDuration_past_2_53 :
  2 ^ 53 < 67553994410557496 /\
  formatDuration (numberOfZ 67553994410557496) =
    Some "1125899906842625h 56m" /\
  durationText 67553994410557496 = "1125899906842624h 56m".
Proof.
  split; [reflexivity|]. split; vm_compute; reflexivity.
Qed.

(** X1.  On whole numbers of minutes from 0 to [2^53], [formatDuration]
    shows what exact arithmetic gives, and shows different durations as
    different strings: whatever the branch (minutes, whole hours, hours and
    minutes), the text determines the duration. *)
Theorem formatDuration_injective (a b : Z) :
  0 <= a <= 2 ^ 53 -> 0 <= b <= 2 ^ 53 -> a <> b ->
  formatDuration (numberOfZ a) = Some (durationText a) /\
  formatDuration (numberOfZ b) = Some (durationText b) /\
  formatDuration (numberOfZ a) <> formatDuration (numberOfZ b).
Proof.
  intros Ha Hb N.
  rewrite !formatDuration_whole by assumption.
  split; [reflexivity|]. split; [reflexivity|].
  intros H. injection H as H.
  pose proof (readDuration_durationText a) as R.
  rewrite H, readDuration_durationText in R. congruence.
Qed.

Lemma formatDuration_injective_witness :
  formatDuration (numberOfZ 75) = Some "1h 15m" /\
  formatDuration (numberOfZ 120) = Some "2 hrs" /\
  formatDuration (numberOfZ 75) <> formatDuration (numberOfZ 120).
Proof.
  apply (formatDuration_injective 75 120).
  - change (2 ^ 53) with 9007199254740992. lia.
  - change (2 ^ 53) with 9007199254740992. lia.
  - discriminate.
Defined.

(** ** Toggling and deleting *)

Lemma toggle_twice_session (target : string) (s : Session) :
  (fun session =>
     if String.eqb (id session) target
     then mkSession (id session) (name session) (focus session)
            (intensity session) (day session) (start session)
            (duration session) (location session) (notes session)
            (negb (completed session))
     else session)
    ((fun session =>
        if String.eqb (id session) target
        then mkSession (id session) (name session) (focus session)
               (intensity session) (day session) (start session)
               (duration session) (location session) (notes session)
               (negb (completed session))
        else session) s) = s.
Proof.
  cbv beta. destruct (String.eqb (id s) target) eqn:E.
  - cbn [id]. rewrite E. destruct s as [i n f t d st m l o c]. cbn.
    now rewrite negb_involutive.
  - now rewrite E.
Qed.

(** X2.  Toggling the same id twice gives back the collection, whether or
    not a session has that id; in the browser the slot is then what it was
    after the first write of the same collection, and the draft and the
    editing id are untouched throughout. *)
Theorem toggleCompleted_twice (JSON_stringify : JSON -> string)
    (target : string) (st : AppState) :
  toggleSession target (toggleSession target (sessions st)) = sessions st /\
  sessions (toggleCompleted true JSON_stringify target
              (toggleCompleted true JSON_stringify target st)) = sessions st /\
  slot (toggleCompleted true JSON_stringify target
          (toggleCompleted true JSON_stringify target st)) =
    persistEffect true JSON_stringify (sessions st) (slot st) /\
  draft (toggleCompleted true JSON_stringify target
           (toggleCompleted true JSON_stringify target st)) = draft st /\
  editingId (toggleCompleted true JSON_stringify target
               (toggleCompleted true JSON_stringify target st)) =
    editingId st.
Proof.
  assert (T : toggleSession target (toggleSession target (sessions st)) =
              sessions st).
  { unfold toggleSession. rewrite map_map.
    rewrite <- (map_id (sessions st)) at 2.
    apply map_ext. intros s. apply toggle_twice_session. }
  split; [exact T|].
  unfold toggleCompleted, setSessions. cbn [sessions slot draft editingId].
  rewrite T. repeat split.
Qed.

Lemma deleteSession_In (target : string) (l : list Session) (s : Session) :
  In s (deleteSession target l) <-> In s l /\ id s <> target.
Proof.
  unfold deleteSession. rewrite filter_In, negb_true_iff, String.eqb_neq.
  reflexivity.
Qed.

(** X3.  [handleDelete] removes every session with the given id and keeps
    the others; deleting again changes nothing more.  When the deleted id
    was the one being edited the form is reset, otherwise the draft and the
    editing id stay; either way the editing id afterwards is never the
    deleted one. *)
Theorem handleDelete_removes (JSON_stringify : JSON -> string)
    (hasWindow : bool) (target : string) (st : AppState) :
  let st' := handleDelete hasWindow JSON_stringify target st in
  (forall s, In s (sessions st') <-> In s (sessions st) /\ id s <> target) /\
  deleteSession target (sessions st') = sessions st' /\
  (List.length (sessions st') <= List.length (sessions st))%nat /\
  editingId st' <> Some target /\
  (editingId st = Some target ->
   editingId st' = None /\ draft st' = DEFAULT_SESSION) /\
  (editingId st <> Some target ->
   editingId st' = editingId st /\ draft st' = draft st).
Proof.
  cbv zeta.
  assert (S : sessions (handleDelete hasWindow JSON_stringify target st) =
              deleteSession target (sessions st)).
  { unfold handleDelete. destruct (editingId st) as [e|];
      [destruct (String.eqb e target)|]; reflexivity. }
  rewrite S. split; [intros s; apply deleteSession_In|].
  split.
  { apply filter_unchanged. intros s Hs.
    apply deleteSession_In in Hs as [_ Hs].
    apply negb_true_iff, String.eqb_neq, Hs. }
  split; [apply filter_length_le|].
  unfold handleDelete.
  destruct (editingId st) as [e|] eqn:E.
  - destruct (String.eqb_spec e target) as [->|N];
      cbn [resetForm setSessions editingId draft].
    + split; [discriminate|]. split; [auto|]. intros H. congruence.
    + split; [congruence|]. split; [congruence|]. auto.
  - cbn [setSessions editingId draft]. rewrite E.
    split; [discriminate|]. split; [discriminate|]. auto.
Qed.

(** ** The sort of [handleSubmit] is stable *)

Lemma sameSlot_compare (x y : Session) :
  sameSlot x y = true -> compareSessions x y = 0 /\ compareSessions y x = 0.
Proof.
  unfold sameSlot, compareSessions. intros H.
  apply andb_true_iff in H as [D T].
  apply String.eqb_eq in T.
  assert (D' : DayKey_eqb (day y) (day x) = true).
  { apply DayKey_eqb_eq. apply DayKey_eqb_eq in D. congruence. }
  rewrite D, D', T. unfold localeCompare.
  now rewrite string_compare_refl.
Qed.

Lemma sameSlot_trans (k x y : Session) :
  sameSlot k x = true -> sameSlot k y = true -> sameSlot x y = true.
Proof.
  unfold sameSlot. intros H1 H2.
  apply andb_true_iff in H1 as [D1 T1]. apply andb_true_iff in H2 as [D2 T2].
  apply DayKey_eqb_eq in D1, D2. apply String.eqb_eq in T1, T2.
  apply andb_true_iff. split.
  - apply DayKey_eqb_eq. congruence.
  - apply String.eqb_eq. congruence.
Qed.

Lemma filter_insertSorted_slot (k x : Session) (l : list Session) :
  filter (sameSlot k) (insertSorted compareSessions x l) =
  if sameSlot k x then x :: filter (sameSlot k) l
  else filter (sameSlot k) l.
Proof.
  induction l as [|y l IH]; cbn [insertSorted filter].
  - destruct (sameSlot k x); reflexivity.
  - destruct (Z.leb_spec (compareSessions x y) 0) as [L|L].
    + cbn [filter]. destruct (sameSlot k x); reflexivity.
    + cbn [filter]. rewrite IH.
      destruct (sameSlot k x) eqn:Kx; [|reflexivity].
      destruct (sameSlot k y) eqn:Ky; [|reflexivity].
      pose proof (sameSlot_compare x y (sameSlot_trans k x y Kx Ky)). lia.
Qed.

(** X4.  The sort in [handleSubmit] is stable: the sessions that share a
    day and a start time come out in the order in which they went in. *)
Theorem sortSessions_stable (k : Session) (l : list Session) :
  filter (sameSlot k) (sortSessions l) = filter (sameSlot k) l.
Proof.
  unfold sortSessions. induction l as [|x l IH]; [reflexivity|].
  cbn [Array_sort filter]. rewrite filter_insertSorted_slot, IH.
  reflexivity.
Qed.

(** ** Totals *)

Lemma exactMinutes_concat (ls : list (list Session)) :
  exactMinutes (List.concat ls) = fold_right Z.add 0 (map exactMinutes ls).
Proof.
  induction ls as [|l ls IH]; [reflexivity|].
  cbn [List.concat map fold_right]. rewrite exactMinutes_app, IH.
  reflexivity.
Qed.

Lemma dayBucket_exact (d : DayKey) (l : list Session) :
  Forall (fun s => 0 <= duration s) l ->
  Forall (fun s => 0 <= duration s) (dayBucket d l) /\
  0 <= exactMinutes (dayBucket d l) <= exactMinutes l.
Proof.
  intros H. unfold dayBucket.
  pose proof (Array_sort_perm compareStart
    (filter (fun session => DayKey_eqb (day session) d) l)) as P.
  pose proof (filter_nonneg (fun session => DayKey_eqb (day session) d) l H)
    as F.
  split.
  - eapply Permutation_Forall; [symmetry; exact P|exact F].
  - rewrite (exactMinutes_perm _ _ P).
    pose proof (exactMinutes_filter_le
      (fun session => DayKey_eqb (day session) d)
      (fun session => DayKey_eqb (day session) d) l H (fun s Hs => Hs)).
    pose proof (exactMinutes_nonneg _ F). lia.
Qed.

(** X5.  When the durations are non-negative whole numbers whose sum is at
    most [2^53], each of the seven totals in the column headers of the
    weekly schedule is exactly the sum of the durations of its day, and the
    seven add up to the weekly volume in the page header. *)
Theorem dayTotals_sum_to_weeklyMinutes (sessions : list Session) :
  Forall (fun s => 0 <= duration s) sessions ->
  exactMinutes sessions <= 2 ^ 53 ->
  List.length (dayTotals sessions) = 7%nat /\
  dayTotals sessions =
    map (fun g => numberOfZ (exactMinutes (group_sessions g)))
      (byDay sessions) /\
  fold_right Z.add 0
    (map (fun g => exactMinutes (group_sessions g)) (byDay sessions)) =
    exactMinutes sessions /\
  sumNumbers (dayTotals sessions) = weeklyMinutes sessions.
Proof.
  intros H B.
  assert (D : dayTotals sessions =
    map (fun g => numberOfZ (exactMinutes (group_sessions g)))
      (byDay sessions)).
  { unfold dayTotals. apply map_ext_in. intros g Hg.
    unfold byDay in Hg. apply in_map_iff in Hg as (d & <- & _).
    cbn [group_sessions].
    destruct (dayBucket_exact d sessions H) as [N L].
    apply sumDuration_exact; [exact N|lia]. }
  assert (S : fold_right Z.add 0
    (map (fun g => exactMinutes (group_sessions g)) (byDay sessions)) =
    exactMinutes sessions).
  { unfold byDay. rewrite map_map. cbn [group_sessions].
    rewrite <- (map_map (fun d => dayBucket d sessions) exactMinutes).
    rewrite <- exactMinutes_concat, buckets_concat.
    apply exactMinutes_perm, sortSessions_perm. }
  split; [reflexivity|]. split; [exact D|]. split; [exact S|].
  rewrite D.
  rewrite <- (map_map (fun g => exactMinutes (group_sessions g)) numberOfZ).
  rewrite sumNumbers_exact.
  - rewrite S. symmetry. now apply sumDuration_exact.
  - rewrite Forall_map, Forall_forall. intros g Hg.
    unfold byDay in Hg. apply in_map_iff in Hg as (d & <- & _).
    cbn [group_sessions]. destruct (dayBucket_exact d sessions H). lia.
  - rewrite S. exact B.
Qed.

Lemma dayTotals_sum_to_weeklyMinutes_witness :
  List.length (dayTotals [sampleMonday; sampleTuesday]) = 7%nat /\
  dayTotals [sampleMonday; sampleTuesday] =
    map (fun g => numberOfZ (exactMinutes (group_sessions g)))
      (byDay [sampleMonday; sampleTuesday]) /\
  fold_right Z.add 0
    (map (fun g => exactMinutes (group_sessions g))
       (byDay [sampleMonday; sampleTuesday])) =
    exactMinutes [sampleMonday; sampleTuesday] /\
  sumNumbers (dayTotals [sampleMonday; sampleTuesday]) =
    weeklyMinutes [sampleMonday; sampleTuesday].
Proof.
  apply (dayTotals_sum_to_weeklyMinutes [sampleMonday; sampleTuesday]).
  - repeat constructor; discriminate.
  - vm_compute. discriminate.
Defined.

Lemma exactCompleted_sum (sessions : list Session) :
  fold_right Z.add 0
    (map (fun f => exactCompleted f sessions) TRAINING_FOCI) =
  exactMinutes (filter (fun s => completed s) sessions).
Proof.
  unfold TRAINING_FOCI, exactCompleted. cbn [map fold_right].
  induction sessions as [|x l IH]; [reflexivity|].
  cbn [filter].
  destruct (focus x), (completed x); cbn [TrainingFocus_eqb andb];
    rewrite ?exactMinutes_cons; lia.
Qed.

(** X6.  When the durations are non-negative whole numbers whose sum is at
    most [2^53], every entry of [focusVolume] has [0 <= completed <= total],
    its completed minutes being exactly the sum over the completed sessions
    of its category, and the completed minutes of the six entries add up to
    the minutes of the completed sessions. *)
Theorem focusVolume_completed_within_total (sessions : list Session) :
  Forall (fun s => 0 <= duration s) sessions ->
  exactMinutes sessions <= 2 ^ 53 ->
  map entry_completed (focusVolume sessions) =
    map (fun f => numberOfZ (exactCompleted f sessions)) TRAINING_FOCI /\
  Forall (fun f => 0 <= exactCompleted f sessions <= exactTotal f sessions)
    TRAINING_FOCI /\
  Forall (fun e => (0 <=? entry_completed e)%float = true /\
                   (entry_completed e <=? entry_total e)%float = true)
    (focusVolume sessions) /\
  fold_right Z.add 0
    (map (fun f => exactCompleted f sessions) TRAINING_FOCI) =
    exactMinutes (filter (fun s => completed s) sessions) /\
  sumNumbers (map entry_completed (focusVolume sessions)) =
    sumDuration (filter (fun s => completed s) sessions).
Proof.
  intros H B.
  destruct (focusVolume_exact sessions H B) as [T C].
  pose proof (exactCompleted_sum sessions) as S.
  pose proof (exactMinutes_filter_le (fun _ => true)
                (fun s => completed s) sessions H (fun _ _ => eq_refl))
    as [L _].
  assert (K : exactMinutes (filter (fun _ : Session => true) sessions)
              <= exactMinutes sessions).
  { pose proof (exactMinutes_filter_le (fun _ => true) (fun _ => true)
                  sessions H (fun _ _ => eq_refl)). lia. }
  split; [exact C|]. split; [|split; [|split; [exact S|]]].
  - rewrite Forall_forall. intros f _.
    pose proof (exactTotal_bounds f sessions H). lia.
  - rewrite Forall_forall. intros e He.
    unfold focusVolume in He. apply in_map_iff in He as (f & <- & _).
    cbn [entry_completed entry_total].
    pose proof (exactTotal_bounds f sessions H) as Bf.
    unfold exactCompleted, exactTotal in Bf.
    rewrite !sumDuration_exact by (try apply filter_nonneg; try lia; exact H).
    change 0%float with (numberOfZ 0).
    rewrite !numberOfZ_leb by lia. split; apply Z.leb_le; lia.
  - rewrite C.
    rewrite <- (map_map (fun f => exactCompleted f sessions) numberOfZ).
    rewrite sumNumbers_exact.
    + rewrite S. symmetry.
      apply sumDuration_exact; [now apply filter_nonneg|lia].
    + rewrite Forall_map, Forall_forall. intros f _.
      pose proof (exactTotal_bounds f sessions H). lia.
    + rewrite S. lia.
Qed.

Lemma focusVolume_completed_within_total_witness :
  map entry_completed (focusVolume [sampleMonday; sampleTuesday]) =
    map (fun f => numberOfZ (exactCompleted f [sampleMonday; sampleTuesday]))
      TRAINING_FOCI /\
  Forall (fun f => 0 <= exactCompleted f [sampleMonday; sampleTuesday]
                     <= exactTotal f [sampleMonday; sampleTuesday])
    TRAINING_FOCI /\
  Forall (fun e => (0 <=? entry_completed e)%float = true /\
                   (entry_completed e <=? entry_total e)%float = true)
    (focusVolume [sampleMonday; sampleTuesday]) /\
  fold_right Z.add 0
    (map (fun f => exactCompleted f [sampleMonday; sampleTuesday])
       TRAINING_FOCI) =
    exactMinutes
      (filter (fun s => completed s) [sampleMonday; sampleTuesday]) /\
  sumNumbers
    (map entry_completed (focusVolume [sampleMonday; sampleTuesday])) =
    sumDuration (filter (fun s => completed s) [sampleMonday; sampleTuesday]).
Proof.
  apply (focusVolume_completed_within_total [sampleMonday; sampleTuesday]).
  - repeat constructor; discriminate.
  - vm_compute. discriminate.
Defined.

(** ** Creating and updating *)

Lemma insertSorted_front {A : Type} (cmp : A -> A -> Z) (a : A)
    (l : list A) :
  Forall (fun y => cmp a y <= 0) l -> insertSorted cmp a l = a :: l.
Proof.
  intros H. destruct H as [|y l Hy _]; [reflexivity|]. cbn [insertSorted].
  destruct (Z.leb_spec (cmp a y) 0); [reflexivity|lia].
Qed.

(** Sorting a sorted array with one more element at its end puts that
    element behind the elements that are no later, in front of the rest. *)
Lemma Array_sort_snoc {A : Type} (cmp : A -> A -> Z) (x : A) (l : list A) :
  (forall a b c, cmp a b <= 0 -> cmp b c <= 0 -> cmp a c <= 0) ->
  StronglySorted (fun a b => cmp a b <= 0) l ->
  exists l1 l2,
    l = (l1 ++ l2)%list /\
    Array_sort cmp (l ++ [x]) = (l1 ++ x :: l2)%list /\
    Forall (fun y => cmp y x <= 0) l1 /\
    Forall (fun y => 0 < cmp y x) l2.
Proof.
  intros Htrans. induction 1 as [|a l Hl IH Ha].
  - exists [], []. repeat split; constructor.
  - destruct IH as (l1 & l2 & E & S & H1 & H2).
    cbn [app Array_sort]. rewrite S.
    destruct l1 as [|y l1].
    + cbn [app] in *. subst l. cbn [insertSorted].
      destruct (Z.leb_spec (cmp a x) 0) as [L|L].
      * exists [a], l2. repeat split; auto.
      * exists [], (a :: l2). repeat split; auto.
        cbn [app]. f_equal. now apply insertSorted_front.
    + exists (a :: y :: l1), l2. subst l. cbn [app insertSorted] in *.
      inversion Ha as [|? ? Hay _]; subst.
      inversion H1 as [|? ? Hyx _]; subst.
      destruct (Z.leb_spec (cmp a y) 0); [|lia].
      repeat split; auto. constructor; eauto.
Qed.

Lemma compareSessions_trans (a b c : Session) :
  compareSessions a b <= 0 -> compareSessions b c <= 0 ->
  compareSessions a c <= 0.
Proof. rewrite !compareSessions_le. apply dayStartLe_trans. Qed.

Lemma compareSessions_gt (a b : Session) :
  0 < compareSessions a b <-> ~ dayStartLe a b.
Proof. rewrite <- compareSessions_le. lia. Qed.

(** X7.  Submitting the form while not editing adds exactly one session to
    a sorted collection: the draft under the next identifier drawn, placed
    behind every session that is no later in (day, start) order and in front
    of every later one; the other sessions keep their order.  The form is
    reset and one identifier is consumed. *)
Theorem handleSubmit_creates (hasWindow : bool)
    (JSON_stringify : JSON -> string) (st : AppState) :
  editingId st = None ->
  sortedByDayStart (sessions st) ->
  let st' := handleSubmit hasWindow JSON_stringify st in
  let payload :=
    makePayload (fresh (entropy st) (drawn (entropy st))) (draft st) in
  (exists l1 l2,
     sessions st = (l1 ++ l2)%list /\
     sessions st' = (l1 ++ payload :: l2)%list /\
     Forall (fun s => dayStartLe s payload) l1 /\
     Forall (fun s => ~ dayStartLe s payload) l2) /\
  List.length (sessions st') = S (List.length (sessions st)) /\
  draft st' = DEFAULT_SESSION /\ editingId st' = None /\
  drawn (entropy st') = S (drawn (entropy st)).
Proof.
  intros E Hs. cbv zeta.
  unfold handleSubmit. rewrite E. unfold generateId.
  cbn [resetForm setSessions sessions draft editingId entropy drawn].
  unfold submitSessions, sortSessions.
  destruct (Array_sort_snoc compareSessions
              (makePayload (fresh (entropy st) (drawn (entropy st)))
                 (draft st))
              (sessions st) compareSessions_trans)
    as (l1 & l2 & E1 & E2 & H1 & H2).
  { eapply StronglySorted_impl; [|exact Hs].
    intros a b. apply compareSessions_le. }
  split; [|split; [|auto]].
  - exists l1, l2. split; [exact E1|]. split; [exact E2|]. split.
    + eapply Forall_impl; [|exact H1]. intros s. apply compareSessions_le.
    + eapply Forall_impl; [|exact H2]. intros s. apply compareSessions_gt.
  - rewrite E2, E1, !length_app. cbn [List.length]. lia.
Qed.

Lemma handleSubmit_creates_witness :
  let st := mkAppState [sampleMonday; sampleTuesday] DEFAULT_SESSION None
              None countingEntropy in
  let st' := handleSubmit true JSONText.stringify st in
  let payload :=
    makePayload (fresh (entropy st) (drawn (entropy st))) (draft st) in
  (exists l1 l2,
     sessions st = (l1 ++ l2)%list /\
     sessions st' = (l1 ++ payload :: l2)%list /\
     Forall (fun s => dayStartLe s payload) l1 /\
     Forall (fun s => ~ dayStartLe s payload) l2) /\
  List.length (sessions st') = S (List.length (sessions st)) /\
  draft st' = DEFAULT_SESSION /\ editingId st' = None /\
  drawn (entropy st') = S (drawn (entropy st)).
Proof.
  apply (handleSubmit_creates true JSONText.stringify
           (mkAppState [sampleMonday; sampleTuesday] DEFAULT_SESSION None
              None countingEntropy)).
  - reflexivity.
  - repeat constructor.
Defined.

Lemma mergeSession_makePayload (session : Session) (newId : string)
    (d : Draft) :
  mergeSession session (makePayload newId d) = makePayload newId d.
Proof. reflexivity. Qed.

Lemma map_replace_ids (target : string) (p : Session) (l : list Session) :
  id p = target ->
  map id (map (fun session =>
                 if String.eqb (id session) target then p else session) l)
  = map id l.
Proof.
  intros Hp. rewrite map_map. apply map_ext. intros s.
  destruct (String.eqb_spec (id s) target); congruence.
Qed.

(** X8.  Submitting the form while editing a (non-empty) id keeps the ids
    of the collection and its size and draws no identifier: every session
    with the edited id now is the draft under that id, and every other
    session is kept as it was.  The form is reset. *)
Theorem handleSubmit_updates (hasWindow : bool)
    (JSON_stringify : JSON -> string) (target : string) (st : AppState) :
  editingId st = Some target ->
  target <> EmptyString ->
  let st' := handleSubmit hasWindow JSON_stringify st in
  Permutation (map id (sessions st')) (map id (sessions st)) /\
  List.length (sessions st') = List.length (sessions st) /\
  (forall s, In s (sessions st') -> id s = target ->
             s = makePayload target (draft st)) /\
  (forall s, id s <> target ->
             (In s (sessions st') <-> In s (sessions st))) /\
  entropy st' = entropy st /\
  draft st' = DEFAULT_SESSION /\ editingId st' = None.
Proof.
  intros E N. cbv zeta. unfold handleSubmit. rewrite E.
  cbn [resetForm setSessions sessions draft editingId entropy].
  unfold submitSessions. apply String.eqb_neq in N. rewrite N. cbn [negb].
  set (p := makePayload target (draft st)).
  set (next := map (fun session =>
                      if String.eqb (id session) target
                      then mergeSession session p else session)
                 (sessions st)).
  assert (Hnext : next =
                  map (fun session =>
                         if String.eqb (id session) target then p
                         else session) (sessions st)) by reflexivity.
  pose proof (sortSessions_perm next) as P.
  split; [|split; [|split; [|split; [|auto]]]].
  - rewrite (Permutation_map id P), Hnext.
    now rewrite map_replace_ids.
  - rewrite (Permutation_length P). apply length_map.
  - intros s Hs Hid. apply (Permutation_in _ P) in Hs.
    rewrite Hnext in Hs. apply in_map_iff in Hs as (x & Hx & _).
    destruct (String.eqb_spec (id x) target); congruence.
  - intros s Hid. split; intros Hs.
    + apply (Permutation_in _ P) in Hs.
      rewrite Hnext in Hs. apply in_map_iff in Hs as (x & Hx & Hin).
      destruct (String.eqb_spec (id x) target) as [Ex|Ex].
      * subst s. now elim Hid.
      * now subst s.
    + apply (Permutation_in _ (Permutation_sym P)).
      rewrite Hnext. apply in_map_iff. exists s. split; [|exact Hs].
      destruct (String.eqb_spec (id s) target); congruence.
Qed.

Lemma handleSubmit_updates_witness :
  let st := mkAppState [sampleMonday; sampleTuesday] DEFAULT_SESSION
              (Some "a") None countingEntropy in
  let st' := handleSubmit true JSONText.stringify st in
  Permutation (map id (sessions st')) (map id (sessions st)) /\
  List.length (sessions st') = List.length (sessions st) /\
  (forall s, In s (sessions st') -> id s = "a" ->
             s = makePayload "a" (draft st)) /\
  (forall s, id s <> "a" ->
             (In s (sessions st') <-> In s (sessions st))) /\
  entropy st' = entropy st /\
  draft st' = DEFAULT_SESSION /\ editingId st' = None.
Proof.
  apply (handleSubmit_updates true JSONText.stringify "a"
           (mkAppState [sampleMonday; sampleTuesday] DEFAULT_SESSION
              (Some "a") None countingEntropy)).
  - reflexivity.
  - discriminate.
Defined.

(** ** Identifiers stay unique *)

Lemma deleteSession_ids_NoDup (target : string) (prev : list Session) :
  NoDup (map id prev) -> NoDup (map id (deleteSession target prev)).
Proof.
  unfold deleteSession.
  induction prev as [|x prev IH]; cbn [map filter]; [auto|].
  intros H. inversion H as [|? ? Hx Hl]; subst.
  destruct (negb (String.eqb (id x) target)); [|auto].
  cbn [map]. constructor; [|auto].
  intros Hin. apply Hx. apply in_map_iff in Hin as (y & Hy & Hin).
  apply in_map_iff. exists y. split; [exact Hy|].
  now apply filter_In in Hin.
Qed.

Lemma toggleSession_ids (target : string) (l : list Session) :
  map id (toggleSession target l) = map id l.
Proof.
  unfold toggleSession. rewrite map_map. apply map_ext. intros s.
  now destruct (String.eqb (id s) target).
Qed.

(** X9.  The updaters keep the ids of the collection pairwise distinct:
    deleting and toggling always do, updating does for a non-empty editing
    id, and creating does whenever the new id is not one already in the
    collection. *)
Theorem updaters_keep_ids_distinct (target newId : string) (d : Draft)
    (prev : list Session) :
  NoDup (map id prev) ->
  NoDup (map id (deleteSession target prev)) /\
  NoDup (map id (toggleSession target prev)) /\
  (target <> EmptyString ->
   NoDup (map id (submitSessions (Some target) (makePayload target d) prev)))
  /\
  (~ In newId (map id prev) ->
   NoDup (map id (submitSessions None (makePayload newId d) prev))).
Proof.
  intros H.
  split; [now apply deleteSession_ids_NoDup|].
  split; [now rewrite toggleSession_ids|].
  split.
  - intros N. unfold submitSessions.
    apply String.eqb_neq in N. rewrite N. cbn [negb].
    eapply Permutation_NoDup.
    + symmetry. apply Permutation_map. apply sortSessions_perm.
    + erewrite map_ext
        with (g := fun session =>
                     if String.eqb (id session) target
                     then makePayload target d else session)
        by reflexivity.
      now rewrite map_replace_ids.
  - intros Hi. unfold submitSessions.
    eapply Permutation_NoDup.
    + symmetry. apply Permutation_map. apply sortSessions_perm.
    + rewrite map_app. cbn [map makePayload id].
      eapply Permutation_NoDup; [apply Permutation_cons_append|].
      constructor; assumption.
Qed.

Lemma updaters_keep_ids_distinct_witness :
  NoDup (map id (deleteSession "a" [sampleMonday; sampleTuesday])) /\
  NoDup (map id (toggleSession "a" [sampleMonday; sampleTuesday])) /\
  ("a" <> EmptyString ->
   NoDup (map id (submitSessions (Some "a")
                    (makePayload "a" DEFAULT_SESSION)
                    [sampleMonday; sampleTuesday]))) /\
  (~ In "c" (map id [sampleMonday; sampleTuesday]) ->
   NoDup (map id (submitSessions None (makePayload "c" DEFAULT_SESSION)
                    [sampleMonday; sampleTuesday]))).
Proof.
  apply (updaters_keep_ids_distinct "a" "c" DEFAULT_SESSION
           [sampleMonday; sampleTuesday]).
  repeat constructor; cbn; intuition discriminate.
Defined.

(** With an editing id that is the empty string, [handleSubmit] appends
    the draft under that id even when a session already has it. *)
Lemma empty_editing_id_duplicates :
  NoDup (map id [setId EmptyString sampleMonday]) /\
  ~ NoDup (map id (submitSessions (Some EmptyString)
                     (makePayload EmptyString DEFAULT_SESSION)
                     [setId EmptyString sampleMonday])).
Proof.
  split; [repeat constructor; intros []|].
  vm_compute. intros H. inversion H as [|? ? Hx _]; subst.
  apply Hx. now left.
Qed.

Lemma seeded_ids (e : Entropy) :
  map id (fst (suggestBalancedWeek e)) =
  map (fun k => fresh e (drawn e + k)%nat) (seq 0 6).
Proof.
  destruct e as [f n].
  cbv [suggestBalancedWeek mapWithIndex seedSession bind ret generateId
       firstn SESSION_TEMPLATES fst snd fresh drawn].
  cbn [map id seq].
  repeat (apply f_equal2; [apply f_equal; lia|]). reflexivity.
Qed.

(** X10.  When the random source does not repeat itself, the six sessions
    of a seeded week have pairwise distinct ids, none of them among the ids
    drawn before. *)
Theorem suggestBalancedWeek_ids_distinct (e : Entropy) :
  (forall i j, fresh e i = fresh e j -> i = j) ->
  NoDup (map id (fst (suggestBalancedWeek e))) /\
  (forall k, (k < drawn e)%nat ->
             ~ In (fresh e k) (map id (fst (suggestBalancedWeek e)))).
Proof.
  intros Inj. rewrite seeded_ids. split.
  - apply Injective_map_NoDup; [|apply seq_NoDup].
    intros a b Hab. apply Inj in Hab. lia.
  - intros k Hk Hin. apply in_map_iff in Hin as (j & Hj & _).
    apply Inj in Hj. lia.
Qed.

Lemma indexKey_injective (i j : nat) : indexKey i = indexKey j -> i = j.
Proof.
  unfold indexKey. intros H.
  assert (U : Nat.to_uint i = Nat.to_uint j).
  { pose proof (NilEmpty.usu (Nat.to_uint i)) as Hi.
    pose proof (NilEmpty.usu (Nat.to_uint j)) as Hj.
    rewrite H in Hi. congruence. }
  apply (f_equal Nat.of_uint) in U.
  now rewrite !DecimalNat.Unsigned.of_to in U.
Qed.

Lemma suggestBalancedWeek_ids_distinct_witness :
  NoDup (map id (fst (suggestBalancedWeek countingEntropy))) /\
  (forall k, (k < drawn countingEntropy)%nat ->
     ~ In (fresh countingEntropy k)
          (map id (fst (suggestBalancedWeek countingEntropy)))).
Proof.
  apply (suggestBalancedWeek_ids_distinct countingEntropy).
  intros i j H. cbn [fresh countingEntropy] in H.
  apply indexKey_injective. now inversion H.
Defined.

(** ** What loading hands out *)

Lemma normalisedAs_normalised (x : JSON) (newId : string) (r : JSON) :
  normalisedAs x newId r -> normalised r.
Proof.
  intros (fs & -> & Hid & Hc & _).
  exists fs. eexists. eexists. split; [reflexivity|].
  split; [exact Hid|]. split; [|exact Hc].
  destruct (getProp x "id") as [[| | | | |]|]; discriminate.
Qed.

Lemma normaliseAll_normalised (l : list JSON) (e e' : Entropy)
    (rs : list JSON) :
  normaliseAll l e = (Some rs, e') -> Forall normalised rs.
Proof.
  revert e rs. induction l as [|x l IH]; intros e rs H.
  - inversion H. constructor.
  - cbn [normaliseAll] in H. unfold bind at 1 in H.
    destruct (normaliseSession x e) as [[r|] e1] eqn:E1;
      [|discriminate H].
    unfold bind in H.
    destruct (normaliseAll l e1) as [[rs'|] e2] eqn:E2;
      inversion H; subst.
    constructor; [|eapply IH; eauto].
    assert (N : x <> JNull) by (intros ->; discriminate E1).
    destruct (normaliseSession_spec x e N) as (newId & r0 & e0 & E0 & H0).
    rewrite E1 in E0. inversion E0; subst.
    eapply normalisedAs_normalised; eauto.
Qed.

Lemma Session_toJSON_normalised (s : Session) : normalised (Session_toJSON s).
Proof.
  destruct s as [i n f t d st m l [o|] c];
    eexists; eexists; eexists;
    (split; [reflexivity|]); (split; [reflexivity|]);
    (split; [discriminate|reflexivity]).
Qed.

Lemma defaultWeek_normalised (e : Entropy) :
  Forall normalised (fst (defaultWeek e)).
Proof.
  unfold defaultWeek, bind, ret.
  destruct (suggestBalancedWeek e) as [ws e']. cbn [fst].
  rewrite Forall_map, Forall_forall. intros s _.
  apply Session_toJSON_normalised.
Qed.

(** X11.  Whatever the slot holds and whatever parsing makes of it, every
    element [loadSessions] returns is an object with an [id] that is
    neither missing nor [null] and a boolean [completed]. *)
Theorem loadSessions_elements_normalised (hasWindow : bool)
    (JSON_parse : string -> option JSON) (slot : option string)
    (e : Entropy) :
  Forall normalised (fst (loadSessions hasWindow JSON_parse slot e)).
Proof.
  pose proof (defaultWeek_normalised e) as D.
  unfold loadSessions. destruct hasWindow; cbn [negb]; [|constructor].
  destruct slot as [raw|]; [|exact D].
  destruct (String.eqb raw EmptyString); [exact D|].
  destruct (JSON_parse raw) as [[| | | |l|]|]; try exact D.
  unfold bind at 1.
  destruct (normaliseAll l e) as [[rs|] e'] eqn:E.
  - cbn [ret fst]. eapply normaliseAll_normalised; eauto.
  - apply defaultWeek_normalised.
Qed.

Lemma setField_present (k : string) (v : JSON) (fs : list (string * JSON)) :
  getField k fs = Some v -> setField k v fs = fs.
Proof.
  induction fs as [|[k' v'] fs IH]; cbn [getField setField];
    [discriminate|].
  destruct (String.eqb_spec k' k) as [->|N].
  - intros H. inversion H. reflexivity.
  - intros H. now rewrite IH.
Qed.

Lemma normaliseSession_fixed (r : JSON) (e : Entropy) :
  normalised r -> normaliseSession r e = (Some r, e).
Proof.
  intros (fs & v & b & -> & Hid & Hv & Hc).
  cbn [normaliseSession getProp spreadProps]. rewrite Hid, Hc.
  cbn [toBoolean].
  assert (G : forall k : JSON -> Gen (option JSON),
    bind (match v with
          | JNull => s <- generateId ;; ret (JStr s)
          | _ => ret v
          end) k e = k v e).
  { intros k. destruct v; [congruence|reflexivity..]. }
  destruct v; try congruence;
    unfold bind, ret;
    rewrite (setField_present "id" _ fs Hid),
            (setField_present "completed" _ fs Hc); reflexivity.
Qed.

(** X12.  The normalisation in [loadSessions] settles at once: applied to
    what it returned, it returns the same elements and draws no
    identifier. *)
Theorem normaliseAll_idempotent (l rs : list JSON) (e e' e2 : Entropy) :
  normaliseAll l e = (Some rs, e') ->
  normaliseAll rs e2 = (Some rs, e2).
Proof.
  intros H. apply normaliseAll_normalised in H.
  induction H as [|r rs Hr _ IH]; [reflexivity|].
  cbn [normaliseAll]. unfold bind at 1.
  rewrite normaliseSession_fixed by exact Hr.
  unfold bind. rewrite IH. reflexivity.
Qed.

Lemma normaliseAll_idempotent_witness :
  normaliseAll [JObj []; JNum 7] countingEntropy =
    (Some [JObj [("id", JStr "id-0"); ("completed", JBool false)];
           JObj [("id", JStr "id-1"); ("completed", JBool false)]],
     mkEntropy (fresh countingEntropy) 2) /\
  normaliseAll [JObj [("id", JStr "id-0"); ("completed", JBool false)];
                JObj [("id", JStr "id-1"); ("completed", JBool false)]]
    countingEntropy =
    (Some [JObj [("id", JStr "id-0"); ("completed", JBool false)];
           JObj [("id", JStr "id-1"); ("completed", JBool false)]],
     countingEntropy).
Proof.
  split; [reflexivity|].
  apply (normaliseAll_idempotent [JObj []; JNum 7] _ countingEntropy
           (mkEntropy (fresh countingEntropy) 2) countingEntropy).
  reflexivity.
Defined.

(** ** Mounting and the slot *)

(** X13.  A slot that holds the text of the empty array loads once as the
    empty collection, and that load clears the slot: mounting the page
    again gives the seeded week and stores it. *)
Theorem mount_over_empty_array (JSON_parse : string -> option JSON)
    (JSON_stringify : JSON -> string) (raw : string) (st : AppState) :
  slot st = Some raw -> raw <> EmptyString ->
  JSON_parse raw = Some (JArr []) ->
  exists st1 st2,
    mount true JSON_parse JSON_stringify st = Some st1 /\
    sessions st1 = [] /\ slot st1 = None /\ entropy st1 = entropy st /\
    mount true JSON_parse JSON_stringify st1 = Some st2 /\
    sessions st2 = fst (suggestBalancedWeek (entropy st)) /\
    sessions st2 <> [] /\
    slot st2 = Some (JSON_stringify (JArr (map Session_toJSON (sessions st2)))).
Proof.
  intros Hs N P. apply String.eqb_neq in N.
  exists (mkAppState [] DEFAULT_SESSION None None (entropy st)).
  pose proof (suggestBalancedWeek_nonempty (entropy st)) as NE.
  destruct (suggestBalancedWeek (entropy st)) as [ws e'] eqn:W.
  cbn [fst] in NE.
  exists (mkAppState ws DEFAULT_SESSION None
            (Some (JSON_stringify (JArr (map Session_toJSON ws)))) e').
  split.
  { unfold mount, loadSessions. rewrite Hs. cbn [negb]. rewrite N, P.
    reflexivity. }
  split; [reflexivity|]. split; [reflexivity|]. split; [reflexivity|].
  split.
  { unfold mount, loadSessions. cbn [negb slot entropy]. unfold bind, ret.
    rewrite W, sessionsOfJSON_toJSON. cbn [obind].
    unfold setSessions. cbn [sessions draft editingId slot entropy].
    f_equal. f_equal.
    destruct ws as [|w ws]; [congruence|]. reflexivity. }
  cbn [sessions slot]. auto.
Qed.

Lemma mount_over_empty_array_witness :
  exists st1 st2,
    mount true JSONText.parse JSONText.stringify
      (mkAppState [] DEFAULT_SESSION None (Some "[]") countingEntropy)
      = Some st1 /\
    sessions st1 = [] /\ slot st1 = None /\
    entropy st1 = countingEntropy /\
    mount true JSONText.parse JSONText.stringify st1 = Some st2 /\
    sessions st2 = fst (suggestBalancedWeek countingEntropy) /\
    sessions st2 <> [] /\
    slot st2 =
      Some (JSONText.stringify (JArr (map Session_toJSON (sessions st2)))).
Proof.
  apply (mount_over_empty_array JSONText.parse JSONText.stringify "[]"
           (mkAppState [] DEFAULT_SESSION None (Some "[]") countingEntropy)).
  - reflexivity.
  - discriminate.
  - reflexivity.
Defined.

Lemma setSessions_mirrored (JSON_stringify : JSON -> string)
    (next : list Session) (st : AppState) :
  mirrored JSON_stringify (setSessions true JSON_stringify next st).
Proof. reflexivity. Qed.

Lemma step_mirrored (JSON_parse : string -> option JSON)
    (JSON_stringify : JSON -> string) (a : Action) (st st' : AppState) :
  mirrored JSON_stringify st ->
  step true JSON_parse JSON_stringify a st = Some st' ->
  mirrored JSON_stringify st'.
Proof.
  intros M H. destruct a as [|c| |t|s| |target|target|]; cbn [step] in H;
    try (inversion H; subst; exact M).
  - unfold mount in H.
    destruct (loadSessions true JSON_parse (slot st) (entropy st))
      as [loaded e'].
    destruct (sessionsOfJSON loaded) as [ss|]; inversion H; subst.
    apply setSessions_mirrored.
  - inversion H; subst. unfold handleSubmit.
    destruct (match editingId st with
              | Some target => (target, entropy st)
              | None => generateId (entropy st)
              end) as [newId e'].
    reflexivity.
  - inversion H; subst. unfold handleDelete.
    destruct (editingId st) as [e|];
      [destruct (String.eqb e target)|]; reflexivity.
  - inversion H; subst. reflexivity.
  - inversion H; subst. unfold autoBalance.
    destruct (suggestBalancedWeek (entropy st)) as [week e']. reflexivity.
Qed.

(** X14.  In the browser the slot follows the collection through every
    run of the page: it is clear while the collection is empty and holds the
    serialisation of the collection otherwise. *)
Theorem run_keeps_slot_mirrored (JSON_parse : string -> option JSON)
    (JSON_stringify : JSON -> string) (actions : list Action)
    (st st' : AppState) :
  mirrored JSON_stringify st ->
  run true JSON_parse JSON_stringify actions st = Some st' ->
  mirrored JSON_stringify st' /\
  (sessions st' = [] -> slot st' = None) /\
  (sessions st' <> [] ->
   slot st' = Some (JSON_stringify (JArr (map Session_toJSON (sessions st'))))).
Proof.
  intros M H.
  assert (M' : mirrored JSON_stringify st').
  { revert st M H. induction actions as [|a actions IH]; intros st M H.
    - inversion H; subst. exact M.
    - cbn [run] in H.
      destruct (step true JSON_parse JSON_stringify a st) as [st1|] eqn:E;
        [|discriminate H].
      cbn [obind] in H. eapply IH; [|exact H].
      eapply step_mirrored; eauto. }
  split; [exact M'|]. unfold mirrored in M'. split.
  - intros E. rewrite M', E. reflexivity.
  - intros N. rewrite M'. destruct (sessions st'); [congruence|reflexivity].
Qed.

Lemma run_keeps_slot_mirrored_witness :
  exists st',
    run true JSONText.parse JSONText.stringify
      [Mount; ToggleCompleted "id-0"; HandleDelete "id-1"]
      (initialState countingEntropy) = Some st' /\
    mirrored JSONText.stringify st' /\
    (sessions st' = [] -> slot st' = None) /\
    (sessions st' <> [] ->
     slot st' =
       Some (JSONText.stringify (JArr (map Session_toJSON (sessions st'))))).
Proof.
  eexists. split; [vm_compute; reflexivity|].
  apply (run_keeps_slot_mirrored JSONText.parse JSONText.stringify
           [Mount; ToggleCompleted "id-0"; HandleDelete "id-1"]
           (initialState countingEntropy)).
  - reflexivity.
  - vm_compute. reflexivity.
Defined.

(** X15.  Reloading the page restores the collection: from a state whose
    slot follows a non-empty collection, mounting gives back exactly that
    collection, with the default draft and no session being edited, and
    draws no identifier.  (The parser and printer are assumed to round-trip,
    as in C2.) *)
Theorem mount_restores_collection (JSON_parse : string -> option JSON)
    (JSON_stringify : JSON -> string) (st : AppState) :
  (forall v, distinctKeys v = true ->
             JSON_parse (JSON_stringify v) = Some v) ->
  (forall l, JSON_stringify (JArr l) <> EmptyString) ->
  mirrored JSON_stringify st ->
  sessions st <> [] ->
  mount true JSON_parse JSON_stringify st =
  Some (mkAppState (sessions st) DEFAULT_SESSION None (slot st) (entropy st)).
Proof.
  intros Hps Hne M N. unfold mirrored in M.
  destruct (sessions st) as [|x S] eqn:E; [congruence|].
  change (persistEffect true JSON_stringify (x :: S) None)
    with (Some (JSON_stringify (JArr (map Session_toJSON (x :: S))))) in M.
  unfold mount. rewrite M.
  rewrite (loadSessions_stored JSON_parse JSON_stringify Hps Hne).
  rewrite sessionsOfJSON_toJSON. reflexivity.
Qed.

Lemma mount_restores_collection_witness :
  mount true JSONText.parse JSONText.stringify
    (setSessions true JSONText.stringify [sampleMonday; sampleTuesday]
       (mkAppState [] (applyChange (ChangeDay Friday) DEFAULT_SESSION)
          (Some "b") None countingEntropy)) =
  Some (mkAppState [sampleMonday; sampleTuesday] DEFAULT_SESSION None
          (Some (JSONText.stringify
                   (JArr (map Session_toJSON [sampleMonday; sampleTuesday]))))
          countingEntropy).
Proof.
  apply (mount_restores_collection JSONText.parse JSONText.stringify
           (setSessions true JSONText.stringify [sampleMonday; sampleTuesday]
              (mkAppState [] (applyChange (ChangeDay Friday) DEFAULT_SESSION)
                 (Some "b") None countingEntropy))
           JSONText_parse_stringify JSONText_stringify_array_nonempty).
  - reflexivity.
  - discriminate.
Defined.

(** ** Editing *)

Lemma unique_by_id (l : list Session) (s x : Session) :
  NoDup (map id l) -> In s l -> In x l -> id x = id s -> x = s.
Proof.
  induction l as [|y l IH]; [intros _ []|].
  cbn [map]. intros H. inversion H as [|? ? Hy Hl]; subst.
  intros [->|Hs] [->|Hx] E; auto.
  - elim Hy. rewrite <- E. now apply in_map.
  - elim Hy. rewrite E. now apply in_map.
Qed.

(** X16.  Opening a session for editing and submitting the form unchanged
    leaves the collection as it was, when the collection is sorted, its ids
    are distinct, and the session has a non-empty id and its notes set; no
    identifier is drawn and the form ends reset. *)
Theorem edit_then_submit_unchanged (hasWindow : bool)
    (JSON_stringify : JSON -> string) (s : Session) (st : AppState) :
  sortedByDayStart (sessions st) ->
  NoDup (map id (sessions st)) ->
  In s (sessions st) ->
  id s <> EmptyString ->
  notes s <> None ->
  let st' :=
    handleSubmit hasWindow JSON_stringify
      (handleEdit s st) in
  sessions st' = sessions st /\ entropy st' = entropy st /\
  draft st' = DEFAULT_SESSION /\ editingId st' = None.
Proof.
  intros Hs Hd Hin Hid Hn. cbv zeta.
  unfold handleSubmit, handleEdit.
  cbn [editingId draft sessions slot entropy resetForm setSessions].
  split; [|auto].
  unfold submitSessions. apply String.eqb_neq in Hid. rewrite Hid.
  cbn [negb].
  rewrite map_unchanged; [now apply sortSessions_fixed|].
  intros x Hx. destruct (String.eqb_spec (id x) (id s)) as [E|E];
    [|reflexivity].
  rewrite (unique_by_id _ s x Hd Hin Hx E).
  destruct s as [i n f t d st0 m l [o|] c]; [reflexivity|].
  now elim Hn.
Qed.

Lemma edit_then_submit_unchanged_witness :
  let st := mkAppState [sampleMonday; sampleTuesday] DEFAULT_SESSION None
              None countingEntropy in
  let st' :=
    handleSubmit true JSONText.stringify (handleEdit sampleTuesday st) in
  sessions st' = sessions st /\ entropy st' = entropy st /\
  draft st' = DEFAULT_SESSION /\ editingId st' = None.
Proof.
  apply (edit_then_submit_unchanged true JSONText.stringify sampleTuesday
           (mkAppState [sampleMonday; sampleTuesday] DEFAULT_SESSION None
              None countingEntropy)).
  - repeat constructor.
  - repeat constructor; cbn; intuition discriminate.
  - right. left. reflexivity.
  - discriminate.
  - discriminate.
Defined.

Lemma step_editingPresent (hasWindow : bool)
    (JSON_parse : string -> option JSON) (JSON_stringify : JSON -> string)
    (a : Action) (st st' : AppState) :
  Enabled a st -> editingPresent st ->
  step hasWindow JSON_parse JSON_stringify a st = Some st' ->
  editingPresent st'.
Proof.
  intros En P H.
  assert (Pnone : forall x, editingId x = None -> editingPresent x).
  { intros x Ex t Ht. congruence. }
  destruct a as [|c| |t|s| |target|target|]; cbn [step] in H.
  - unfold mount in H.
    destruct (loadSessions hasWindow JSON_parse (slot st) (entropy st))
      as [loaded e'].
    destruct (sessionsOfJSON loaded) as [ss|]; inversion H; subst.
    now apply Pnone.
  - inversion H; subst. exact P.
  - inversion H; subst. now apply Pnone.
  - inversion H; subst. exact P.
  - inversion H; subst. intros t Ht. cbn [handleEdit editingId] in Ht.
    inversion Ht; subst. exists s. split; [exact En|reflexivity].
  - inversion H; subst. apply Pnone. unfold handleSubmit.
    destruct (match editingId st with
              | Some target => (target, entropy st)
              | None => generateId (entropy st)
              end) as [newId e']. reflexivity.
  - inversion H; subst. unfold handleDelete.
    destruct (editingId st) as [e|] eqn:E.
    + destruct (String.eqb_spec e target) as [->|N].
      * now apply Pnone.
      * intros t Ht. cbn [setSessions editingId] in Ht.
        rewrite E in Ht. inversion Ht; subst.
        destruct (P t E) as (x & Hx & Hid).
        exists x. cbn [setSessions sessions]. split; [|exact Hid].
        apply deleteSession_In. split; [exact Hx|congruence].
    + apply Pnone. exact E.
  - inversion H; subst. intros t Ht. cbn [toggleCompleted setSessions
      editingId] in Ht.
    destruct (P t Ht) as (x & Hx & Hid).
    cbn [toggleCompleted setSessions sessions].
    assert (I : In t (map id (toggleSession target (sessions st)))).
    { rewrite toggleSession_ids. rewrite <- Hid. now apply in_map. }
    apply in_map_iff in I as (y & Hy & Hin). eauto.
  - inversion H; subst. apply Pnone. unfold autoBalance.
    destruct (suggestBalancedWeek (entropy st)) as [week e']. reflexivity.
Qed.

(** X17.  Along every run in which the edit control is used on a session
    on display, the session being edited is in the collection: a submitted
    edit always finds the session it updates. *)
Theorem trace_keeps_editing_present (hasWindow : bool)
    (JSON_parse : string -> option JSON) (JSON_stringify : JSON -> string)
    (actions : list Action) (st st' : AppState) :
  Trace hasWindow JSON_parse JSON_stringify st actions st' ->
  editingPresent st ->
  editingPresent st'.
Proof.
  induction 1 as [st|st a st1 rest st2 En E _ IH]; [auto|].
  intros P. apply IH. eapply step_editingPresent; eauto.
Qed.

Lemma trace_keeps_editing_present_witness :
  editingPresent
    (handleDelete true JSONText.stringify "b"
       (handleEdit sampleTuesday
          (mkAppState [sampleMonday; sampleTuesday] DEFAULT_SESSION None
             None countingEntropy))).
Proof.
  apply (trace_keeps_editing_present true JSONText.parse JSONText.stringify
           [HandleEdit sampleTuesday; HandleDelete "b"]
           (mkAppState [sampleMonday; sampleTuesday] DEFAULT_SESSION None
              None countingEntropy)).
  - eapply Trace_step; [right; left; reflexivity | reflexivity |].
    eapply Trace_step;
      [exists sampleMonday; split; [left; reflexivity|reflexivity]
      | reflexivity |].
    apply Trace_done.
  - intros t Ht. discriminate Ht.
Defined.

(** ** End times on a clock with a fixed offset *)

Lemma getEndTime_fixed_offset (z h m d : Z) :
  Z.abs z <= 86400000 -> 0 <= h < 24 -> 0 <= m < 60 ->
  0 <= d <= 100000000000 ->
  getEndTime (fun _ _ => z) (clock h m) d =
  Some (clock (((h * 60 + m + d) mod 1440) / 60)
              (((h * 60 + m + d) mod 1440) mod 60)).
Proof.
  intros Hz Hh Hm Hd.
  unfold getEndTime. rewrite parseClock_clock by lia.
  unfold localDate, addMinutes, TimeClip.
  assert (L : startLocal h m = 1577836800000 + (h * 60 + m) * 60000)
    by reflexivity.
  unfold MAX_TIME_VALUE, MS_PER_MINUTE.
  destruct (Z.leb_spec (Z.abs (startLocal h m - z)) 8640000000000000)
    as [_|B]; [|lia].
  cbn [obind].
  destruct (Z.leb_spec (Z.abs (startLocal h m - z + d * 60000))
              8640000000000000) as [_|B]; [|lia].
  unfold formatHHmm. f_equal.
  replace (startLocal h m - z + d * 60000 + z)
    with (MS_TO_2020 + (h * 60 + m + d) * MS_PER_MINUTE)
    by (unfold MS_TO_2020, MS_PER_MINUTE; lia).
  destruct (wall_clock_fields (h * 60 + m + d)) as [-> ->]; [lia|].
  reflexivity.
Qed.

Lemma minutes_of_day (t : Z) :
  0 <= (t mod 1440) / 60 < 24 /\ 0 <= (t mod 1440) mod 60 < 60 /\
  ((t mod 1440) / 60) * 60 + (t mod 1440) mod 60 = t mod 1440.
Proof.
  pose proof (Z.mod_pos_bound t 1440 ltac:(lia)).
  pose proof (Z.div_mod (t mod 1440) 60 ltac:(lia)).
  pose proof (Z.mod_pos_bound (t mod 1440) 60 ltac:(lia)).
  lia.
Qed.

(** X18.  On a clock with a fixed offset from UTC, end times compose: the
    end of [d2] minutes from the end of [d1] minutes is the end of
    [d1 + d2] minutes. *)
Theorem getEndTime_composes (z h m d1 d2 : Z) :
  Z.abs z <= 86400000 -> 0 <= h < 24 -> 0 <= m < 60 ->
  0 <= d1 -> 0 <= d2 -> d1 + d2 <= 100000000000 ->
  exists mid,
    getEndTime (fun _ _ => z) (clock h m) d1 = Some mid /\
    getEndTime (fun _ _ => z) mid d2 =
    getEndTime (fun _ _ => z) (clock h m) (d1 + d2).
Proof.
  intros Hz Hh Hm H1 H2 H12.
  eexists. split; [apply getEndTime_fixed_offset; lia|].
  destruct (minutes_of_day (h * 60 + m + d1)) as (A & B & C).
  rewrite !getEndTime_fixed_offset by lia.
  rewrite C. f_equal.
  replace (h * 60 + m + (d1 + d2)) with (h * 60 + m + d1 + d2) by lia.
  rewrite Zplus_mod_idemp_l. reflexivity.
Qed.

Lemma getEndTime_composes_witness :
  exists mid,
    getEndTime (fun _ _ => 3600000) (clock 23 30) 90 = Some mid /\
    getEndTime (fun _ _ => 3600000) mid 45 =
    getEndTime (fun _ _ => 3600000) (clock 23 30) (90 + 45).
Proof.
  apply (getEndTime_composes 3600000 23 30 90 45); simpl; lia.
Defined.

(** X19.  On a clock with a fixed offset from UTC, a duration of zero
    gives the start itself, and whole days added to the duration do not
    change the end time. *)
Theorem getEndTime_zero_and_whole_days (z h m d k : Z) :
  Z.abs z <= 86400000 -> 0 <= h < 24 -> 0 <= m < 60 ->
  0 <= d -> 0 <= k -> d + 1440 * k <= 100000000000 ->
  getEndTime (fun _ _ => z) (clock h m) 0 = Some (clock h m) /\
  getEndTime (fun _ _ => z) (clock h m) (d + 1440 * k) =
  getEndTime (fun _ _ => z) (clock h m) d.
Proof.
  intros Hz Hh Hm Hd Hk Hb.
  rewrite !getEndTime_fixed_offset by lia. split.
  - replace (h * 60 + m + 0) with (h * 60 + m) by lia.
    rewrite (Z.mod_small (h * 60 + m) 1440) by lia.
    replace (h * 60 + m) with (m + h * 60) by lia.
    rewrite Z.div_add, Z.mod_add by lia.
    rewrite Z.div_small, Z.mod_small by lia. reflexivity.
  - replace (h * 60 + m + (d + 1440 * k)) with (h * 60 + m + d + k * 1440)
      by lia.
    rewrite Z.mod_add by lia. reflexivity.
Qed.

Lemma getEndTime_zero_and_whole_days_witness :
  getEndTime (fun _ _ => 0) (clock 7 5) 0 = Some (clock 7 5) /\
  getEndTime (fun _ _ => 0) (clock 7 5) (50 + 1440 * 3) =
  getEndTime (fun _ _ => 0) (clock 7 5) 50.
Proof.
  apply (getEndTime_zero_and_whole_days 0 7 5 50 3); simpl; lia.
Defined.


(** ** Identifiers along a run *)

Lemma seeded_entropy (e : Entropy) :
  snd (suggestBalancedWeek e) = mkEntropy (fresh e) (drawn e + 6).
Proof.
  destruct e as [f n].
  cbv [suggestBalancedWeek mapWithIndex seedSession bind ret generateId
       firstn SESSION_TEMPLATES fst snd fresh drawn].
  f_equal. lia.
Qed.

Lemma submit_create_ids (p : Session) (prev : list Session) :
  Permutation (map id (submitSessions None p prev)) (id p :: map id prev).
Proof.
  unfold submitSessions.
  rewrite (Permutation_map id (sortSessions_perm _)), map_app.
  symmetry. apply Permutation_cons_append.
Qed.

Lemma submit_update_ids (target : string) (d : Draft) (prev : list Session) :
  target <> EmptyString ->
  Permutation
    (map id (submitSessions (Some target) (makePayload target d) prev))
    (map id prev).
Proof.
  intros N. unfold submitSessions.
  apply String.eqb_neq in N. rewrite N. cbn [negb].
  rewrite (Permutation_map id (sortSessions_perm _)).
  erewrite map_ext
    with (g := fun session =>
                 if String.eqb (id session) target
                 then makePayload target d else session)
    by reflexivity.
  now rewrite map_replace_ids.
Qed.

Lemma deleteSession_ids_incl (target : string) (l : list Session)
    (i : string) :
  In i (map id (deleteSession target l)) -> In i (map id l).
Proof.
  intros H. apply in_map_iff in H as (s & Hs & Hin).
  apply deleteSession_In in Hin as [Hin _].
  apply in_map_iff. eauto.
Qed.

Section IdsAlongRun.
Variable JSON_parse : string -> option JSON.
Variable JSON_stringify : JSON -> string.
Variable source : nat -> string.

Hypothesis parse_stringify :
  forall v, distinctKeys v = true -> JSON_parse (JSON_stringify v) = Some v.
Hypothesis stringify_array :
  forall l, JSON_stringify (JArr l) <> EmptyString.
(** The source never repeats itself and never yields the empty string. *)
Hypothesis source_injective : forall i j, source i = source j -> i = j.
Hypothesis source_nonempty : forall k, source k <> EmptyString.

Lemma seeded_state_invariant (st : AppState) (week : list Session)
    (e' : Entropy) (d : Draft) (sl : option string) :
  fresh (entropy st) = source ->
  suggestBalancedWeek (entropy st) = (week, e') ->
  idsInvariant source JSON_stringify
    (setSessions true JSON_stringify week (mkAppState [] d None sl e')).
Proof.
  intros F W.
  pose proof (seeded_ids (entropy st)) as I.
  pose proof (seeded_entropy (entropy st)) as E.
  rewrite W in I, E. cbn [fst snd] in I, E. subst e'.
  unfold idsInvariant, idsDrawn.
  cbn [setSessions sessions entropy fresh drawn editingId].
  rewrite I, F. split; [reflexivity|]. split; [|split; [|split]].
  - apply Injective_map_NoDup; [|apply seq_NoDup].
    intros a b Hab. apply source_injective in Hab. lia.
  - rewrite Forall_map, Forall_forall. intros k Hk.
    apply in_seq in Hk. exists (drawn (entropy st) + k)%nat.
    split; [lia|reflexivity].
  - intros t Ht. discriminate Ht.
  - reflexivity.
Qed.

Lemma idsDrawn_monotone (l : list string) (f : nat -> string) (n n' : nat) :
  (n <= n')%nat ->
  Forall (fun i => exists k, (k < n)%nat /\ i = f k) l ->
  Forall (fun i => exists k, (k < n')%nat /\ i = f k) l.
Proof.
  intros Hn. apply Forall_impl. intros i (k & Hk & ->).
  exists k. split; [lia|reflexivity].
Qed.

Lemma step_idsInvariant (a : Action) (st st' : AppState) :
  Enabled a st ->
  idsInvariant source JSON_stringify st ->
  step true JSON_parse JSON_stringify a st = Some st' ->
  idsInvariant source JSON_stringify st'.
Proof.
  intros En Inv H.
  pose proof Inv as (F & ND & DR & EP & MI).
  assert (EP' : editingPresent st')
    by (eapply step_editingPresent; eauto).
  assert (MI' : mirrored JSON_stringify st')
    by (eapply step_mirrored; eauto).
  unfold idsDrawn in DR.
  destruct a as [|c| |t|s| |target|target|]; cbn [step] in H.
  - (* Mount *)
    unfold mount in H. unfold mirrored in MI.
    destruct (sessions st) as [|x S] eqn:ES.
    + change (persistEffect true JSON_stringify [] None)
        with (@None string) in MI.
      rewrite MI in H. unfold loadSessions in H. cbn [negb] in H.
      unfold bind, ret in H.
      destruct (suggestBalancedWeek (entropy st)) as [week e'] eqn:W.
      rewrite sessionsOfJSON_toJSON in H. cbn [obind] in H.
      inversion H; subst st'.
      change (setSessions true JSON_stringify []
                (mkAppState [] DEFAULT_SESSION None None e'))
        with (mkAppState [] DEFAULT_SESSION None None e').
      eapply seeded_state_invariant; eauto.
    + change (persistEffect true JSON_stringify (x :: S) None)
        with (Some (JSON_stringify (JArr (map Session_toJSON (x :: S)))))
        in MI.
      rewrite MI in H.
      rewrite (loadSessions_stored JSON_parse JSON_stringify
                 parse_stringify stringify_array) in H.
      rewrite sessionsOfJSON_toJSON in H. cbn [obind] in H.
      inversion H; subst st'.
      unfold idsInvariant, idsDrawn.
      cbn [setSessions sessions entropy editingId].
      repeat split; auto.
  - inversion H; subst st'. unfold idsInvariant, idsDrawn. auto.
  - inversion H; subst st'. unfold idsInvariant, idsDrawn. auto.
  - inversion H; subst st'. unfold idsInvariant, idsDrawn. auto.
  - inversion H; subst st'. unfold idsInvariant, idsDrawn. auto.
  - (* HandleSubmit *)
    inversion H; subst st'. clear H.
    unfold idsInvariant, idsDrawn. unfold handleSubmit in *.
    destruct (editingId st) as [t|] eqn:ET.
    + destruct (EP t ET) as (s & Hs & Hid).
      assert (Ht : In t (map id (sessions st)))
        by (rewrite <- Hid; now apply in_map).
      assert (N : t <> EmptyString).
      { rewrite Forall_forall in DR.
        destruct (DR t Ht) as (k & _ & ->). rewrite F.
        apply source_nonempty. }
      pose proof (submit_update_ids t (draft st) (sessions st) N) as P.
      cbn [resetForm setSessions sessions entropy] in *.
      split; [exact F|]. split; [|split; [|split; assumption]].
      * eapply Permutation_NoDup; [symmetry; exact P|exact ND].
      * eapply Permutation_Forall; [symmetry; exact P|exact DR].
    + unfold generateId in *.
      cbn [resetForm setSessions sessions entropy fresh drawn] in *.
      pose proof (submit_create_ids
                    (makePayload (fresh (entropy st) (drawn (entropy st)))
                       (draft st)) (sessions st)) as P.
      cbn [makePayload id] in P.
      split; [exact F|]. split; [|split; [|split; assumption]].
      * eapply Permutation_NoDup; [symmetry; exact P|].
        constructor; [|exact ND].
        intros Hin. rewrite Forall_forall in DR.
        destruct (DR _ Hin) as (k & Hk & Ek).
        rewrite F in Ek. apply source_injective in Ek. lia.
      * eapply Permutation_Forall; [symmetry; exact P|].
        constructor.
        -- exists (drawn (entropy st)). split; [lia|reflexivity].
        -- eapply idsDrawn_monotone; [|exact DR]. lia.
  - (* HandleDelete *)
    inversion H; subst st'. clear H.
    assert (S : sessions (handleDelete true JSON_stringify target st) =
                deleteSession target (sessions st) /\
                entropy (handleDelete true JSON_stringify target st) =
                entropy st).
    { unfold handleDelete. destruct (editingId st) as [e|];
        [destruct (String.eqb e target)|]; split; reflexivity. }
    destruct S as [S1 S2].
    unfold idsInvariant, idsDrawn. rewrite S1, S2.
    split; [exact F|]. split; [|split; [|split; assumption]].
    + now apply deleteSession_ids_NoDup.
    + rewrite Forall_forall in *. intros i Hi.
      apply DR. eapply deleteSession_ids_incl; eauto.
  - (* ToggleCompleted *)
    inversion H; subst st'. clear H.
    unfold idsInvariant, idsDrawn.
    cbn [toggleCompleted setSessions sessions entropy] in *.
    rewrite toggleSession_ids. auto.
  - (* AutoBalance *)
    inversion H; subst st'. clear H. unfold autoBalance.
    destruct (suggestBalancedWeek (entropy st)) as [week e'] eqn:W.
    change (resetForm
              (setSessions true JSON_stringify week
                 (mkAppState (sessions st) (draft st) (editingId st)
                    (slot st) e')))
      with (setSessions true JSON_stringify week
              (mkAppState [] DEFAULT_SESSION None (slot st) e')).
    eapply seeded_state_invariant; eauto.
Qed.

(** X20.  With a random source that never repeats itself and never yields
    the empty string, the ids of the collection stay pairwise distinct (and
    non-empty) along every run of the page that starts from a state whose
    ids were drawn from that source, in particular from the first visit
    over an empty storage: through loading, creating, updating, deleting,
    toggling and auto-balancing in any order. *)
Theorem ids_stay_unique (actions : list Action) (st st' : AppState) :
  Trace true JSON_parse JSON_stringify st actions st' ->
  idsInvariant source JSON_stringify st ->
  idsInvariant source JSON_stringify st' /\
  NoDup (map id (sessions st')) /\
  Forall (fun i => i <> EmptyString) (map id (sessions st')).
Proof.
  intros T Inv.
  assert (Inv' : idsInvariant source JSON_stringify st').
  { induction T as [st|st a st1 rest st2 En E _ IH]; [exact Inv|].
    apply IH. eapply step_idsInvariant; eauto. }
  split; [exact Inv'|].
  destruct Inv' as (F & ND & DR & _ & _). split; [exact ND|].
  eapply Forall_impl; [|exact DR].
  intros i (k & _ & ->). rewrite F. apply source_nonempty.
Qed.
End IdsAlongRun.

Lemma ids_stay_unique_witness :
  idsInvariant (fresh countingEntropy) JSONText.stringify
    (handleSubmit true JSONText.stringify
       (autoBalance true JSONText.stringify
          (initialState countingEntropy))) /\
  NoDup (map id (sessions
    (handleSubmit true JSONText.stringify
       (autoBalance true JSONText.stringify
          (initialState countingEntropy))))) /\
  Forall (fun i => i <> EmptyString) (map id (sessions
    (handleSubmit true JSONText.stringify
       (autoBalance true JSONText.stringify
          (initialState countingEntropy))))).
Proof.
  apply (ids_stay_unique JSONText.parse JSONText.stringify
           (fresh countingEntropy)
           JSONText_parse_stringify JSONText_stringify_array_nonempty
           (fun i j H => indexKey_injective i j
                           ltac:(cbn [fresh countingEntropy] in H;
                                 now inversion H))
           (fun k => ltac:(discriminate))
           [AutoBalance; HandleSubmit] (initialState countingEntropy)).
  - eapply Trace_step; [exact I | reflexivity |].
    eapply Trace_step; [exact I | reflexivity |].
    apply Trace_done.
  - unfold idsInvariant, idsDrawn, initialState.
    cbn [sessions entropy map editingId].
    repeat split; try constructor. intros t Ht. discriminate Ht.
Defined.
